(** * The chunking pipeline of [chunking.py]

    A shallow embedding of the document chunker: the token estimator, the
    construction-time validation of the document paths, the fusion of short
    chunks, the markdown clean-up before re-splitting, and the orchestration
    of the per-document stages.

    Python values are modelled as follows.
    - [str] is [string]; the truth value of a string is "not empty".
    - [int] is [Z]; a [float] is a binary64 number, [spec_float] at
      precision 53.
    - A raised exception is the [Raise] case of [result].
    - The logger is the list of records it received, oldest first.
    - The third-party backends (tokenizer, docling converter, hybrid
      chunker, recursive text splitter) are parameters. *)

From Stdlib Require Import ZArith List String Ascii Bool Lia.
From Stdlib Require Import QArith.QArith_base QArith.Qround.
From Stdlib Require Import Floats.SpecFloat.
From Equations Require Import Equations.
Import ListNotations.

Local Open Scope string_scope.
Local Open Scope list_scope.
Local Open Scope Z_scope.

(** ** Exceptions and results *)

Inductive exn : Type :=
| ValueError (msg : string)
| IndexError
| OverflowError
| StopIteration
| BackendError (msg : string).

Inductive result (A : Type) : Type :=
| Ok (a : A)
| Raise (e : exn).

Arguments Ok {A} a.
Arguments Raise {A} e.

Definition bind {A B : Type} (r : result A) (k : A -> result B) : result B :=
  match r with
  | Ok a => k a
  | Raise e => Raise e
  end.

Notation "'let*' x ':=' r 'in' k" := (bind r (fun x => k))
  (at level 10, x pattern, r at level 100, k at level 200).

(** ** Strings *)

(** The line feed character and the blank-line separator ["\n\n"]. *)
Definition LF : ascii := ascii_of_nat 10.
Definition blank_line : string := String LF (String LF EmptyString).

(** Truth value of a Python string. *)
Definition truthy (s : string) : bool :=
  match s with
  | EmptyString => false
  | String _ _ => true
  end.

(** [l[-1] += s] on a list of strings; [None] when the list is empty
    (Python raises [IndexError]). *)
Fixpoint iadd_last (l : list string) (s : string) : option (list string) :=
  match l with
  | [] => None
  | [x] => Some [(x ++ s)%string]
  | x :: l' =>
      match iadd_last l' s with
      | Some l'' => Some (x :: l'')
      | None => None
      end
  end.

(** ** Token estimator *)

(** Python floats are binary64 numbers. *)
Definition float_prec : Z := 53.
Definition float_emax : Z := 1024.

(** The literal [1.3]: the binary64 number nearest to 13/10,
    [0x1.4cccccccccccdp+0]. *)
Definition float_1_3 : spec_float := S754_finite false 5854679515581645 (-52).

(** [float(n)] for an [int]: rounded to nearest, ties to even;
    [OverflowError] when [n] is too large for a binary64 number. *)
Definition float_of_int (n : Z) : result spec_float :=
  match binary_normalize float_prec float_emax n 0 false with
  | S754_infinity _ => Raise OverflowError
  | x => Ok x
  end.

(** [int(x)] for a [float]: truncation towards zero. *)
Definition int_of_float (x : spec_float) : result Z :=
  match x with
  | S754_zero _ => Ok 0
  | S754_finite s m e => Ok (cond_Zopp s (Z.shiftl (Zpos m) e))
  | S754_infinity _ => Raise OverflowError
  | S754_nan => Raise (ValueError "cannot convert float NaN to integer")
  end.

(** [math.floor(x)] for a [float]: the largest integer at most [x]. *)
Definition floor_of_float (x : spec_float) : result Z :=
  match x with
  | S754_zero _ => Ok 0
  | S754_finite s m e => Ok (Z.shiftl (cond_Zopp s (Zpos m)) e)
  | S754_infinity _ => Raise OverflowError
  | S754_nan => Raise (ValueError "cannot convert float NaN to integer")
  end.

(** [num_words * 1.3] with an [int] on the left: the [int] is converted
    to a [float], then the two floats are multiplied. *)
Definition mul_int_float (n : Z) (y : spec_float) : result spec_float :=
  let* x := float_of_int n in
  Ok (SFmul float_prec float_emax x y).

Definition _num_tokens_from_words (num_words : Z) : result Z :=
  let* x := mul_int_float num_words float_1_3 in
  int_of_float x.

(** [num_tokens * 4] is a product of two [int]s, and [int] of an [int] is
    that [int]. *)
Definition _num_chars_from_tokens (num_tokens : Z) : Z :=
  num_tokens * 4.

(** A float that is not a negative finite number. *)
Definition not_negative (x : spec_float) : Prop :=
  match x with
  | S754_finite true _ _ => False
  | _ => True
  end.

Definition _DEFAULT_CHUNK_OVERLAP : Z := 100.
Definition SUPPORTED_FILETYPES : list string := [".pdf"; ".md"].

(** ** Paths and conversion results *)

(** A [pathlib.Path], with the attributes the chunker reads. *)
Record Path : Type := {
  path_str : string;
  stem : string;
  suffix : string
}.

(** The statuses of a docling conversion. *)
Inductive ConversionStatus : Type :=
| PENDING
| STARTED
| FAILURE
| SUCCESS
| PARTIAL_SUCCESS
| SKIPPED.

Definition is_success (st : ConversionStatus) : bool :=
  match st with
  | SUCCESS => true
  | _ => false
  end.

(** A docling [ConversionResult] over documents of type [D]. *)
Record ConversionResult (D : Type) : Type := {
  input_file : Path;
  status : ConversionStatus;
  document : D
}.

Arguments input_file {D} _.
Arguments status {D} _.
Arguments document {D} _.

(** A tokenizer maps a text to its sequence of tokens. *)
Definition Tokenizer : Type := string -> list string.

(** ** Third-party backends

    The capabilities the chunker obtains from docling, transformers and
    langchain. *)
Class Backends : Type := {
  (** The structured document docling produces. *)
  DoclingDocument : Type;
  (** [DocumentConverter.convert_all] of the converter built over the
      model artifacts at the given path. *)
  convert_all : string -> list Path -> list (ConversionResult DoclingDocument);
  (** [AutoTokenizer.from_pretrained] behind [create_tokenizer]. *)
  load_tokenizer : string -> result Tokenizer;
  (** [HybridChunker(tokenizer, max_tokens)]: [chunk] followed by
      [serialize] of every chunk; either may raise. *)
  hybrid_chunk : Tokenizer -> Z -> DoclingDocument -> result (list string);
  (** [RecursiveCharacterTextSplitter.from_language(MARKDOWN, chunk_size,
      chunk_overlap).create_documents([text])], as page contents. *)
  create_documents : Z -> Z -> string -> list string;
  (** The structural boundaries the splitter recognises: [split_point p i]
      holds when [p] may be cut before its character of index [i]. *)
  split_point : string -> nat -> bool;
  (** [json.dumps(document.export_to_dict())] and
      [document.export_to_markdown()]. *)
  export_to_json : DoclingDocument -> string;
  export_to_markdown : DoclingDocument -> string
}.

(** ** The document chunker object *)

Record DocumentChunker `{Backends} : Type := {
  document_filetype : string;
  document_paths : list Path;
  docling_model_path : string;
  converter : list Path -> list (ConversionResult DoclingDocument);
  server_ctx_size : Z;
  chunk_word_count : Z;
  tokenizer : Tokenizer
}.

Definition get_token_count (text : string) (tok : Tokenizer) : Z :=
  Z.of_nat (List.length (tok text)).

(** ** Logging and other effects *)

Inductive log_record : Type :=
| ErrorChunkingDocument (file : Path) (e : exn)
| DocumentFailedToConvert (file : Path)
| ProcessedDocs (total failed : Z).

Inductive event : Type :=
| DownloadDoclingModels
| ProbeOcrBackends
| LoadTokenizer (model_path : string).

Inductive fs_write : Type :=
| WriteFile (name : string) (content : string).

(** ** Construction: [split_docs_by_filetype] and [__init__] *)

(** [document_dict[filetype].append(path)] on a [defaultdict(list)], keys
    kept in insertion order. *)
Fixpoint dict_append (document_dict : list (string * list Path))
    (filetype : string) (path : Path) : list (string * list Path) :=
  match document_dict with
  | [] => [(filetype, [path])]
  | (k, v) :: d' =>
      if String.eqb k filetype then (k, v ++ [path]) :: d'
      else (k, v) :: dict_append d' filetype path
  end.

Fixpoint split_docs_loop (document_paths : list Path)
    (document_dict : list (string * list Path))
    : result (list (string * list Path)) :=
  match document_paths with
  | [] => Ok document_dict
  | path :: rest =>
      let filetype := suffix path in
      if negb (existsb (String.eqb filetype) SUPPORTED_FILETYPES)
      then Raise (ValueError ("Provided unsupported filetype " ++ filetype)%string)
      else split_docs_loop rest (dict_append document_dict filetype path)
  end.

Definition split_docs_by_filetype (document_paths : list Path)
    : result (list (string * list Path)) :=
  split_docs_loop document_paths [].

(** [_init_docling_converter]: downloads the docling models when no model
    path is given, probes the OCR backends, and builds the converter. *)
Definition _init_docling_converter `{Backends}
    (docling_model_path : option string)
    : (string * (list Path -> list (ConversionResult DoclingDocument)))
      * list event :=
  match docling_model_path with
  | None =>
      let downloaded := "docling-models" in
      ((downloaded, convert_all downloaded),
       [DownloadDoclingModels; ProbeOcrBackends])
  | Some p => ((p, convert_all p), [ProbeOcrBackends])
  end.

(** [DocumentChunker.__init__]: the constructed object or the exception,
    with the model and network activity triggered on the way. *)
Definition __init__ `{Backends}
    (document_paths : list Path) (tokenizer_model_name : string)
    (docling_model_path : option string)
    (server_ctx_size chunk_word_count : Z)
    : result DocumentChunker * list event :=
  match document_paths with
  | [] => (Raise (ValueError "Provided empty list of documents"), [])
  | _ :: _ =>
      match split_docs_by_filetype document_paths with
      | Raise e => (Raise e, [])
      | Ok document_dict =>
          if (1 <? Z.of_nat (List.length document_dict))
          then (Raise (ValueError "Provided multiple document types"), [])
          else
            match document_dict with
            | [] => (Raise StopIteration, [])
            | (filetype, paths) :: _ =>
                let '((model_path, conv), ev) :=
                  _init_docling_converter docling_model_path in
                match load_tokenizer tokenizer_model_name with
                | Raise e => (Raise e, ev ++ [LoadTokenizer tokenizer_model_name])
                | Ok tok =>
                    (Ok {| document_filetype := filetype;
                           document_paths := paths;
                           docling_model_path := model_path;
                           converter := conv;
                           server_ctx_size := server_ctx_size;
                           chunk_word_count := chunk_word_count;
                           tokenizer := tok |},
                     ev ++ [LoadTokenizer tokenizer_model_name])
                end
            end
      end
  end.

(** ** Fusion stage: [fuse_texts] *)

(** The [for text in text_list] loop, threading [fused_texts] and
    [previous_long_text]. *)
Fixpoint fuse_loop `{Backends} (self : DocumentChunker)
    (short_length_threshold : Z) (text_list : list string)
    (fused_texts : list string) (previous_long_text : string)
    : result (list string) :=
  match text_list with
  | [] => Ok fused_texts
  | text :: rest =>
      let token_count := get_token_count text (tokenizer self) in
      if (token_count <=? short_length_threshold) && truthy previous_long_text
      then
        match iadd_last fused_texts (blank_line ++ text)%string with
        | Some fused_texts' =>
            fuse_loop self short_length_threshold rest fused_texts'
              previous_long_text
        | None => Raise IndexError
        end
      else
        fuse_loop self short_length_threshold rest (fused_texts ++ [text]) text
  end.

Definition fuse_texts `{Backends} (self : DocumentChunker)
    (text_list : list string) (short_length_threshold : Z)
    : result (list string) :=
  fuse_loop self short_length_threshold text_list [] "".

(** The default of the [short_length_threshold] argument. *)
Definition fuse_texts_default_threshold : Z := 130.

(** ** Markdown re-splitter: [chunk_markdowns] *)

Definition pipe : ascii := "|"%char.
Definition dash : ascii := "-"%char.
Definition space : ascii := " "%char.

(** The leading run of [c] in [s]: its length and what follows it. *)
Fixpoint span_run (c : ascii) (s : string) : nat * string :=
  match s with
  | EmptyString => (O, EmptyString)
  | String a s' =>
      if Ascii.eqb a c
      then let '(k, rest) := span_run c s' in (S k, rest)
      else (O, s)
  end.

(** A match of the pattern [c{2,}\|] at the start of [s]: the greedy run
    of [c] takes every leading [c], and giving some back cannot help since
    the pipe has to follow the run. The result is the text after the
    match. *)
Definition match_run (c : ascii) (s : string) : option string :=
  let '(k, rest) := span_run c s in
  if (2 <=? k)%nat then
    match rest with
    | String p rest' => if Ascii.eqb p pipe then Some rest' else None
    | EmptyString => None
    end
  else None.

Lemma span_run_length (c : ascii) (s : string) :
  (String.length (snd (span_run c s)) <= String.length s)%nat.
Proof.
  induction s as [|a s IH]; simpl; [lia|].
  destruct (Ascii.eqb a c); simpl; [|lia].
  destruct (span_run c s) as [k rest]; simpl in *; lia.
Qed.

Lemma match_run_length (c : ascii) (s rest : string) :
  match_run c s = Some rest -> (String.length rest < String.length s)%nat.
Proof.
  unfold match_run. pose proof (span_run_length c s) as Hlen.
  destruct (span_run c s) as [k r]; simpl in Hlen.
  destruct (2 <=? k)%nat; [|discriminate].
  destruct r as [|p r']; [discriminate|].
  destruct (Ascii.eqb p pipe); [|discriminate].
  intros [= <-]. simpl in Hlen. lia.
Qed.

Definition inspect {A : Type} (a : A) : {b : A | a = b} := exist _ a eq_refl.

(** [re.sub(c{2,}\|, c|, s)]: scan from the left; where the pattern
    matches, emit the replacement and resume after the match; elsewhere
    copy one character and move on. *)
Equations? re_sub_run (c : ascii) (s : string) : string
  by wf (String.length s) lt :=
  re_sub_run c EmptyString := EmptyString;
  re_sub_run c (String a s') with inspect (match_run c (String a s')) := {
    | exist _ (Some rest) _ := String c (String pipe (re_sub_run c rest));
    | exist _ None _ := String a (re_sub_run c s') }.
Proof.
  match goal with
  | Hm : match_run _ _ = Some _ |- _ =>
      apply match_run_length in Hm; simpl in Hm; lia
  end.
Qed.

(** The clean-up applied to each fused chunk before splitting:
    [re.sub(r"-{2,}\|", "-|", docs)] then [re.sub(r"\  +\|", " |", docs)]. *)
Definition clean_markdown (docs : string) : string :=
  let docs := re_sub_run dash docs in
  let docs := re_sub_run space docs in
  docs.

(** The [for docs in documents] loop, threading [content]. *)
Fixpoint chunk_markdowns_loop `{Backends} (documents : list string)
    (chunk_size : Z) (content : list string) : list string :=
  match documents with
  | [] => content
  | docs :: rest =>
      let docs := clean_markdown docs in
      let temp := create_documents chunk_size _DEFAULT_CHUNK_OVERLAP docs in
      chunk_markdowns_loop rest chunk_size (content ++ temp)
  end.

Definition chunk_markdowns `{Backends} (documents : list string)
    (chunk_size : Z) : list string :=
  chunk_markdowns_loop documents chunk_size [].

(** ** Orchestration: [chunk_documents] *)

(** The stages after hybrid chunking, for the chunks of one document. *)
Definition final_chunks `{Backends} (self : DocumentChunker)
    (chunks : list string) : result (list string) :=
  let* fused_texts := fuse_texts self chunks 200 in
  let* num_tokens_per_doc := _num_tokens_from_words (chunk_word_count self) in
  let chunk_size := _num_chars_from_tokens num_tokens_per_doc in
  Ok (chunk_markdowns fused_texts chunk_size).

(** The [for conversion_result in parsed_documents] loop, threading
    [all_chunks] and the log. *)
Fixpoint chunk_documents_loop `{Backends} (self : DocumentChunker)
    (parsed_documents : list (ConversionResult DoclingDocument))
    (all_chunks : list string) (log : list log_record)
    : result (list string) * list log_record :=
  match parsed_documents with
  | [] => (Ok all_chunks, log)
  | conversion_result :: rest =>
      let doc := document conversion_result in
      let '(chunks, log) :=
        match hybrid_chunk (tokenizer self) 500 doc with
        | Ok chunks => (chunks, log)
        | Raise e =>
            ([], log ++ [ErrorChunkingDocument (input_file conversion_result) e])
        end in
      match final_chunks self chunks with
      | Ok chunks' => chunk_documents_loop self rest (all_chunks ++ chunks') log
      | Raise e => (Raise e, log)
      end
  end.

Definition chunk_documents `{Backends} (self : DocumentChunker)
    : result (list string) * list log_record :=
  let parsed_documents := converter self (document_paths self) in
  chunk_documents_loop self parsed_documents [] [].

(** ** Export side channel: [export_documents] *)

Definition docling_artifacts_path : string := "docling-artifacts".

Fixpoint export_documents_loop `{Backends}
    (converted_docs : list (ConversionResult DoclingDocument))
    (success_count failure_count : Z)
    (files : list fs_write) (log : list log_record)
    : Z * Z * list fs_write * list log_record :=
  match converted_docs with
  | [] => (success_count, failure_count, files, log)
  | doc :: rest =>
      if is_success (status doc) then
        let doc_filename := stem (input_file doc) in
        let base := (docling_artifacts_path ++ "/" ++ doc_filename)%string in
        export_documents_loop rest (success_count + 1) failure_count
          (files ++ [WriteFile (base ++ ".json")%string
                       (export_to_json (document doc));
                     WriteFile (base ++ ".md")%string
                       (export_to_markdown (document doc))])
          log
      else
        export_documents_loop rest success_count (failure_count + 1) files
          (log ++ [DocumentFailedToConvert (input_file doc)])
  end.

Definition export_documents `{Backends}
    (converted_docs : list (ConversionResult DoclingDocument))
    : string * list fs_write * list log_record :=
  let '(success_count, failure_count, files, log) :=
    export_documents_loop converted_docs 0 0 [] [] in
  (docling_artifacts_path, files,
   log ++ [ProcessedDocs (success_count + failure_count) failure_count]).

(** ** Fusion as a grouping of the input

    The fused list is the input cut into contiguous groups, each joined
    with blank lines. [starter] is the text that opened the last group:
    the value of [previous_long_text]. *)
Definition join (texts : list string) : string := String.concat blank_line texts.

Definition starter (groups : list (list string)) : string :=
  match last groups [] with
  | [] => ""
  | text :: _ => text
  end.

Definition group_step `{Backends} (self : DocumentChunker)
    (short_length_threshold : Z) (groups : list (list string))
    (text : string) : list (list string) :=
  if (get_token_count text (tokenizer self) <=? short_length_threshold)
     && truthy (starter groups)
  then removelast groups ++ [last groups [] ++ [text]]
  else groups ++ [[text]].

Definition fuse_groups `{Backends} (self : DocumentChunker)
    (short_length_threshold : Z) (text_list : list string)
    (groups : list (list string)) : list (list string) :=
  fold_left (group_step self short_length_threshold) text_list groups.

(** ** Pieces beyond the budget *)


(** ** The markdown splitter *)

(** Modelled from the spec: the separators of the recursive markdown
    splitter ([RecursiveCharacterTextSplitter] of langchain, which is not
    part of the sources). Section 4.6 names its preferred split points:
    "headings, lists, code fences, paragraph breaks". A heading starts a
    line with [#], a list item starts a line with [- ] or [* ], a code
    fence is three backquotes, a paragraph break is a blank line. *)
Definition markdown_separators : list string :=
  [String LF "#"; String LF "- "; String LF "* "; "```"; blank_line].

(** Whether a text is within the budget. *)
Definition fits (chunk_size : Z) (text : string) : bool :=
  Z.of_nat (String.length text) <=? chunk_size.

(** One more character at the front of the first part. *)
Definition push (a : ascii) (parts : list string) : list string :=
  match parts with
  | [] => [String a EmptyString]
  | part :: parts' => String a part :: parts'
  end.

(** Modelled from the spec: cutting at a split point. The text is cut
    before every occurrence of the separator that is not at its start;
    no character is dropped. *)
Fixpoint cut_before (sep text : string) : list string :=
  match text with
  | EmptyString => [EmptyString]
  | String a rest =>
      if String.prefix sep rest
      then String a EmptyString :: cut_before sep rest
      else push a (cut_before sep rest)
  end.

(** Consecutive windows of [size] characters; [room] is what is left of
    the first one. *)
Fixpoint windows (size room : nat) (text : string) : list string :=
  match text with
  | EmptyString => [EmptyString]
  | String a rest =>
      match room with
      | O => EmptyString :: push a (windows size (Nat.pred size) rest)
      | S room' => push a (windows size room' rest)
      end
  end.

(** Modelled from the spec: "falling back to character boundaries only
    when no structural boundary fits the budget". The text is cut every
    [chunk_size] characters, and into single characters when the budget
    is below one character. *)
Definition character_split (chunk_size : Z) (text : string) : list string :=
  let size := Z.to_nat (Z.max 1 chunk_size) in
  windows size size text.

(** Modelled from the spec: "a recursive structural splitter". A text
    within the budget is one piece; a longer one is cut at the first kind
    of split point and its parts are split with the remaining kinds;
    when none remains it is cut at character boundaries. *)
Fixpoint structural_split (separators : list string) (chunk_size : Z)
    (text : string) : list string :=
  if fits chunk_size text then [text]
  else
    match separators with
    | [] => character_split chunk_size text
    | sep :: separators' =>
        flat_map (structural_split separators' chunk_size)
          (cut_before sep text)
    end.

(** The last [n] characters of a text, all of it when it is shorter. *)
Definition last_chars (n : nat) (s : string) : string :=
  String.substring (String.length s - n) n s.

(** Modelled from the spec: "consecutive pieces overlapping by the
    configured overlap amount where content allows". Every piece is
    preceded by the last characters of the piece before it: at most
    [chunk_overlap] of them, and no more than the budget leaves room
    for. *)
Fixpoint overlapped (chunk_size chunk_overlap : Z) (previous : string)
    (pieces : list string) : list string :=
  match pieces with
  | [] => []
  | piece :: rest =>
      let room :=
        Z.min chunk_overlap (chunk_size - Z.of_nat (String.length piece)) in
      (last_chars (Z.to_nat room) previous ++ piece)%string
      :: overlapped chunk_size chunk_overlap piece rest
  end.

(** Modelled from the spec: the markdown re-splitter of section 4.6,
    "producing a sequence of page-content strings per input chunk". *)
Definition markdown_split (chunk_size chunk_overlap : Z) (text : string)
    : list string :=
  overlapped chunk_size chunk_overlap ""
    (structural_split markdown_separators chunk_size text).

(** Modelled from the spec: the split points of a piece. As the splitter
    falls back to character boundaries, a piece may be cut before any of
    its characters but the first. *)
Definition character_boundary (p : string) (i : nat) : bool :=
  (0 <? i)%nat && (i <? String.length p)%nat.

(** Backends whose text splitter is the one modelled from the spec. *)
Definition with_markdown_splitter (B : Backends) : Backends := {|
  DoclingDocument := @DoclingDocument B;
  convert_all := @convert_all B;
  load_tokenizer := @load_tokenizer B;
  hybrid_chunk := @hybrid_chunk B;
  create_documents := markdown_split;
  split_point := character_boundary;
  export_to_json := @export_to_json B;
  export_to_markdown := @export_to_markdown B
|}.

(** ** The spec's names for the construction errors *)

Definition EmptyDocumentSet : exn :=
  ValueError "Provided empty list of documents".
Definition UnsupportedFileType (filetype : string) : exn :=
  ValueError ("Provided unsupported filetype " ++ filetype)%string.
Definition MixedDocumentTypes : exn :=
  ValueError "Provided multiple document types".

(** ** Small concrete backends, for running the model *)

(** One token per character. *)
Fixpoint char_tokenizer (s : string) : list string :=
  match s with
  | EmptyString => []
  | String c s' => String c EmptyString :: char_tokenizer s'
  end.

(** The lines of a text. *)
Fixpoint split_lines (s : string) : list string :=
  match s with
  | EmptyString => [EmptyString]
  | String a s' =>
      if Ascii.eqb a LF then EmptyString :: split_lines s'
      else
        match split_lines s' with
        | [] => [String a EmptyString]
        | l :: ls => String a l :: ls
        end
  end.

Definition at_line_feed (p : string) (i : nat) : bool :=
  match String.get i p with
  | Some a => Ascii.eqb a LF
  | None => false
  end.

(** Backends in which a document is the outcome of chunking it, the
    tokenizer counts characters and the splitter cuts at line feeds. *)
Definition toy_backends : Backends := {|
  DoclingDocument := result (list string);
  convert_all := fun _ paths =>
    map (fun p => {| input_file := p; status := SUCCESS;
                     document := Ok [path_str p] |}) paths;
  load_tokenizer := fun _ => Ok char_tokenizer;
  hybrid_chunk := fun _ _ d => d;
  create_documents := fun _ _ text => split_lines text;
  split_point := at_line_feed;
  export_to_json := fun d =>
    match d with Ok cs => String.concat "," cs | Raise _ => "" end;
  export_to_markdown := fun d =>
    match d with Ok cs => join cs | Raise _ => "" end
|}.

Definition toy_path (name ext : string) : Path :=
  {| path_str := (name ++ ext)%string; stem := name; suffix := ext |}.

(** A chunker over [toy_backends] whose converter yields [parsed]. *)
Definition toy_chunker
    (parsed : list (ConversionResult (@DoclingDocument toy_backends)))
    : @DocumentChunker toy_backends :=
  {| document_filetype := ".md";
     document_paths := map input_file parsed;
     docling_model_path := "docling-models";
     converter := fun _ => parsed;
     server_ctx_size := 4096;
     chunk_word_count := 1024;
     tokenizer := char_tokenizer |}.

Definition toy_result (name : string) (st : ConversionStatus)
    (d : result (list string))
    : ConversionResult (@DoclingDocument toy_backends) :=
  {| input_file := toy_path name ".md"; status := st; document := d |}.

(** A text of [n] characters. *)
Definition filler (n : nat) : string :=
  string_of_list_ascii (repeat "x"%char n).

(** A chunker over [toy_backends] with the markdown splitter, for a
    given word count. *)
Definition markdown_chunker (words : Z)
    (parsed : list (ConversionResult (@DoclingDocument toy_backends)))
    : @DocumentChunker (with_markdown_splitter toy_backends) :=
  @Build_DocumentChunker (with_markdown_splitter toy_backends)
    ".md" (map input_file parsed) "docling-models" (fun _ => parsed)
    4096 words char_tokenizer.

(** ** What one document contributes *)

(** The raw chunks of a conversion result: those of the hybrid chunker,
    none when it raises. *)
Definition raw_chunks `{Backends} (self : DocumentChunker)
    (cr : ConversionResult DoclingDocument) : list string :=
  match hybrid_chunk (tokenizer self) 500 (document cr) with
  | Ok chunks => chunks
  | Raise _ => []
  end.

(** What the chunking of a conversion result adds to the log. *)
Definition chunking_errors `{Backends} (self : DocumentChunker)
    (cr : ConversionResult DoclingDocument) : list log_record :=
  match hybrid_chunk (tokenizer self) 500 (document cr) with
  | Ok _ => []
  | Raise e => [ErrorChunkingDocument (input_file cr) e]
  end.

(** The final chunks of a list of raw chunks, under the threshold [thr]
    and the character budget [chunk_size]. *)
Definition resplit_fused `{Backends} (self : DocumentChunker) (thr : Z)
    (chunk_size : Z) (chunks : list string) : list string :=
  match fuse_texts self chunks thr with
  | Ok fused_texts => chunk_markdowns fused_texts chunk_size
  | Raise _ => []
  end.

Definition set_status {D : Type} (st : ConversionStatus)
    (cr : ConversionResult D) : ConversionResult D :=
  {| input_file := input_file cr; status := st; document := document cr |}.

Definition count_status {D : Type} (keep : ConversionStatus -> bool)
    (docs : list (ConversionResult D)) : Z :=
  Z.of_nat (List.length (filter (fun d => keep (status d)) docs)).

Definition is_chunking_error (r : log_record) : Prop :=
  match r with
  | ErrorChunkingDocument _ _ => True
  | _ => False
  end.

(** A path whose extension is one of the supported file types. *)
Definition supported (p : Path) : Prop := In (suffix p) SUPPORTED_FILETYPES.

(** ** Occurrences of the clean-up patterns *)

(** What follows the leading run of [c], when that is a pipe. *)
Definition pipe_after_run (c : ascii) (s : string) : option string :=
  match snd (span_run c s) with
  | String p rest => if Ascii.eqb p pipe then Some rest else None
  | EmptyString => None
  end.

(** [s] starts with two [d] and a pipe. *)
Definition starts_run_pipe (d : ascii) (s : string) : bool :=
  match s with
  | String a (String b (String p _)) =>
      Ascii.eqb a d && Ascii.eqb b d && Ascii.eqb p pipe
  | _ => false
  end.

(** Somewhere in [s], two [d] are immediately followed by a pipe: the
    pattern [d{2,}\|] matches somewhere. *)
Fixpoint has_run_pipe (d : ascii) (s : string) : bool :=
  match s with
  | EmptyString => false
  | String _ s' => starts_run_pipe d s || has_run_pipe d s'
  end.

(** ** Reading the dictionary of [split_docs_by_filetype] *)

(** [document_dict[filetype]], when the key is present. *)
Fixpoint dict_get (document_dict : list (string * list Path))
    (filetype : string) : option (list Path) :=
  match document_dict with
  | [] => None
  | (k, v) :: d' =>
      if String.eqb k filetype then Some v else dict_get d' filetype
  end.

(** The paths with a given extension, in their order. *)
Definition with_suffix (filetype : string) (paths : list Path) : list Path :=
  filter (fun p => String.eqb (suffix p) filetype) paths.

(** The artifacts path the converter is built over: the given one, or the
    one the download returns. *)
Definition resolved_model_path (docling_model_path : option string) : string :=
  match docling_model_path with
  | Some p => p
  | None => "docling-models"
  end.

(** The model and network activity of [_init_docling_converter]. *)
Definition converter_events (docling_model_path : option string)
    : list event :=
  match docling_model_path with
  | Some _ => [ProbeOcrBackends]
  | None => [DownloadDoclingModels; ProbeOcrBackends]
  end.

(** [toy_backends] with a tokenizer that cannot be loaded. *)
Definition toy_backends_without_tokenizer : Backends := {|
  DoclingDocument := @DoclingDocument toy_backends;
  convert_all := @convert_all toy_backends;
  load_tokenizer := fun _ => Raise (ValueError "no valid model");
  hybrid_chunk := @hybrid_chunk toy_backends;
  create_documents := @create_documents toy_backends;
  split_point := @split_point toy_backends;
  export_to_json := @export_to_json toy_backends;
  export_to_markdown := @export_to_markdown toy_backends
|}.

(** ** What fusion keeps true of its groups *)

(** The texts merged into a group are at or below the threshold and
    follow a non-empty opener. *)
Definition merged_ok `{Backends} (self : DocumentChunker) (thr : Z)
    (groups : list (list string)) : Prop :=
  forall G1 t ts G2,
    groups = G1 ++ (t :: ts) :: G2 ->
    Forall (fun x => get_token_count x (tokenizer self) <= thr) ts
    /\ (ts <> [] -> t <> "").

(** A group after another is opened by a text above the threshold, unless
    the group before it was opened by the empty string. *)
Definition opened_ok `{Backends} (self : DocumentChunker) (thr : Z)
    (groups : list (list string)) : Prop :=
  forall G1 g1 t ts G2,
    groups = G1 ++ g1 :: (t :: ts) :: G2 ->
    thr < get_token_count t (tokenizer self) \/ hd "" g1 = "".

(** ** Reading a text through a character filter *)

(** The characters of [s] that [keep] accepts, in their order. *)
Fixpoint keep_chars (keep : ascii -> bool) (s : string) : string :=
  match s with
  | EmptyString => EmptyString
  | String a s' =>
      if keep a then String a (keep_chars keep s') else keep_chars keep s'
  end.

(** Everything but dashes and spaces. *)
Definition not_dash_or_space (a : ascii) : bool :=
  negb (Ascii.eqb a dash || Ascii.eqb a space).

(** ** Files and word counts for concrete runs *)

(** [toy_chunker] with a given word count. *)
Definition toy_chunker_words (words : Z)
    (parsed : list (ConversionResult (@DoclingDocument toy_backends)))
    : @DocumentChunker toy_backends :=
  {| document_filetype := ".md";
     document_paths := map input_file parsed;
     docling_model_path := "docling-models";
     converter := fun _ => parsed;
     server_ctx_size := 4096;
     chunk_word_count := words;
     tokenizer := char_tokenizer |}.

(** The two files [export_documents] writes for a converted document. *)
Definition exported_files `{Backends}
    (doc : ConversionResult DoclingDocument) : list fs_write :=
  let base :=
    (docling_artifacts_path ++ "/" ++ stem (input_file doc))%string in
  [WriteFile (base ++ ".json")%string (export_to_json (document doc));
   WriteFile (base ++ ".md")%string (export_to_markdown (document doc))].

(** The content of a file after a sequence of writes, each opening the
    file with mode ["w"]: that of the last write to it. *)
Fixpoint file_content (files : list fs_write) (name : string)
    : option string :=
  match files with
  | [] => None
  | WriteFile n content :: rest =>
      match file_content rest name with
      | Some later => Some later
      | None => if String.eqb n name then Some content else None
      end
  end.

(** ** The character budget of a word count *)

(** The [chunk_size] that [chunk_documents] derives from a word count. *)
Definition char_budget (words : Z) : result Z :=
  let* num_tokens_per_doc := _num_tokens_from_words words in
  Ok (_num_chars_from_tokens num_tokens_per_doc).

(** * The knowledge leaf node of [taxonomy.py]

    The seed data of a leaf node is what the YAML loader returned, so the
    values are Python objects of any shape: [None], booleans, integers,
    strings, lists, and dictionaries with string keys, their entries in
    insertion order. *)

From Stdlib Require DecimalString DecimalNat.

Module taxonomy.

#[warnings="-register-all"]
Inductive pyobj : Type :=
| PNone
| PBool (b : bool)
| PInt (z : Z)
| PStr (s : string)
| PList (items : list pyobj)
| PDict (entries : list (string * pyobj)).

Inductive pyexn : Type :=
| KeyError (key : string)
| TypeError
| AttributeError
| AssertionError.

Inductive outcome (A : Type) : Type :=
| Return (a : A)
| Throw (e : pyexn).

Arguments Return {A} a.
Arguments Throw {A} e.

Definition obind {A B : Type} (r : outcome A) (k : A -> outcome B)
    : outcome B :=
  match r with
  | Return a => k a
  | Throw e => Throw e
  end.

Notation "'let+' x ':=' r 'in' k" := (obind r (fun x => k))
  (at level 10, x pattern, r at level 100, k at level 200).

(** ** Operations on Python objects *)

(** The value stored under a key of a dictionary. *)
Fixpoint lookup (entries : list (string * pyobj)) (key : string)
    : option pyobj :=
  match entries with
  | [] => None
  | (k, v) :: rest => if String.eqb k key then Some v else lookup rest key
  end.

(** [entries[key] = value]: the value of a present key is replaced in
    place, a new key is added at the end. *)
Fixpoint store (entries : list (string * pyobj)) (key : string)
    (value : pyobj) : list (string * pyobj) :=
  match entries with
  | [] => [(key, value)]
  | (k, v) :: rest =>
      if String.eqb k key then (k, value) :: rest
      else (k, v) :: store rest key value
  end.

(** [o[key]] for a string key: [KeyError] on a dictionary without the
    key, [TypeError] on everything that is not a dictionary. *)
Definition getitem (o : pyobj) (key : string) : outcome pyobj :=
  match o with
  | PDict entries =>
      match lookup entries key with
      | Some v => Return v
      | None => Throw (KeyError key)
      end
  | _ => Throw TypeError
  end.

(** The elements a [for] loop over [o] visits: the items of a list, the
    keys of a dictionary, the characters of a string; [TypeError] on
    objects that are not iterable. *)
Definition iterate (o : pyobj) : outcome (list pyobj) :=
  match o with
  | PList items => Return items
  | PDict entries => Return (map (fun kv => PStr (fst kv)) entries)
  | PStr s =>
      Return (map (fun c => PStr (String c EmptyString))
                (list_ascii_of_string s))
  | _ => Throw TypeError
  end.

(** Truth value of an object. *)
Definition truth (o : pyobj) : bool :=
  match o with
  | PNone => false
  | PBool b => b
  | PInt z => negb (z =? 0)
  | PStr s => truthy s
  | PList items => match items with [] => false | _ => true end
  | PDict entries => match entries with [] => false | _ => true end
  end.

(** [isinstance(o, str)]. *)
Definition is_str (o : pyobj) : bool :=
  match o with
  | PStr _ => true
  | _ => false
  end.

(** The [assert] statement. *)
Definition assert (condition : bool) : outcome unit :=
  if condition then Return tt else Throw AssertionError.

(** A [for] loop whose body only checks. *)
Fixpoint for_each {A : Type} (body : A -> outcome unit) (l : list A)
    : outcome unit :=
  match l with
  | [] => Return tt
  | x :: rest => let+ _ := body x in for_each body rest
  end.

(** [str(n)] for a natural number: its decimal digits. *)
Definition str_of_nat (n : nat) : string :=
  DecimalString.NilEmpty.string_of_uint (Nat.to_uint n).

(** ** [KnowledgeLeafNode] *)

Record KnowledgeLeafNode : Type := {
  path : Path;
  documents : list Path;
  document_outline : pyobj;
  domain : pyobj;
  seed_data : pyobj
}.

(** The body of [for k in ("question", "answer")]: both asserts evaluate
    [qna[k]]. *)
Definition validate_key (qna : pyobj) (k : string) : outcome unit :=
  let+ v := getitem qna k in
  let+ _ := assert (truth v) in
  let+ v' := getitem qna k in
  assert (is_str v').

(** The body of [for icl in seed_data]. *)
Definition validate_icl (icl : pyobj) : outcome unit :=
  let+ context := getitem icl "context" in
  let+ _ := assert (is_str context) in
  let+ questions_and_answers := getitem icl "questions_and_answers" in
  let+ qnas := iterate questions_and_answers in
  for_each (fun qna => for_each (validate_key qna) ["question"; "answer"])
    qnas.

Definition _validate_seed_data (seed_data : pyobj) : outcome pyobj :=
  let+ icls := iterate seed_data in
  let+ _ := for_each validate_icl icls in
  Return seed_data.

Definition __init__ (path : Path) (documents : list Path)
    (document_outline domain seed_data : pyobj)
    : outcome KnowledgeLeafNode :=
  let+ validated := _validate_seed_data seed_data in
  Return {| path := path;
            documents := documents;
            document_outline := document_outline;
            domain := domain;
            seed_data := validated |}.

(** The [for i, qna in enumerate(...)] loop: [record.update] with the
    two keys numbered [i + 1]. *)
Fixpoint update_loop (record : list (string * pyobj)) (i : nat)
    (qnas : list pyobj) : outcome (list (string * pyobj)) :=
  match qnas with
  | [] => Return record
  | qna :: rest =>
      let+ question := getitem qna "question" in
      let+ answer := getitem qna "answer" in
      update_loop
        (store
           (store record ("icl_query_" ++ str_of_nat (i + 1))%string
              question)
           ("icl_response_" ++ str_of_nat (i + 1))%string answer)
        (S i) rest
  end.

(** The record built for one chunk and one seed example. *)
Definition make_record (self : KnowledgeLeafNode) (chunk icl : pyobj)
    : outcome (list (string * pyobj)) :=
  let+ context := getitem icl "context" in
  let record :=
    [("document", chunk);
     ("icl_document", context);
     ("document_outline", document_outline self);
     ("domain", domain self);
     ("leaf_node_type", PStr "knowledge");
     ("leaf_node_path", PStr (path_str (path self)))] in
  let+ questions_and_answers := getitem icl "questions_and_answers" in
  let+ qnas := iterate questions_and_answers in
  update_loop record 0 qnas.

(** The [for icl in self.seed_data] loop. *)
Fixpoint icl_loop (self : KnowledgeLeafNode) (chunk : pyobj)
    (icls : list pyobj) (chunked_dataset : list (list (string * pyobj)))
    : outcome (list (list (string * pyobj))) :=
  match icls with
  | [] => Return chunked_dataset
  | icl :: rest =>
      let+ record := make_record self chunk icl in
      icl_loop self chunk rest (chunked_dataset ++ [record])
  end.

(** The [for chunk in document_chunks] loop. *)
Fixpoint chunk_loop (self : KnowledgeLeafNode) (document_chunks : list pyobj)
    (chunked_dataset : list (list (string * pyobj)))
    : outcome (list (list (string * pyobj))) :=
  match document_chunks with
  | [] => Return chunked_dataset
  | chunk :: rest =>
      let+ icls := iterate (seed_data self) in
      let+ chunked_dataset' := icl_loop self chunk icls chunked_dataset in
      chunk_loop self rest chunked_dataset'
  end.

Definition to_samples (self : KnowledgeLeafNode)
    (document_chunks : list pyobj)
    : outcome (list (list (string * pyobj))) :=
  chunk_loop self document_chunks [].

(** ** Well-formed seed data *)

Definition nonempty_str (o : pyobj) : bool :=
  match o with
  | PStr s => truthy s
  | _ => false
  end.

(** A question-and-answer pair: a dictionary with a non-empty string
    under ["question"] and under ["answer"]. *)
Definition qna_ok (qna : pyobj) : bool :=
  match qna with
  | PDict entries =>
      match lookup entries "question", lookup entries "answer" with
      | Some question, Some answer =>
          nonempty_str question && nonempty_str answer
      | _, _ => false
      end
  | _ => false
  end.

(** A seed example: a dictionary with a string under ["context"] and,
    under ["questions_and_answers"], an iterable of well-formed pairs. *)
Definition icl_ok (icl : pyobj) : bool :=
  match icl with
  | PDict entries =>
      match lookup entries "context",
            lookup entries "questions_and_answers" with
      | Some (PStr _), Some questions_and_answers =>
          match iterate questions_and_answers with
          | Return qnas => forallb qna_ok qnas
          | Throw _ => false
          end
      | _, _ => false
      end
  | _ => false
  end.

Definition seed_data_ok (seed_data : pyobj) : bool :=
  match iterate seed_data with
  | Return icls => forallb icl_ok icls
  | Throw _ => false
  end.

(** The entries that the pairs add to a record, numbered from [i + 1]. *)
Fixpoint qna_entries (i : nat) (pairs : list (pyobj * pyobj))
    : list (string * pyobj) :=
  match pairs with
  | [] => []
  | (question, answer) :: rest =>
      (("icl_query_" ++ str_of_nat (i + 1))%string, question)
      :: (("icl_response_" ++ str_of_nat (i + 1))%string, answer)
      :: qna_entries (S i) rest
  end.

(** The question and the answer of each pair of a list of well-formed
    pairs. *)
Definition read_pairs (qnas : list pyobj) (pairs : list (pyobj * pyobj))
    : Prop :=
  Forall2 (fun qna qa =>
             getitem qna "question" = Return (fst qa)
             /\ getitem qna "answer" = Return (snd qa)
             /\ nonempty_str (fst qa) = true
             /\ nonempty_str (snd qa) = true) qnas pairs.

(** The six entries of the dictionary literal of [to_samples]. *)
Definition literal_entries (self : KnowledgeLeafNode) (chunk context : pyobj)
    : list (string * pyobj) :=
  [("document", chunk);
   ("icl_document", context);
   ("document_outline", document_outline self);
   ("domain", domain self);
   ("leaf_node_type", PStr "knowledge");
   ("leaf_node_path", PStr (path_str (path self)))].

(** A seed example with one pair, and a node over it. *)
Definition toy_icl : pyobj :=
  PDict [("questions_and_answers",
          PList [PDict [("question", PStr "Who?");
                        ("answer", PStr "They.")]]);
         ("context", PStr "Some context.")].

Definition toy_seed_data : pyobj := PList [toy_icl].

Definition toy_node : KnowledgeLeafNode :=
  {| path := {| path_str := "knowledge/qna.yaml";
                stem := "qna"; suffix := ".yaml" |};
     documents := [];
     document_outline := PStr "An outline";
     domain := PStr "A domain";
     seed_data := toy_seed_data |}.

End taxonomy.

(** * Reading a [qna.yaml]: [data_ingest.py]

    [_read_qna_file] opens the file and parses it with [yaml.safe_load];
    the model starts from the parsed [contents]. *)

Module data_ingest.
Import taxonomy.

(** [o.get(key, default)]: only dictionaries have the method. *)
Definition get (o : pyobj) (key : string) (default : pyobj)
    : outcome pyobj :=
  match o with
  | PDict entries =>
      match lookup entries key with
      | Some v => Return v
      | None => Return default
      end
  | _ => Throw AttributeError
  end.

(** Whether [needle] occurs in [s] as a substring. *)
Fixpoint occurs (needle s : string) : bool :=
  String.prefix needle s
  || match s with
     | EmptyString => false
     | String _ s' => occurs needle s'
     end.

(** [key in o] for a string [key]: a key of a dictionary, an item of a
    list, a substring of a string; [TypeError] on the other objects. *)
Definition contains (o : pyobj) (key : string) : outcome bool :=
  match o with
  | PDict entries =>
      Return (match lookup entries key with Some _ => true | None => false end)
  | PList items =>
      Return (existsb (fun x => match x with
                                | PStr s => String.eqb s key
                                | _ => false
                                end) items)
  | PStr s => Return (occurs key s)
  | _ => Throw TypeError
  end.

(** The [for seed_example in contents.get("seed_examples")] loop. *)
Fixpoint seed_loop (seed_examples : list pyobj) (seed_data : list pyobj)
    : outcome (list pyobj) :=
  match seed_examples with
  | [] => Return seed_data
  | seed_example :: rest =>
      let+ present := contains seed_example "questions_and_answers" in
      let+ _ := assert present in
      let+ questions_and_answers :=
        get seed_example "questions_and_answers" PNone in
      let+ context := get seed_example "context" (PStr "") in
      seed_loop rest
        (seed_data
         ++ [PDict [("questions_and_answers", questions_and_answers);
                    ("context", context)]])
  end.

Definition _read_qna_file (contents : pyobj)
    : outcome (pyobj * pyobj * pyobj * pyobj) :=
  let+ task_description := get contents "task_description" PNone in
  let+ document_outline := get contents "document_outline" PNone in
  let+ domain := get contents "domain" PNone in
  let+ seed_examples := get contents "seed_examples" PNone in
  let+ examples := iterate seed_examples in
  let+ seed_data := seed_loop examples [] in
  Return (task_description, document_outline, domain, PList seed_data).

(** The tail of [ingest_knowledge_directory]: the node built from the
    parsed [qna.yaml] and the other files of the directory. *)
Definition knowledge_node (qna_file : Path) (documents : list Path)
    (contents : pyobj) : outcome KnowledgeLeafNode :=
  match _read_qna_file contents with
  | Return (_, document_outline, domain, seed_data) =>
      __init__ qna_file documents document_outline domain seed_data
  | Throw e => Throw e
  end.

(** The value under a key of a dictionary, or a default. *)
Definition field (entries : list (string * pyobj)) (key : string)
    (default : pyobj) : pyobj :=
  match lookup entries key with
  | Some v => v
  | None => default
  end.

(** What a seed example contributes to the seed data: it must be a
    dictionary with the key ["questions_and_answers"]; only that key and
    ["context"] are kept, and a missing context is the empty string. *)
Definition seed_entry (seed_example : pyobj) : option pyobj :=
  match seed_example with
  | PDict entries =>
      match lookup entries "questions_and_answers" with
      | Some questions_and_answers =>
          Some (PDict [("questions_and_answers", questions_and_answers);
                       ("context", field entries "context" (PStr ""))])
      | None => None
      end
  | _ => None
  end.

(** A parsed [qna.yaml] with one seed example that has no context. *)
Definition toy_contents : pyobj :=
  PDict [("domain", PStr "A domain");
         ("document_outline", PStr "An outline");
         ("seed_examples",
          PList [PDict [("questions_and_answers",
                         PList [PDict [("question", PStr "Who?");
                                       ("answer", PStr "They.")]])]])].

(** The node that [toy_contents] gives for two document paths. *)
Definition toy_qna_file : Path :=
  {| path_str := "knowledge/qna.yaml"; stem := "qna"; suffix := ".yaml" |}.

Definition toy_ingested : KnowledgeLeafNode :=
  {| path := toy_qna_file;
     documents := [];
     document_outline := PStr "An outline";
     domain := PStr "A domain";
     seed_data :=
       PList [PDict [("questions_and_answers",
                      PList [PDict [("question", PStr "Who?");
                                    ("answer", PStr "They.")]]);
                     ("context", PStr "")]] |}.

End data_ingest.

(** * Properties *)

(** ** Lists and strings *)

Lemma string_app_empty_r (s : string) : (s ++ "")%string = s.
Proof. induction s as [|a s IH]; simpl; [reflexivity | now rewrite IH]. Qed.

Lemma string_app_assoc (s t u : string) :
  ((s ++ t) ++ u)%string = (s ++ t ++ u)%string.
Proof. induction s as [|a s IH]; simpl; [reflexivity | now rewrite IH]. Qed.

Lemma iadd_last_snoc (l : list string) (x s : string) :
  iadd_last (l ++ [x]) s = Some (l ++ [(x ++ s)%string]).
Proof.
  induction l as [|y l IH]; simpl; [reflexivity|].
  rewrite IH. destruct (l ++ [x]) eqn:E; [|reflexivity].
  apply app_eq_nil in E. destruct E as [_ E]. discriminate.
Qed.

Lemma concat_sep_cons (sep x : string) (l : list string) :
  l <> [] ->
  String.concat sep (x :: l) = (x ++ sep ++ String.concat sep l)%string.
Proof. destruct l; [congruence | reflexivity]. Qed.

Lemma concat_sep_app (sep : string) (l1 l2 : list string) :
  l1 <> [] -> l2 <> [] ->
  String.concat sep (l1 ++ l2)
  = (String.concat sep l1 ++ sep ++ String.concat sep l2)%string.
Proof.
  intros H1 H2. induction l1 as [|x l1 IH]; [congruence|].
  destruct l1 as [|y l1].
  - simpl app. now rewrite concat_sep_cons.
  - change ((x :: y :: l1) ++ l2) with (x :: ((y :: l1) ++ l2)).
    rewrite concat_sep_cons by discriminate.
    rewrite IH by discriminate.
    rewrite (concat_sep_cons sep x (y :: l1)) by discriminate.
    now rewrite !string_app_assoc.
Qed.

Lemma join_snoc (g : list string) (text : string) :
  g <> [] -> join (g ++ [text]) = (join g ++ blank_line ++ text)%string.
Proof. intros Hg. unfold join. now rewrite concat_sep_app by congruence. Qed.

(** Joining the joined groups is joining the whole list. *)
Lemma join_groups (groups : list (list string)) :
  Forall (fun g => g <> []) groups ->
  join (map join groups) = join (List.concat groups).
Proof.
  induction 1 as [|g groups Hg Hall IH]; [reflexivity|].
  destruct groups as [|g' groups].
  - simpl. now rewrite app_nil_r.
  - change (map join (g :: g' :: groups))
      with (join g :: map join (g' :: groups)).
    unfold join at 1. rewrite concat_sep_cons by discriminate.
    fold (join (map join (g' :: groups))). rewrite IH.
    change (List.concat (g :: g' :: groups))
      with (g ++ List.concat (g' :: groups)).
    unfold join. rewrite concat_sep_app; [reflexivity | assumption |].
    inversion Hall as [|? ? Hg' _]; subst. simpl.
    destruct g'; [congruence | discriminate].
Qed.

(** ** Fusion *)

Section Fusion.
Context `{Backends}.
Variable self : DocumentChunker.
Variable thr : Z.

Lemma starter_snoc (G : list (list string)) (g : list string) :
  starter (G ++ [g]) = match g with [] => "" | text :: _ => text end.
Proof. unfold starter. now rewrite last_last. Qed.

Lemma truthy_starter (groups : list (list string)) :
  truthy (starter groups) = true ->
  exists G g, groups = G ++ [g] /\ g <> [].
Proof.
  destruct groups as [|g groups _] using rev_ind; [discriminate|].
  rewrite starter_snoc.
  destruct g as [|text g]; [discriminate|]. intros _.
  exists groups, (text :: g). split; [reflexivity | discriminate].
Qed.

Lemma group_step_merge (G : list (list string)) (g : list string)
    (text : string) :
  (get_token_count text (tokenizer self) <=? thr) && truthy (starter (G ++ [g]))
  = true ->
  group_step self thr (G ++ [g]) text = G ++ [g ++ [text]].
Proof.
  intros Hc. unfold group_step. rewrite Hc.
  now rewrite removelast_last, last_last.
Qed.

Lemma group_step_open (groups : list (list string)) (text : string) :
  (get_token_count text (tokenizer self) <=? thr) && truthy (starter groups)
  = false ->
  group_step self thr groups text = groups ++ [[text]].
Proof. intros Hc. unfold group_step. now rewrite Hc. Qed.

Lemma group_step_nonempty (groups : list (list string)) (text : string) :
  Forall (fun g => g <> []) groups ->
  Forall (fun g => g <> []) (group_step self thr groups text).
Proof.
  intros Hne. unfold group_step.
  destruct (_ && _).
  - apply Forall_app. split.
    + destruct groups as [|g groups _] using rev_ind; [constructor|].
      rewrite removelast_last. apply Forall_app in Hne. tauto.
    + constructor; [|constructor]. destruct (last groups []); discriminate.
  - apply Forall_app. split; [assumption|].
    constructor; [discriminate | constructor].
Qed.

Lemma fuse_groups_nonempty (texts : list string) :
  forall groups,
    Forall (fun g => g <> []) groups ->
    Forall (fun g => g <> []) (fuse_groups self thr texts groups).
Proof.
  induction texts as [|text texts IH]; intros groups Hne; [assumption|].
  apply IH. now apply group_step_nonempty.
Qed.

(** The loop of [fuse_texts] computes the grouping, and never indexes an
    empty list. *)
Lemma fuse_loop_groups (texts : list string) :
  forall groups,
    Forall (fun g => g <> []) groups ->
    fuse_loop self thr texts (map join groups) (starter groups)
    = Ok (map join (fuse_groups self thr texts groups)).
Proof.
  induction texts as [|text texts IH]; intros groups Hne; [reflexivity|].
  simpl fuse_loop. unfold fuse_groups. simpl fold_left.
  fold (fuse_groups self thr texts (group_step self thr groups text)).
  destruct ((get_token_count text (tokenizer self) <=? thr)
            && truthy (starter groups)) eqn:Hc.
  - pose proof Hc as Hc'. apply andb_true_iff in Hc' as [_ Ht].
    destruct (truthy_starter _ Ht) as (G & g & -> & Hg).
    rewrite group_step_merge by assumption.
    rewrite map_app. simpl map. rewrite iadd_last_snoc.
    change (String LF (String LF text)) with (blank_line ++ text)%string.
    rewrite <- join_snoc by assumption.
    change [join (g ++ [text])] with (map join [g ++ [text]]).
    rewrite <- map_app.
    replace (starter (G ++ [g])) with (starter (G ++ [g ++ [text]])).
    + apply IH. apply Forall_app in Hne as [HG _].
      apply Forall_app. split; [assumption|].
      constructor; [|constructor]. destruct g; discriminate.
    + rewrite !starter_snoc. destruct g; [congruence | reflexivity].
  - rewrite group_step_open by assumption.
    replace (map join groups ++ [text]) with (map join (groups ++ [[text]]))
      by now rewrite map_app.
    pose proof (IH (groups ++ [[text]])) as IH'.
    rewrite starter_snoc in IH'.
    apply IH'. apply Forall_app. split; [assumption|].
    constructor; [discriminate | constructor].
Qed.

Lemma fuse_texts_groups (texts : list string) :
  fuse_texts self texts thr = Ok (map join (fuse_groups self thr texts [])).
Proof. apply (fuse_loop_groups texts []). constructor. Qed.

(** Groups only grow at the end: the groups already closed stay, the last
    one may take more texts, and new groups follow. *)
Lemma fuse_groups_grow (texts : list string) :
  forall G g,
    g <> [] ->
    exists g2 G2,
      fuse_groups self thr texts (G ++ [g]) = G ++ [g ++ g2] ++ G2
      /\ g2 ++ List.concat G2 = texts.
Proof.
  induction texts as [|text texts IH]; intros G g Hg.
  - exists [], []. simpl. now rewrite app_nil_r.
  - unfold fuse_groups. simpl fold_left.
    fold (fuse_groups self thr texts (group_step self thr (G ++ [g]) text)).
    destruct ((get_token_count text (tokenizer self) <=? thr)
              && truthy (starter (G ++ [g]))) eqn:Hc.
    + rewrite group_step_merge by assumption.
      destruct (IH G (g ++ [text])) as (g2 & G2 & Heq & Hcat).
      { destruct g; discriminate. }
      exists (text :: g2), G2. rewrite Heq, <- app_assoc. simpl.
      now rewrite Hcat.
    + rewrite group_step_open by assumption.
      destruct (IH (G ++ [g]) [text]) as (g2 & G2 & Heq & Hcat);
        [discriminate|].
      exists [], ((text :: g2) :: G2). rewrite Heq, app_nil_r.
      rewrite <- app_assoc. simpl. now rewrite Hcat.
Qed.

Lemma fuse_groups_first (text : string) (texts : list string) :
  fuse_groups self thr (text :: texts) [] = fuse_groups self thr texts [[text]].
Proof.
  unfold fuse_groups. simpl fold_left. unfold group_step at 2.
  simpl. now rewrite andb_false_r.
Qed.

Lemma fuse_groups_concat (texts : list string) :
  List.concat (fuse_groups self thr texts []) = texts.
Proof.
  destruct texts as [|text texts]; [reflexivity|].
  rewrite fuse_groups_first.
  destruct (fuse_groups_grow texts [] [text]) as (g2 & G2 & Heq & Hcat);
    [discriminate|].
  simpl in Heq. rewrite Heq. simpl. now rewrite Hcat.
Qed.

(** Once a non-empty text has opened the last group, every text at or
    below the threshold joins that group. *)
Lemma fuse_groups_all_short (texts : list string) :
  forall G g,
    truthy (starter (G ++ [g])) = true ->
    Forall (fun t => get_token_count t (tokenizer self) <= thr) texts ->
    fuse_groups self thr texts (G ++ [g]) = G ++ [g ++ texts].
Proof.
  induction texts as [|text texts IH]; intros G g Ht Hshort.
  - now rewrite app_nil_r.
  - inversion Hshort as [|? ? Htext Hrest]; subst.
    unfold fuse_groups. simpl fold_left.
    fold (fuse_groups self thr texts (group_step self thr (G ++ [g]) text)).
    rewrite group_step_merge.
    + rewrite IH; [now rewrite <- app_assoc | | assumption].
      rewrite starter_snoc in *. destruct g; [discriminate | assumption].
    + rewrite Ht, andb_true_r. now apply Z.leb_le.
Qed.

Lemma join_cons_tail (x : string) (g : list string) :
  exists tail, join (x :: g) = (x ++ tail)%string.
Proof.
  destruct g as [|y g].
  - exists "". simpl. now rewrite string_app_empty_r.
  - exists (blank_line ++ join (y :: g))%string. reflexivity.
Qed.

Lemma truthy_nonempty (s : string) : s <> "" -> truthy s = true.
Proof. destruct s; [congruence | reflexivity]. Qed.

End Fusion.

(** A long chunk, a short one, a long one: the short one joins the first. *)
Example fuse_long_short_long :
  fuse_texts (toy_chunker []) ["abc"; "d"; "efg"] 2
  = Ok [("abc" ++ blank_line ++ "d")%string; "efg"].
Proof. reflexivity. Qed.

Example fuse_nothing : fuse_texts (toy_chunker []) [] 130 = Ok [].
Proof. reflexivity. Qed.

(** C8. Fusion preserves order and content: the output of [fuse_texts] is
    the input cut into contiguous non-empty groups, in the original order,
    each group joined with blank lines; joining the output with blank
    lines gives the same string as joining the input. *)
Theorem fuse_texts_partition `{Backends} (self : DocumentChunker)
    (L : list string) (thr : Z) :
  exists groups : list (list string),
    fuse_texts self L thr = Ok (map join groups)
    /\ List.concat groups = L
    /\ Forall (fun g => g <> []) groups
    /\ join (map join groups) = join L.
Proof.
  exists (fuse_groups self thr L []).
  assert (Hne : Forall (fun g : list string => g <> [])
                  (fuse_groups self thr L []))
    by (apply fuse_groups_nonempty; constructor).
  repeat split.
  - apply fuse_texts_groups.
  - apply fuse_groups_concat.
  - exact Hne.
  - rewrite join_groups by exact Hne. now rewrite fuse_groups_concat.
Qed.

(** C3, as stated, fails when the first chunk is the empty string: it
    leaves [previous_long_text] false, so the second chunk opens an entry
    of its own. *)
Lemma fuse_texts_all_short_counterexample :
  ~ (forall (B : Backends) (self : DocumentChunker) (thr : Z)
       (L : list string),
       L <> [] ->
       Forall (fun t => get_token_count t (tokenizer self) < thr) L ->
       fuse_texts self L thr = Ok [join L]).
Proof.
  intros Hclaim.
  specialize (Hclaim toy_backends (toy_chunker []) 130 [""; "b"]).
  assert (Hne : [""; "b"] <> []) by discriminate.
  assert (Hshort : Forall (fun t =>
            get_token_count t (tokenizer (toy_chunker [])) < 130) [""; "b"])
    by (repeat constructor).
  specialize (Hclaim Hne Hshort). discriminate Hclaim.
Qed.

(** C3, amended. For every chunk list whose first chunk is a non-empty
    string and in which every chunk's token count is below the threshold,
    [fuse_texts] returns the one-element list holding the chunks joined by
    blank lines, in the original order. *)
Theorem fuse_texts_all_short `{Backends} (self : DocumentChunker)
    (thr : Z) (c : string) (rest : list string) :
  c <> "" ->
  Forall (fun t => get_token_count t (tokenizer self) < thr) (c :: rest) ->
  fuse_texts self (c :: rest) thr = Ok [join (c :: rest)].
Proof.
  intros Hc Hshort. rewrite fuse_texts_groups, fuse_groups_first.
  pose proof (fuse_groups_all_short self thr rest [] [c]) as Hall.
  simpl in Hall. rewrite Hall.
  - reflexivity.
  - now apply truthy_nonempty.
  - inversion Hshort as [|? ? _ Hrest]; subst.
    eapply Forall_impl; [|exact Hrest]. simpl. intros; lia.
Qed.

Lemma fuse_texts_all_short_witness :
  "a" <> ""
  /\ Forall (fun t => get_token_count t (tokenizer (toy_chunker [])) < 130)
       ["a"; "b"; "c"]
  /\ fuse_texts (toy_chunker []) ["a"; "b"; "c"] 130
     = Ok [join ["a"; "b"; "c"]].
Proof.
  assert (Hc : "a" <> "") by discriminate.
  assert (Hshort : Forall (fun t =>
            get_token_count t (tokenizer (toy_chunker [])) < 130)
            ["a"; "b"; "c"])
    by (repeat constructor).
  split; [exact Hc | split; [exact Hshort |]].
  exact (fuse_texts_all_short (toy_chunker []) 130 "a" ["b"; "c"] Hc Hshort).
Defined.

(** C2, as stated, fails: a short first chunk that is not empty is the
    merge target of the short chunk that follows it. *)
Lemma fuse_texts_short_first_counterexample :
  ~ (forall (B : Backends) (self : DocumentChunker) (thr : Z)
       (c d : string),
       get_token_count c (tokenizer self) <= thr ->
       get_token_count d (tokenizer self) <= thr ->
       fuse_texts self [c; d] thr = Ok [c; d]).
Proof.
  intros Hclaim.
  specialize (Hclaim toy_backends (toy_chunker []) 130 "a" "b").
  assert (Ha : get_token_count "a" (tokenizer (toy_chunker [])) <= 130)
    by (vm_compute; discriminate).
  assert (Hb : get_token_count "b" (tokenizer (toy_chunker [])) <= 130)
    by (vm_compute; discriminate).
  specialize (Hclaim Ha Hb). discriminate Hclaim.
Qed.

(** C2, amended. The first chunk always opens the first output entry.
    When it is a non-empty string it is a merge target whatever its token
    count: a second chunk at or below the threshold is appended to it
    after a blank line. A second chunk opens an entry of its own when it
    exceeds the threshold or the first chunk is the empty string. *)
Theorem fuse_texts_first_chunk `{Backends} (self : DocumentChunker)
    (thr : Z) (c d : string) (rest : list string) :
  (exists tail more,
      fuse_texts self (c :: rest) thr = Ok ((c ++ tail)%string :: more))
  /\ (c <> "" ->
      get_token_count d (tokenizer self) <= thr ->
      exists tail more,
        fuse_texts self (c :: d :: rest) thr
        = Ok ((c ++ blank_line ++ d ++ tail)%string :: more))
  /\ (c = "" \/ thr < get_token_count d (tokenizer self) ->
      exists tail more,
        fuse_texts self (c :: d :: rest) thr
        = Ok (c :: (d ++ tail)%string :: more)).
Proof.
  split; [|split].
  - rewrite fuse_texts_groups, fuse_groups_first.
    destruct (fuse_groups_grow self thr rest [] [c]) as (g2 & G2 & Heq & _);
      [discriminate|].
    cbn [app] in Heq. rewrite Heq. cbn [map].
    destruct (join_cons_tail c g2) as [tail Htail].
    exists tail, (map join G2). now rewrite Htail.
  - intros Hc Hd. rewrite fuse_texts_groups, fuse_groups_first.
    unfold fuse_groups. simpl fold_left.
    fold (fuse_groups self thr rest (group_step self thr [[c]] d)).
    pose proof (group_step_merge self thr [] [c] d) as Hstep.
    simpl in Hstep. rewrite Hstep.
    + destruct (fuse_groups_grow self thr rest [] [c; d])
        as (g2 & G2 & Heq & _); [discriminate|].
      cbn [app] in Heq. rewrite Heq. cbn [map].
      destruct (join_cons_tail d g2) as [tail Htail].
      exists tail, (map join G2).
      change (join (c :: d :: g2))
        with (c ++ blank_line ++ join (d :: g2))%string.
      now rewrite Htail.
    + change (starter [[c]]) with c.
      rewrite (truthy_nonempty c Hc), andb_true_r. now apply Z.leb_le.
  - intros Hor. rewrite fuse_texts_groups, fuse_groups_first.
    unfold fuse_groups. simpl fold_left.
    fold (fuse_groups self thr rest (group_step self thr [[c]] d)).
    rewrite (group_step_open self thr [[c]] d).
    + destruct (fuse_groups_grow self thr rest [[c]] [d])
        as (g2 & G2 & Heq & _); [discriminate|].
      cbn [app] in Heq |- *. rewrite Heq. cbn [map].
      destruct (join_cons_tail d g2) as [tail Htail].
      exists tail, (map join G2). now rewrite Htail.
    + change (starter [[c]]) with c.
      destruct Hor as [-> | Hd].
      * apply andb_false_r.
      * apply andb_false_iff. left. apply Z.leb_gt. exact Hd.
Qed.

Lemma fuse_texts_first_chunk_witness :
  "a" <> ""
  /\ get_token_count "b" (tokenizer (toy_chunker [])) <= 1
  /\ exists tail more,
       fuse_texts (toy_chunker []) ["a"; "b"; "cd"] 1
       = Ok (("a" ++ blank_line ++ "b" ++ tail)%string :: more).
Proof.
  assert (Hc : "a" <> "") by discriminate.
  assert (Hd : get_token_count "b" (tokenizer (toy_chunker [])) <= 1)
    by (vm_compute; discriminate).
  split; [exact Hc | split; [exact Hd |]].
  exact (proj1 (proj2
           (fuse_texts_first_chunk (toy_chunker []) 1 "a" "b" ["cd"]))
           Hc Hd).
Defined.

(** ** Markdown clean-up *)

Lemma re_sub_run_cons (c a : ascii) (s' : string) :
  re_sub_run c (String a s')
  = match match_run c (String a s') with
    | Some rest => String c (String pipe (re_sub_run c rest))
    | None => String a (re_sub_run c s')
    end.
Proof.
  simp re_sub_run.
  destruct (inspect (match_run c (String a s'))) as [[rest|] e].
  all: simp re_sub_run; rewrite e; reflexivity.
Qed.

Example clean_three_dashes : clean_markdown "---|" = "-|".
Proof. reflexivity. Qed.

Example clean_table_row :
  clean_markdown "| a   | b--|--- | -|" = "| a | b-|--- | -|".
Proof. reflexivity. Qed.

Section Cleanup.
Variable c : ascii.
Hypothesis c_not_pipe : c <> pipe.

Lemma match_run_other (a : ascii) (s : string) :
  a <> c -> match_run c (String a s) = None.
Proof.
  intros Ha. unfold match_run. simpl.
  apply Ascii.eqb_neq in Ha. now rewrite Ha.
Qed.

Lemma match_run_one (b : ascii) (s : string) :
  b <> c -> match_run c (String c (String b s)) = None.
Proof.
  intros Hb. unfold match_run. simpl.
  apply Ascii.eqb_neq in Hb. now rewrite Ascii.eqb_refl, Hb.
Qed.

Lemma match_run_end : match_run c (String c EmptyString) = None.
Proof. unfold match_run. simpl. now rewrite Ascii.eqb_refl. Qed.

Lemma match_run_two (s : string) :
  match_run c (String c (String c s)) = pipe_after_run c s.
Proof.
  unfold match_run, pipe_after_run. simpl. rewrite !Ascii.eqb_refl.
  destruct (span_run c s) as [k rest]. reflexivity.
Qed.

Lemma pipe_after_run_same (s : string) :
  pipe_after_run c (String c s) = pipe_after_run c s.
Proof.
  unfold pipe_after_run. simpl. rewrite Ascii.eqb_refl.
  destruct (span_run c s) as [k rest]. reflexivity.
Qed.

Lemma pipe_after_run_other (a : ascii) (s : string) :
  a <> c ->
  pipe_after_run c (String a s) = if Ascii.eqb a pipe then Some s else None.
Proof.
  intros Ha. unfold pipe_after_run. simpl.
  apply Ascii.eqb_neq in Ha. now rewrite Ha.
Qed.

Lemma match_run_head (a : ascii) (s rest : string) :
  match_run c (String a s) = Some rest -> a = c.
Proof.
  intros Hm. destruct (Ascii.ascii_dec a c) as [|Ha]; [assumption|].
  rewrite match_run_other in Hm by assumption. discriminate.
Qed.

Lemma match_run_longer (s rest : string) :
  match_run c s = Some rest -> match_run c (String c s) = Some rest.
Proof.
  destruct s as [|a s]; [discriminate|]. intros Hm.
  pose proof (match_run_head _ _ _ Hm) as ->.
  destruct s as [|b s]; [now rewrite match_run_end in Hm|].
  destruct (Ascii.ascii_dec b c) as [->|Hb].
  - rewrite match_run_two in *. now rewrite pipe_after_run_same.
  - now rewrite match_run_one in Hm.
Qed.

Lemma match_run_pipe (t : string) :
  match_run c (String c (String c (String pipe t))) = Some t.
Proof.
  rewrite match_run_two, pipe_after_run_other by congruence.
  now rewrite Ascii.eqb_refl.
Qed.

Lemma re_sub_run_head (a : ascii) (s : string) :
  exists t, re_sub_run c (String a s) = String a t.
Proof.
  rewrite re_sub_run_cons. destruct (match_run c (String a s)) eqn:Hm.
  - apply match_run_head in Hm as ->. eauto.
  - eauto.
Qed.

Lemma pipe_after_run_has (s rest : string) :
  pipe_after_run c s = Some rest ->
  has_run_pipe c (String c (String c s)) = true.
Proof.
  induction s as [|a s IH]; [discriminate|].
  destruct (Ascii.ascii_dec a c) as [->|Ha].
  - rewrite pipe_after_run_same. intros Hp.
    change (has_run_pipe c (String c (String c (String c s))))
      with (starts_run_pipe c (String c (String c (String c s)))
            || has_run_pipe c (String c (String c s))).
    rewrite (IH Hp). apply orb_true_r.
  - rewrite pipe_after_run_other by assumption.
    destruct (Ascii.eqb a pipe) eqn:Hap; [|discriminate]. intros _.
    simpl. now rewrite !Ascii.eqb_refl, Hap.
Qed.

Lemma match_run_has (s rest : string) :
  match_run c s = Some rest -> has_run_pipe c s = true.
Proof.
  destruct s as [|a s]; [discriminate|]. intros Hm.
  pose proof (match_run_head _ _ _ Hm) as ->.
  destruct s as [|b s]; [now rewrite match_run_end in Hm|].
  destruct (Ascii.ascii_dec b c) as [->|Hb].
  - rewrite match_run_two in Hm. eapply pipe_after_run_has; eassumption.
  - now rewrite match_run_one in Hm.
Qed.

(** Where the pattern matches nowhere, the substitution changes nothing. *)
Lemma re_sub_run_fixed (s : string) :
  has_run_pipe c s = false -> re_sub_run c s = s.
Proof.
  induction s as [|a s IH]; [reflexivity|]. intros Hno.
  rewrite re_sub_run_cons.
  destruct (match_run c (String a s)) eqn:Hm.
  - apply match_run_has in Hm. congruence.
  - change (has_run_pipe c (String a s))
      with (starts_run_pipe c (String a s) || has_run_pipe c s) in Hno.
    apply orb_false_iff in Hno as [_ Hno]. now rewrite IH.
Qed.

Lemma span_run_suffix (s : string) :
  exists p, s = (p ++ snd (span_run c s))%string.
Proof.
  induction s as [|a s [p IH]]; [now exists ""|].
  simpl. destruct (Ascii.eqb a c).
  - destruct (span_run c s) as [k rest]. simpl in *.
    exists (String a p). simpl. now rewrite <- IH.
  - now exists "".
Qed.

Lemma match_run_suffix (s rest : string) :
  match_run c s = Some rest -> exists p, s = (p ++ rest)%string.
Proof.
  unfold match_run. destruct (span_run_suffix s) as [p Hp].
  destruct (span_run c s) as [k r]. simpl in Hp.
  destruct (2 <=? k)%nat; [|discriminate].
  destruct r as [|q r]; [discriminate|].
  destruct (Ascii.eqb q pipe); [|discriminate]. intros [= <-].
  exists (p ++ String q "")%string. rewrite Hp.
  clear. induction p as [|x p IH]; simpl; [reflexivity | now rewrite IH].
Qed.

Lemma has_run_pipe_suffix (d : ascii) (p s : string) :
  has_run_pipe d (p ++ s) = false -> has_run_pipe d s = false.
Proof.
  induction p as [|x p IH]; [trivial|]. simpl append.
  change (has_run_pipe d (String x (p ++ s)))
    with (starts_run_pipe d (String x (p ++ s)) || has_run_pipe d (p ++ s)).
  intros Hno. apply orb_false_iff in Hno as [_ Hno]. auto.
Qed.

(** Output that starts with a character and a pipe comes from input that
    does, or from a match at the start. *)
Lemma re_sub_run_char_pipe (d : ascii) (s t : string) :
  re_sub_run c s = String d (String pipe t) ->
  (exists t', s = String d (String pipe t'))
  \/ (d = c /\ exists rest, match_run c s = Some rest).
Proof.
  destruct s as [|b s]; [simp re_sub_run; discriminate|].
  rewrite re_sub_run_cons.
  destruct (match_run c (String b s)) eqn:Hm.
  - intros [= <- _]. right. eauto.
  - intros [= -> Hs]. left.
    destruct s as [|x s]; [simp re_sub_run in Hs; discriminate|].
    destruct (re_sub_run_head x s) as [u Hu]. rewrite Hu in Hs.
    injection Hs as -> _. eauto.
Qed.

Lemma starts_run_pipe_inv (d a : ascii) (s : string) :
  starts_run_pipe d (String a s) = true ->
  a = d /\ exists t, s = String d (String pipe t).
Proof.
  destruct s as [|b [|p t]]; simpl; try discriminate.
  intros Hs. apply andb_true_iff in Hs as [Hs Hp].
  apply andb_true_iff in Hs as [Ha Hb].
  apply Ascii.eqb_eq in Ha, Hb, Hp. subst. eauto.
Qed.

Lemma starts_run_pipe_first (d a : ascii) (s : string) :
  a <> d -> starts_run_pipe d (String a s) = false.
Proof.
  intros Ha. destruct (starts_run_pipe d (String a s)) eqn:Hst; [|reflexivity].
  apply starts_run_pipe_inv in Hst as [-> _]. congruence.
Qed.

Lemma starts_run_pipe_second (d a b : ascii) (s : string) :
  b <> d -> starts_run_pipe d (String a (String b s)) = false.
Proof.
  intros Hb.
  destruct (starts_run_pipe d (String a (String b s))) eqn:Hst;
    [|reflexivity].
  apply starts_run_pipe_inv in Hst as [_ [t [= -> _]]]. congruence.
Qed.

(** The substitution for [c] leaves no run of [c] before a pipe, and
    creates no run of another character before a pipe. *)
Lemma re_sub_run_clears (d : ascii) (n : nat) :
  d <> pipe ->
  forall s,
    (String.length s <= n)%nat ->
    d = c \/ has_run_pipe d s = false ->
    has_run_pipe d (re_sub_run c s) = false.
Proof.
  intros Hd. induction n as [|n IH]; intros s Hlen Hor.
  - destruct s; [reflexivity | simpl in Hlen; lia].
  - destruct s as [|a s]; [reflexivity|].
    rewrite re_sub_run_cons.
    destruct (match_run c (String a s)) eqn:Hm.
    + assert (Hrest : has_run_pipe d (re_sub_run c s0) = false).
      { apply IH.
        - apply match_run_length in Hm. simpl in *. lia.
        - destruct Hor as [|Hno]; [now left | right].
          destruct (match_run_suffix _ _ Hm) as [p Hp].
          rewrite Hp in Hno. eapply has_run_pipe_suffix; eassumption. }
      cbn [has_run_pipe].
      rewrite starts_run_pipe_second, starts_run_pipe_first by congruence.
      exact Hrest.
    + assert (Hs : has_run_pipe d (re_sub_run c s) = false).
      { apply IH; [simpl in Hlen; lia|].
        destruct Hor as [|Hno]; [now left | right].
        change (has_run_pipe d (String a s))
          with (starts_run_pipe d (String a s) || has_run_pipe d s) in Hno.
        now apply orb_false_iff in Hno. }
      change (has_run_pipe d (String a (re_sub_run c s)))
        with (starts_run_pipe d (String a (re_sub_run c s))
              || has_run_pipe d (re_sub_run c s)).
      rewrite Hs, orb_false_r.
      destruct (starts_run_pipe d (String a (re_sub_run c s))) eqn:Hst;
        [|reflexivity].
      exfalso. apply starts_run_pipe_inv in Hst as [-> [t Ht]].
      apply re_sub_run_char_pipe in Ht as [[t' ->] | [-> [rest Hrest]]].
      * destruct Hor as [-> | Hno].
        -- rewrite match_run_pipe in Hm. discriminate.
        -- simpl in Hno. now rewrite !Ascii.eqb_refl in Hno.
      * apply match_run_longer in Hrest. congruence.
Qed.

End Cleanup.

Lemma dash_not_pipe : dash <> pipe. Proof. discriminate. Qed.
Lemma space_not_pipe : space <> pipe. Proof. discriminate. Qed.

(** C9. The markdown-table clean-up is idempotent: applying the two
    substitutions (runs of two or more dashes before a pipe to one dash,
    then runs of two or more spaces before a pipe to one space) twice gives
    the same string as applying them once. *)
Theorem clean_markdown_idempotent (s : string) :
  clean_markdown (clean_markdown s) = clean_markdown s.
Proof.
  unfold clean_markdown.
  set (t := re_sub_run space (re_sub_run dash s)).
  assert (Hdash : has_run_pipe dash t = false).
  { apply (re_sub_run_clears space space_not_pipe dash
             (String.length (re_sub_run dash s)) dash_not_pipe);
      [lia | right].
    apply (re_sub_run_clears dash dash_not_pipe dash (String.length s)
             dash_not_pipe); [lia | now left]. }
  assert (Hspace : has_run_pipe space t = false).
  { apply (re_sub_run_clears space space_not_pipe space
             (String.length (re_sub_run dash s)) space_not_pipe);
      [lia | now left]. }
  rewrite (re_sub_run_fixed dash t Hdash).
  apply (re_sub_run_fixed space t Hspace).
Qed.

(** ** Construction *)

Lemma supported_existsb (p : Path) :
  existsb (String.eqb (suffix p)) SUPPORTED_FILETYPES = true <-> supported p.
Proof.
  unfold supported. rewrite existsb_exists. split.
  - intros (x & Hin & Heq). apply String.eqb_eq in Heq. now subst.
  - intros Hin. exists (suffix p). split; [assumption | apply String.eqb_refl].
Qed.

Lemma split_docs_loop_cons (p : Path) (rest : list Path)
    (d : list (string * list Path)) :
  split_docs_loop (p :: rest) d
  = if negb (existsb (String.eqb (suffix p)) SUPPORTED_FILETYPES)
    then Raise (UnsupportedFileType (suffix p))
    else split_docs_loop rest (dict_append d (suffix p) p).
Proof. reflexivity. Qed.

Lemma split_docs_loop_unsupported (pre : list Path) (p : Path)
    (post : list Path) :
  Forall supported pre -> ~ supported p ->
  forall d,
    split_docs_loop (pre ++ p :: post) d
    = Raise (UnsupportedFileType (suffix p)).
Proof.
  intros Hpre Hp.
  induction Hpre as [|q pre Hq _ IH]; intros d; cbn [app];
    rewrite split_docs_loop_cons.
  - destruct (existsb (String.eqb (suffix p)) SUPPORTED_FILETYPES) eqn:E;
      [|reflexivity].
    apply supported_existsb in E. contradiction.
  - apply supported_existsb in Hq. rewrite Hq. apply IH.
Qed.

Lemma dict_append_keys (d : list (string * list Path)) (k : string)
    (p : Path) :
  map fst (dict_append d k p)
  = if in_dec string_dec k (map fst d) then map fst d else map fst d ++ [k].
Proof.
  induction d as [|[k' v] d IH]; simpl; [reflexivity|].
  destruct (String.eqb k' k) eqn:E.
  - apply String.eqb_eq in E. subst.
    destruct (string_dec k k); [reflexivity | congruence].
  - apply String.eqb_neq in E. simpl. rewrite IH.
    destruct (string_dec k' k); [congruence|].
    destruct (in_dec string_dec k (map fst d)); reflexivity.
Qed.

Lemma dict_append_keys_in (d : list (string * list Path)) (k k' : string)
    (p : Path) :
  In k' (map fst (dict_append d k p)) <-> In k' (map fst d) \/ k' = k.
Proof.
  rewrite dict_append_keys.
  destruct (in_dec string_dec k (map fst d)) as [Hin|Hin].
  - split; [tauto | intros [Hk | ->]; assumption].
  - rewrite in_app_iff. simpl. intuition congruence.
Qed.

Lemma dict_append_NoDup (d : list (string * list Path)) (k : string)
    (p : Path) :
  NoDup (map fst d) -> NoDup (map fst (dict_append d k p)).
Proof.
  intros Hnd. rewrite dict_append_keys.
  destruct (in_dec string_dec k (map fst d)) as [Hin|Hin]; [assumption|].
  apply NoDup_app; [assumption | repeat constructor; simpl; tauto |].
  intros x Hx [<- | [ ] ]. contradiction.
Qed.

(** On supported paths the loop returns a dictionary whose keys are,
    without repetition, the old keys and the suffixes of the paths. *)
Lemma split_docs_loop_supported (paths : list Path) :
  Forall supported paths ->
  forall d,
    NoDup (map fst d) ->
    exists d',
      split_docs_loop paths d = Ok d'
      /\ NoDup (map fst d')
      /\ forall k, In k (map fst d')
                   <-> In k (map fst d) \/ In k (map suffix paths).
Proof.
  induction 1 as [|p paths Hp _ IH]; intros d Hnd.
  - exists d. split; [reflexivity | split; [assumption|]].
    intros k. simpl. tauto.
  - rewrite split_docs_loop_cons.
    apply supported_existsb in Hp. rewrite Hp. cbn [negb].
    destruct (IH (dict_append d (suffix p) p)) as (d' & Heq & Hnd' & Hkeys).
    { now apply dict_append_NoDup. }
    exists d'. split; [assumption | split; [assumption|]].
    intros k. rewrite Hkeys, dict_append_keys_in. simpl. intuition.
Qed.

Lemma two_keys_length (keys : list string) (k1 k2 : string) :
  In k1 keys -> In k2 keys -> k1 <> k2 -> (1 < List.length keys)%nat.
Proof.
  destruct keys as [|a [|b keys]]; simpl; [tauto | | lia].
  intros [<- | [ ] ] [<- | [ ] ]. congruence.
Qed.

Lemma one_key_length (keys : list string) (k : string) :
  NoDup keys -> (forall x, In x keys -> x = k) -> (List.length keys <= 1)%nat.
Proof.
  intros Hnd Hall. destruct keys as [|a [|b keys]]; simpl; [lia | lia |].
  exfalso. inversion Hnd as [|? ? Hnotin _]; subst. apply Hnotin.
  rewrite (Hall a), (Hall b); simpl; auto.
Qed.

(** C7. Construction raises on an empty path list (the "empty list of
    documents" error), on the first path whose extension is not supported
    (the "unsupported filetype" error) and, when every extension is
    supported, on paths with two distinct extensions (the "multiple
    document types" error); in each case nothing has been triggered: no
    model download, no OCR probe, no tokenizer load. A valid path list
    does reach the tokenizer load. *)
Theorem init_rejects_before_io `{Backends} (document_paths : list Path)
    (tokenizer_model_name : string) (docling_model_path : option string)
    (server_ctx_size chunk_word_count : Z) :
  let run := __init__ document_paths tokenizer_model_name docling_model_path
               server_ctx_size chunk_word_count in
  (document_paths = [] -> run = (Raise EmptyDocumentSet, []))
  /\ (forall pre p post,
         document_paths = pre ++ p :: post ->
         Forall supported pre -> ~ supported p ->
         run = (Raise (UnsupportedFileType (suffix p)), []))
  /\ (Forall supported document_paths ->
      (exists p q, In p document_paths /\ In q document_paths
                   /\ suffix p <> suffix q) ->
      run = (Raise MixedDocumentTypes, []))
  /\ (document_paths <> [] ->
      Forall supported document_paths ->
      (forall p q, In p document_paths -> In q document_paths ->
                   suffix p = suffix q) ->
      In (LoadTokenizer tokenizer_model_name) (snd run)).
Proof.
  intros run. subst run. split; [|split; [|split]].
  - intros ->. reflexivity.
  - intros pre p post -> Hpre Hp. unfold __init__, split_docs_by_filetype.
    rewrite (split_docs_loop_unsupported pre p post Hpre Hp).
    destruct pre; reflexivity.
  - intros Hsup (p & q & Hp & Hq & Hpq). unfold __init__.
    destruct document_paths as [|p0 paths]; [contradiction|].
    unfold split_docs_by_filetype.
    destruct (split_docs_loop_supported _ Hsup [] (NoDup_nil _))
      as (d' & -> & _ & Hkeys).
    assert (Hlen : (1 < List.length (map fst d'))%nat).
    { apply (two_keys_length _ (suffix p) (suffix q)); [| |assumption].
      - apply Hkeys. right. now apply in_map.
      - apply Hkeys. right. now apply in_map. }
    rewrite length_map in Hlen.
    destruct (1 <? Z.of_nat (List.length d')) eqn:E; [reflexivity|].
    apply Z.ltb_ge in E. lia.
  - intros Hne Hsup Hsame. unfold __init__.
    destruct document_paths as [|p0 paths]; [congruence|].
    unfold split_docs_by_filetype.
    destruct (split_docs_loop_supported _ Hsup [] (NoDup_nil _))
      as (d' & -> & Hnd & Hkeys).
    assert (Hlen : (List.length (map fst d') <= 1)%nat).
    { apply (one_key_length _ (suffix p0)); [assumption|].
      intros x Hx. apply Hkeys in Hx as [ [ ] | Hx].
      apply in_map_iff in Hx as (q & <- & Hq).
      apply Hsame; simpl; auto. }
    rewrite length_map in Hlen.
    destruct (1 <? Z.of_nat (List.length d')) eqn:E;
      [apply Z.ltb_lt in E; lia|].
    destruct d' as [|[filetype ps] d'].
    + exfalso. assert (Hin : In (suffix p0) (map fst (@nil (string * list Path)))).
      { apply Hkeys. right. simpl. auto. }
      exact Hin.
    + unfold _init_docling_converter.
      destruct docling_model_path; destruct (load_tokenizer _); simpl;
        rewrite ?in_app_iff; simpl; auto.
Qed.

Lemma init_rejects_before_io_witness :
  let mixed := [toy_path "a" ".pdf"; toy_path "b" ".md"] in
  let unsupported := [toy_path "a" ".pdf"; toy_path "b" ".txt"] in
  @__init__ toy_backends [] "model" None 4096 1024 = (Raise EmptyDocumentSet, [])
  /\ @__init__ toy_backends unsupported "model" None 4096 1024
     = (Raise (UnsupportedFileType ".txt"), [])
  /\ @__init__ toy_backends mixed "model" None 4096 1024
     = (Raise MixedDocumentTypes, [])
  /\ In (LoadTokenizer "model")
       (snd (@__init__ toy_backends [toy_path "a" ".pdf"] "model" None 4096 1024)).
Proof.
  intros mixed unsupported.
  assert (Hpdf : supported (toy_path "a" ".pdf")) by (left; reflexivity).
  assert (Hmd : supported (toy_path "b" ".md"))
    by (right; left; reflexivity).
  assert (Htxt : ~ supported (toy_path "b" ".txt")).
  { intros [E | [E | [ ] ] ]; discriminate E. }
  split; [|split; [|split]].
  - exact (proj1 (@init_rejects_before_io toy_backends [] "model" None
                    4096 1024) eq_refl).
  - exact (proj1 (proj2 (@init_rejects_before_io toy_backends unsupported
                           "model" None 4096 1024))
             [toy_path "a" ".pdf"] (toy_path "b" ".txt") [] eq_refl
             (Forall_cons _ Hpdf (Forall_nil _)) Htxt).
  - refine (proj1 (proj2 (proj2 (@init_rejects_before_io toy_backends mixed
                                   "model" None 4096 1024))) _ _).
    + exact (Forall_cons _ Hpdf (Forall_cons _ Hmd (Forall_nil _))).
    + exists (toy_path "a" ".pdf"), (toy_path "b" ".md").
      split; [left; reflexivity | split; [right; left; reflexivity|]].
      discriminate.
  - refine (proj2 (proj2 (proj2 (@init_rejects_before_io toy_backends
                                   [toy_path "a" ".pdf"] "model" None
                                   4096 1024))) _ _ _).
    + discriminate.
    + exact (Forall_cons _ Hpdf (Forall_nil _)).
    + intros p q [<- | [ ] ] [<- | [ ] ]. reflexivity.
Defined.

(** ** Orchestration *)

Section Orchestration.
Context `{Backends}.
Variable self : DocumentChunker.

Lemma chunk_markdowns_loop_flat (documents : list string) (chunk_size : Z) :
  forall content,
    chunk_markdowns_loop documents chunk_size content
    = content
      ++ flat_map (fun docs => create_documents chunk_size
                                 _DEFAULT_CHUNK_OVERLAP (clean_markdown docs))
           documents.
Proof.
  induction documents as [|docs documents IH]; intros content; simpl.
  - now rewrite app_nil_r.
  - now rewrite IH, app_assoc.
Qed.

Lemma chunk_markdowns_flat (documents : list string) (chunk_size : Z) :
  chunk_markdowns documents chunk_size
  = flat_map (fun docs => create_documents chunk_size
                            _DEFAULT_CHUNK_OVERLAP (clean_markdown docs))
      documents.
Proof. apply (chunk_markdowns_loop_flat documents chunk_size []). Qed.

(** With a budget that computes, the stages after hybrid chunking always
    return. *)
Lemma final_chunks_ok (n : Z) (chunks : list string) :
  _num_tokens_from_words (chunk_word_count self) = Ok n ->
  final_chunks self chunks
  = Ok (resplit_fused self 200 (_num_chars_from_tokens n) chunks).
Proof.
  intros Hn. unfold final_chunks, resplit_fused.
  rewrite fuse_texts_groups, Hn. reflexivity.
Qed.

Lemma chunk_documents_loop_cons (cr : ConversionResult DoclingDocument)
    (rest : list (ConversionResult DoclingDocument))
    (all_chunks : list string) (log : list log_record) :
  chunk_documents_loop self (cr :: rest) all_chunks log
  = match final_chunks self (raw_chunks self cr) with
    | Ok chunks' =>
        chunk_documents_loop self rest (all_chunks ++ chunks')
          (log ++ chunking_errors self cr)
    | Raise e => (Raise e, log ++ chunking_errors self cr)
    end.
Proof.
  unfold raw_chunks, chunking_errors. simpl.
  destruct (hybrid_chunk (tokenizer self) 500 (document cr)).
  - now rewrite app_nil_r.
  - reflexivity.
Qed.

(** The run over a batch, when the budget computes: every conversion
    result contributes the re-split fusion of its raw chunks, in order. *)
Lemma chunk_documents_loop_ok (n : Z)
    (parsed : list (ConversionResult DoclingDocument)) :
  _num_tokens_from_words (chunk_word_count self) = Ok n ->
  forall all_chunks log,
    chunk_documents_loop self parsed all_chunks log
    = (Ok (all_chunks
           ++ flat_map (fun cr => resplit_fused self 200
                                    (_num_chars_from_tokens n)
                                    (raw_chunks self cr)) parsed),
       log ++ flat_map (chunking_errors self) parsed).
Proof.
  intros Hn. induction parsed as [|cr parsed IH]; intros all_chunks log.
  - simpl. now rewrite !app_nil_r.
  - rewrite chunk_documents_loop_cons, (final_chunks_ok n) by assumption.
    rewrite IH. simpl. now rewrite !app_assoc.
Qed.

Lemma chunk_documents_loop_status
    (f : ConversionResult DoclingDocument -> ConversionStatus)
    (parsed : list (ConversionResult DoclingDocument)) :
  forall all_chunks log,
    chunk_documents_loop self
      (map (fun cr => set_status (f cr) cr) parsed) all_chunks log
    = chunk_documents_loop self parsed all_chunks log.
Proof.
  induction parsed as [|cr parsed IH]; intros all_chunks log;
    [reflexivity|].
  cbn [map]. rewrite !chunk_documents_loop_cons.
  change (raw_chunks self (set_status (f cr) cr)) with (raw_chunks self cr).
  change (chunking_errors self (set_status (f cr) cr))
    with (chunking_errors self cr).
  destruct (final_chunks self (raw_chunks self cr)); [apply IH | reflexivity].
Qed.

Lemma chunk_documents_loop_log
    (parsed : list (ConversionResult DoclingDocument)) :
  forall all_chunks log,
    Forall is_chunking_error log ->
    Forall is_chunking_error
      (snd (chunk_documents_loop self parsed all_chunks log)).
Proof.
  induction parsed as [|cr parsed IH]; intros all_chunks log Hlog;
    [assumption|].
  rewrite chunk_documents_loop_cons.
  assert (Hlog' : Forall is_chunking_error (log ++ chunking_errors self cr)).
  { apply Forall_app. split; [assumption|]. unfold chunking_errors.
    destruct (hybrid_chunk (tokenizer self) 500 (document cr));
      repeat constructor. }
  destruct (final_chunks self (raw_chunks self cr)); [now apply IH|].
  exact Hlog'.
Qed.

End Orchestration.

Lemma export_documents_loop_counts `{Backends}
    (docs : list (ConversionResult DoclingDocument)) :
  forall success_count failure_count files log,
    exists files' log',
      export_documents_loop docs success_count failure_count files log
      = (success_count + count_status is_success docs,
         failure_count + count_status (fun st => negb (is_success st)) docs,
         files', log').
Proof.
  unfold count_status.
  induction docs as [|doc docs IH]; intros sc fc files log.
  - exists files, log. simpl. now rewrite !Z.add_0_r.
  - simpl. destruct (is_success (status doc)); simpl.
    + destruct (IH (sc + 1) fc
                  (files ++ [WriteFile (docling_artifacts_path ++ "/"
                                        ++ stem (input_file doc) ++ ".json")%string
                               (export_to_json (document doc));
                             WriteFile (docling_artifacts_path ++ "/"
                                        ++ stem (input_file doc) ++ ".md")%string
                               (export_to_markdown (document doc))]) log)
        as (files' & log' & Heq).
      exists files', log'. simpl in Heq. rewrite Heq. f_equal. f_equal. f_equal.
      lia.
    + destruct (IH sc (fc + 1) files
                  (log ++ [DocumentFailedToConvert (input_file doc)]))
        as (files' & log' & Heq).
      exists files', log'. rewrite Heq. f_equal. f_equal. f_equal. lia.
Qed.

(** C6. If hybrid chunking raises for one document, [chunk_documents]
    absorbs the exception and logs it with the originating file; that
    document contributes no final chunk, the other documents are still
    processed, and the run returns the concatenation of their final
    chunks. The session is one whose character budget computes, that is,
    whose word count is not too large for a float. *)
Theorem chunking_exception_absorbed `{Backends} (self : DocumentChunker)
    (pre : list (ConversionResult DoclingDocument))
    (d : ConversionResult DoclingDocument)
    (post : list (ConversionResult DoclingDocument)) (e : exn) (n : Z) :
  converter self (document_paths self) = pre ++ d :: post ->
  hybrid_chunk (tokenizer self) 500 (document d) = Raise e ->
  _num_tokens_from_words (chunk_word_count self) = Ok n ->
  exists chunks_pre chunks_post log_pre log_post,
    chunk_documents_loop self pre [] [] = (Ok chunks_pre, log_pre)
    /\ chunk_documents_loop self post [] [] = (Ok chunks_post, log_post)
    /\ chunk_documents_loop self [d] [] []
       = (Ok [], [ErrorChunkingDocument (input_file d) e])
    /\ chunk_documents self
       = (Ok (chunks_pre ++ chunks_post),
          log_pre ++ [ErrorChunkingDocument (input_file d) e] ++ log_post).
Proof.
  intros Hparsed Hraise Hn.
  assert (Hraw : raw_chunks self d = [])
    by (unfold raw_chunks; now rewrite Hraise).
  assert (Herr : chunking_errors self d
                 = [ErrorChunkingDocument (input_file d) e])
    by (unfold chunking_errors; now rewrite Hraise).
  set (contribution := fun cr : ConversionResult DoclingDocument =>
         resplit_fused self 200 (_num_chars_from_tokens n)
           (raw_chunks self cr)).
  assert (Hd : contribution d = [])
    by (unfold contribution; rewrite Hraw; reflexivity).
  exists (flat_map contribution pre), (flat_map contribution post),
    (flat_map (chunking_errors self) pre),
    (flat_map (chunking_errors self) post).
  unfold chunk_documents. rewrite Hparsed.
  rewrite !(chunk_documents_loop_ok self n) by assumption.
  fold contribution. rewrite !flat_map_app. cbn [flat_map].
  rewrite Hd, Herr. cbn [app].
  repeat split; reflexivity.
Qed.

Lemma chunking_exception_absorbed_witness :
  let d1 := toy_result "d1" SUCCESS (Ok ["a"]) in
  let d2 := toy_result "d2" SUCCESS (Raise (BackendError "malformed")) in
  let d3 := toy_result "d3" SUCCESS (Ok ["b"]) in
  let self := toy_chunker [d1; d2; d3] in
  _num_tokens_from_words (chunk_word_count self) = Ok 1331
  /\ @chunk_documents toy_backends self
     = (Ok ["a"; "b"],
        [ErrorChunkingDocument (input_file d2) (BackendError "malformed")]).
Proof.
  intros d1 d2 d3 self.
  assert (Hn : _num_tokens_from_words (chunk_word_count self) = Ok 1331)
    by (vm_compute; reflexivity).
  split; [exact Hn|].
  destruct (@chunking_exception_absorbed toy_backends self [d1] d2 [d3]
              (BackendError "malformed") 1331 eq_refl eq_refl Hn)
    as (chunks_pre & chunks_post & log_pre & log_post
        & Hpre & Hpost & _ & Hrun).
  vm_compute in Hpre, Hpost.
  injection Hpre as <- <-. injection Hpost as <- <-.
  exact Hrun.
Defined.

(** C1, as stated, fails in both halves. A conversion result with
    [FAILURE] status is not excluded from the stages: the hybrid chunker
    is run on what the result carries, and when that cannot be chunked
    the run differs from the run over the other results by the chunking
    error it logs. And the run records no counts, whatever the batch. *)
Lemma failed_conversion_counterexample :
  ~ (forall (B : Backends) (self : DocumentChunker)
       (pre : list (ConversionResult DoclingDocument))
       (d : ConversionResult DoclingDocument)
       (post : list (ConversionResult DoclingDocument)),
       converter self (document_paths self) = pre ++ d :: post ->
       status d = FAILURE ->
       chunk_documents self = chunk_documents_loop self (pre ++ post) [] [])
  /\ ~ (forall (B : Backends) (self : DocumentChunker)
          (pre : list (ConversionResult DoclingDocument))
          (d : ConversionResult DoclingDocument)
          (post : list (ConversionResult DoclingDocument)),
          converter self (document_paths self) = pre ++ d :: post ->
          status d = FAILURE ->
          exists total failed,
            In (ProcessedDocs total failed) (snd (chunk_documents self))).
Proof.
  pose (d1 := toy_result "d1" SUCCESS (Ok ["a"])).
  pose (d3 := toy_result "d3" SUCCESS (Ok ["b"])).
  split; intros Hclaim.
  - pose (d2 := toy_result "d2" FAILURE (Raise (BackendError "no document"))).
    specialize (Hclaim toy_backends (toy_chunker [d1; d2; d3]) [d1] d2 [d3]
                  eq_refl eq_refl).
    vm_compute in Hclaim. discriminate Hclaim.
  - pose (d2 := toy_result "d2" FAILURE (Ok [])).
    destruct (Hclaim toy_backends (toy_chunker [d1; d2; d3]) [d1] d2 [d3]
                eq_refl eq_refl) as (total & failed & Hin).
    vm_compute in Hin. exact Hin.
Qed.

(** C1, amended. In a session whose character budget computes,
    [chunk_documents] runs the chunker, fusion and re-splitter stages on
    every conversion result, whatever its status: its output is the
    concatenation, in batch order, of what the stages give for each
    result, and its log the chunking errors of the results whose
    document could not be chunked. A result with [FAILURE] status is
    therefore not excluded: what the stages give for it sits between
    the chunks of its neighbours, and when its document cannot be
    chunked it adds no chunk and one chunking error. Overwriting the
    statuses changes neither the output nor the log, and the log holds
    chunking errors only, no counts. The success and failure counts are
    kept by [export_documents], which counts the results with [SUCCESS]
    status as successes and all others as failures, and logs the total
    and the failures. *)
Theorem chunk_documents_ignores_status `{Backends} (self : DocumentChunker)
    (n : Z) (docs : list (ConversionResult DoclingDocument)) :
  _num_tokens_from_words (chunk_word_count self) = Ok n ->
  let parsed := converter self (document_paths self) in
  let stages := fun cr =>
    resplit_fused self 200 (_num_chars_from_tokens n) (raw_chunks self cr) in
  chunk_documents self
  = (Ok (flat_map stages parsed), flat_map (chunking_errors self) parsed)
  /\ (forall pre d post,
         parsed = pre ++ d :: post ->
         status d = FAILURE ->
         chunk_documents self
         = (Ok (flat_map stages pre ++ stages d ++ flat_map stages post),
            flat_map (chunking_errors self) pre
            ++ chunking_errors self d
            ++ flat_map (chunking_errors self) post))
  /\ (forall d e,
         hybrid_chunk (tokenizer self) 500 (document d) = Raise e ->
         stages d = []
         /\ chunking_errors self d = [ErrorChunkingDocument (input_file d) e])
  /\ (forall f : ConversionResult DoclingDocument -> ConversionStatus,
         chunk_documents_loop self
           (map (fun cr => set_status (f cr) cr) parsed) [] []
         = chunk_documents self)
  /\ Forall is_chunking_error (snd (chunk_documents self))
  /\ (exists files log,
        export_documents docs
        = (docling_artifacts_path, files,
           log ++ [ProcessedDocs
                     (count_status is_success docs
                      + count_status (fun st => negb (is_success st)) docs)
                     (count_status (fun st => negb (is_success st)) docs)]))
  /\ count_status is_success docs
     + count_status (fun st => negb (is_success st)) docs
     = Z.of_nat (List.length docs).
Proof.
  intros Hn parsed stages.
  assert (Hrun : chunk_documents self
                 = (Ok (flat_map stages parsed),
                    flat_map (chunking_errors self) parsed)).
  { unfold chunk_documents. fold parsed.
    now rewrite (chunk_documents_loop_ok self n). }
  split; [exact Hrun|]. split; [|split; [|split; [|split; [|split]]]].
  - intros pre d post Hparsed _. rewrite Hrun, Hparsed.
    rewrite !flat_map_app. reflexivity.
  - intros d e Hraise. unfold stages, raw_chunks, chunking_errors.
    rewrite Hraise. split; reflexivity.
  - intros f. apply chunk_documents_loop_status.
  - apply chunk_documents_loop_log. constructor.
  - unfold export_documents.
    destruct (export_documents_loop_counts docs 0 0 [] [])
      as (files & log & ->).
    exists files, log. reflexivity.
  - unfold count_status. induction docs as [|doc docs IH]; [reflexivity|].
    simpl. destruct (is_success (status doc)); simpl List.length; lia.
Qed.

Lemma chunk_documents_ignores_status_witness :
  let d1 := toy_result "d1" SUCCESS (Ok ["a"]) in
  let d2 := toy_result "d2" FAILURE (Raise (BackendError "no document")) in
  let d3 := toy_result "d3" SUCCESS (Ok ["b"]) in
  let self := toy_chunker [d1; d2; d3] in
  _num_tokens_from_words (chunk_word_count self) = Ok 1331
  /\ @chunk_documents toy_backends self
     = (Ok ["a"; "b"],
        [ErrorChunkingDocument (input_file d2) (BackendError "no document")])
  /\ snd (@export_documents toy_backends [d1; d2; d3])
     = [DocumentFailedToConvert (input_file d2); ProcessedDocs 3 1].
Proof.
  intros d1 d2 d3 self.
  assert (Hn : _num_tokens_from_words (chunk_word_count self) = Ok 1331)
    by (vm_compute; reflexivity).
  split; [exact Hn|].
  destruct (@chunk_documents_ignores_status toy_backends self 1331
              [d1; d2; d3] Hn)
    as (Hrun & _).
  split; [|reflexivity].
  rewrite Hrun. vm_compute. reflexivity.
Defined.

(** Were a result with [FAILURE] status to carry a document that can be
    chunked, its chunks would be in the output: the export logs three
    processed documents and one failure, the run returns the chunks of
    all three. *)
Example second_of_three_failed :
  let d1 := toy_result "d1" SUCCESS (Ok ["a"]) in
  let d2 := toy_result "d2" FAILURE (Ok ["x"]) in
  let d3 := toy_result "d3" SUCCESS (Ok ["b"]) in
  snd (@export_documents toy_backends [d1; d2; d3])
  = [DocumentFailedToConvert (input_file d2); ProcessedDocs 3 1]
  /\ fst (@chunk_documents toy_backends (toy_chunker [d1; d2; d3]))
     = Ok ["a"; "x"; "b"].
Proof. split; reflexivity. Qed.

(** ** The fusion threshold of the run *)

Lemma fuse_groups_app `{Backends} (self : DocumentChunker) (thr : Z)
    (xs ys : list string) (groups : list (list string)) :
  fuse_groups self thr (xs ++ ys) groups
  = fuse_groups self thr ys (fuse_groups self thr xs groups).
Proof. apply fold_left_app. Qed.

Lemma join_app_cons (g g2 : list string) (c : string) :
  g <> [] ->
  exists tail,
    join (g ++ c :: g2) = (join g ++ blank_line ++ c ++ tail)%string.
Proof.
  intros Hg. destruct (join_cons_tail c g2) as [tail Htail].
  exists tail. unfold join in *.
  rewrite concat_sep_app by (assumption || discriminate).
  now rewrite Htail.
Qed.

(** After a non-empty list of texts, the groups end with a group that
    some text opened. *)
Lemma fuse_groups_last_group `{Backends} (self : DocumentChunker) (thr : Z)
    (pre : list string) :
  pre <> [] ->
  exists G opener merged,
    fuse_groups self thr pre [] = G ++ [opener :: merged].
Proof.
  intros Hne.
  assert (Hgroups : Forall (fun g : list string => g <> [])
                      (fuse_groups self thr pre []))
    by (apply fuse_groups_nonempty; constructor).
  pose proof (fuse_groups_concat self thr pre) as Hcat.
  revert Hgroups Hcat.
  generalize (fuse_groups self thr pre []). intros groups.
  destruct groups as [|g G _] using rev_ind; intros Hgroups Hcat.
  { simpl in Hcat. congruence. }
  apply Forall_app in Hgroups as [_ Hg]. apply Forall_inv in Hg.
  destruct g as [|opener merged]; [congruence|].
  now exists G, opener, merged.
Qed.

(** C4, as stated, fails for a chunk that follows an empty one: the empty
    string leaves [previous_long_text] false, so the next chunk opens an
    entry of its own whatever its token count. *)
Lemma merge_under_200_counterexample :
  ~ (forall (B : Backends) (self : DocumentChunker)
       (pre : list string) (c : string) (post : list string),
       pre <> [] ->
       get_token_count c (tokenizer self) <= 200 ->
       exists fused last tail more,
         fuse_texts self pre 200 = Ok (fused ++ [last])
         /\ fuse_texts self (pre ++ c :: post) 200
            = Ok (fused ++ (last ++ blank_line ++ c ++ tail)%string :: more)).
Proof.
  intros Hclaim.
  specialize (Hclaim toy_backends (toy_chunker []) [""] "b" []).
  destruct Hclaim as (fused & last & tail & more & Hpre & Hall).
  - discriminate.
  - vm_compute. discriminate.
  - vm_compute in Hpre. injection Hpre as Hpre.
    destruct fused as [|x [|y fused]]; try discriminate Hpre.
    injection Hpre as <-.
    vm_compute in Hall. discriminate Hall.
Qed.

(** C4, amended. [chunk_documents] fuses the raw chunks of every document
    with the threshold 200, not the default 130 of [fuse_texts]: a chunk
    of 131 to 200 tokens after a non-empty chunk is merged where the
    default would leave it standalone. Under that threshold a raw chunk
    of at most 200 tokens that has a predecessor is appended, after a
    blank line, to the last entry emitted before it, unless the chunk
    that opened that entry is the empty string: then, and only then, it
    opens an entry of its own. *)
Theorem chunk_documents_threshold_200 `{Backends} (self : DocumentChunker) :
  (forall n,
      _num_tokens_from_words (chunk_word_count self) = Ok n ->
      fst (chunk_documents self)
      = Ok (flat_map (fun cr => resplit_fused self 200
                                  (_num_chars_from_tokens n)
                                  (raw_chunks self cr))
              (converter self (document_paths self))))
  /\ fuse_texts_default_threshold = 130
  /\ (forall c d,
         c <> "" ->
         130 < get_token_count d (tokenizer self) <= 200 ->
         fuse_texts self [c; d] 200 = Ok [(c ++ blank_line ++ d)%string]
         /\ fuse_texts self [c; d] fuse_texts_default_threshold = Ok [c; d])
  /\ (forall pre c post,
         pre <> [] ->
         get_token_count c (tokenizer self) <= 200 ->
         exists G opener merged tail more,
           fuse_groups self 200 pre [] = G ++ [opener :: merged]
           /\ List.concat (G ++ [opener :: merged]) = pre
           /\ fuse_texts self pre 200
              = Ok (map join G ++ [join (opener :: merged)])
           /\ (opener <> "" ->
               fuse_texts self (pre ++ c :: post) 200
               = Ok (map join G
                     ++ (join (opener :: merged) ++ blank_line ++ c ++ tail)
                        %string :: more))
           /\ (opener = "" ->
               fuse_texts self (pre ++ c :: post) 200
               = Ok (map join G
                     ++ join (opener :: merged)
                        :: (c ++ tail)%string :: more))).
Proof.
  split; [|split; [reflexivity | split]].
  - intros n Hn. unfold chunk_documents.
    now rewrite (chunk_documents_loop_ok self n).
  - intros c d Hc [Hlo Hhi]. split.
    + rewrite fuse_texts_groups, fuse_groups_first.
      pose proof (fuse_groups_all_short self 200 [d] [] [c]) as Hall.
      cbn [app] in Hall. rewrite Hall; [reflexivity | |].
      * now apply truthy_nonempty.
      * repeat constructor. exact Hhi.
    + rewrite fuse_texts_groups, fuse_groups_first.
      unfold fuse_groups. cbn [fold_left]. rewrite group_step_open.
      * reflexivity.
      * apply andb_false_iff. left. apply Z.leb_gt. exact Hlo.
  - intros pre c post Hne Hc.
    destruct (fuse_groups_last_group self 200 pre Hne)
      as (G & opener & merged & Hpre).
    assert (Hcat : List.concat (G ++ [opener :: merged]) = pre)
      by (rewrite <- Hpre; apply fuse_groups_concat).
    assert (Hfused : fuse_texts self pre 200
                     = Ok (map join G ++ [join (opener :: merged)]))
      by (rewrite fuse_texts_groups, Hpre, map_app; reflexivity).
    assert (Hsplit : fuse_groups self 200 (pre ++ c :: post) []
                     = fuse_groups self 200 post
                         (group_step self 200 (G ++ [opener :: merged]) c)).
    { rewrite fuse_groups_app, Hpre. reflexivity. }
    pose proof (starter_snoc G (opener :: merged)) as Hstarter.
    cbn beta iota in Hstarter.
    destruct (string_dec opener "") as [Hempty | Hfull].
    + (* an empty opener: the chunk opens a new entry *)
      assert (Hstep : group_step self 200 (G ++ [opener :: merged]) c
                      = (G ++ [opener :: merged]) ++ [[c]]).
      { apply group_step_open. rewrite Hstarter, Hempty.
        apply andb_false_r. }
      destruct (fuse_groups_grow self 200 post (G ++ [opener :: merged]) [c])
        as (g2 & G2 & Hgrow & _); [discriminate|].
      destruct (join_cons_tail c g2) as [tail Htail].
      exists G, opener, merged, tail, (map join G2).
      split; [exact Hpre|]. split; [exact Hcat|]. split; [exact Hfused|].
      split; [intros Hcontra; contradiction|]. intros _.
      rewrite fuse_texts_groups, Hsplit, Hstep, Hgrow.
      rewrite <- !app_assoc, !map_app. cbn [map app].
      now rewrite <- Htail.
    + (* the chunk joins the last entry *)
      assert (Hstep : group_step self 200 (G ++ [opener :: merged]) c
                      = G ++ [(opener :: merged) ++ [c]]).
      { apply group_step_merge. rewrite Hstarter.
        rewrite (truthy_nonempty opener Hfull), andb_true_r.
        now apply Z.leb_le. }
      destruct (fuse_groups_grow self 200 post G ((opener :: merged) ++ [c]))
        as (g2 & G2 & Hgrow & _); [discriminate|].
      destruct (join_app_cons (opener :: merged) g2 c) as [tail Htail];
        [discriminate|].
      exists G, opener, merged, tail, (map join G2).
      split; [exact Hpre|]. split; [exact Hcat|]. split; [exact Hfused|].
      split; [|intros Hcontra; contradiction]. intros _.
      rewrite fuse_texts_groups, Hsplit, Hstep, Hgrow.
      rewrite <- app_assoc, !map_app. cbn [map app].
      now rewrite <- Htail.
Qed.

(** A chunk of 150 tokens after ["abc"] is merged under the threshold 200
    and left standalone under the default; and it is merged although an
    earlier chunk is the empty string, since ["abc"] opened the entry
    before it. *)
Lemma chunk_documents_threshold_200_witness :
  let self := toy_chunker [] in
  "abc" <> ""
  /\ 130 < get_token_count (filler 150) (tokenizer self) <= 200
  /\ @fuse_texts toy_backends self ["abc"; filler 150] 200
     = Ok [("abc" ++ blank_line ++ filler 150)%string]
  /\ @fuse_texts toy_backends self ["abc"; filler 150]
       fuse_texts_default_threshold
     = Ok ["abc"; filler 150]
  /\ @fuse_texts toy_backends self ([""; "abc"] ++ filler 150 :: ["d"]) 200
     = Ok [""; ("abc" ++ blank_line ++ filler 150 ++ blank_line ++ "d")%string].
Proof.
  intros self.
  assert (Hc : "abc" <> "") by discriminate.
  assert (Htok : 130 < get_token_count (filler 150) (tokenizer self) <= 200)
    by (vm_compute; split; [reflexivity | discriminate]).
  destruct (@chunk_documents_threshold_200 toy_backends self)
    as (_ & _ & Hdiff & _).
  destruct (Hdiff "abc" (filler 150) Hc Htok) as [H200 H130].
  split; [exact Hc | split; [exact Htok | split; [exact H200
    | split; [exact H130|]]]].
  vm_compute. reflexivity.
Defined.

(** ** The character budget *)









(** No character is lost by the structural split. *)
Lemma push_concat (a : ascii) (parts : list string) :
  String.concat "" (push a parts) = String a (String.concat "" parts).
Proof.
  destruct parts as [|p [|q ps]]; cbn; try reflexivity.
Qed.

Lemma concat_empty_cons (p : string) (ps : list string) :
  String.concat "" (p :: ps) = (p ++ String.concat "" ps)%string.
Proof.
  destruct ps as [|q ps]; cbn [String.concat].
  - now rewrite string_app_empty_r.
  - reflexivity.
Qed.

Lemma concat_empty_app (l l' : list string) :
  String.concat "" (l ++ l')
  = (String.concat "" l ++ String.concat "" l')%string.
Proof.
  induction l as [|p l IH]; [reflexivity|].
  cbn [app]. rewrite !concat_empty_cons, IH. now rewrite string_app_assoc.
Qed.

Lemma cut_before_concat (sep text : string) :
  String.concat "" (cut_before sep text) = text.
Proof.
  induction text as [|a rest IH]; [reflexivity|].
  cbn [cut_before]. destruct (String.prefix sep rest).
  - rewrite concat_empty_cons, IH. reflexivity.
  - rewrite push_concat, IH. reflexivity.
Qed.

Lemma windows_concat (size : nat) (text : string) :
  forall room, String.concat "" (windows size room text) = text.
Proof.
  induction text as [|a rest IH]; intros room; [reflexivity|].
  cbn [windows]. destruct room as [|room'].
  - rewrite concat_empty_cons, push_concat, IH. reflexivity.
  - rewrite push_concat, IH. reflexivity.
Qed.

Lemma structural_split_concat (separators : list string) (chunk_size : Z) :
  forall text,
    String.concat "" (structural_split separators chunk_size text) = text.
Proof.
  induction separators as [|sep separators IH]; intros text;
    cbn [structural_split]; destruct (fits chunk_size text);
    try reflexivity.
  - apply windows_concat.
  - rewrite <- (cut_before_concat sep text) at 2.
    induction (cut_before sep text) as [|part parts IHp]; [reflexivity|].
    cbn [flat_map]. rewrite concat_empty_app, concat_empty_cons, IH, IHp.
    reflexivity.
Qed.


(** A run whose budget is 8 characters: the fused chunk is cut before
    its list item, its first part at the paragraph break and its second
    part after 8 characters, and each piece repeats the end of the one
    before it as far as the budget leaves room. *)
Example markdown_run_budget_8 :
  @chunk_documents (with_markdown_splitter toy_backends)
    (markdown_chunker 2
       [toy_result "d1" SUCCESS
          (Ok [("# A" ++ blank_line ++ "text" ++ String LF "- item one")
               %string])])
  = (Ok ["# A"; (" A" ++ blank_line ++ "text")%string;
         String LF "- item "; "item one"], []).
Proof. vm_compute. reflexivity. Qed.


(** ** Token estimator *)

Lemma int_floor_agree (x : spec_float) :
  not_negative x -> int_of_float x = floor_of_float x.
Proof. destruct x as [s|s| |[|] m e]; simpl; tauto || reflexivity. Qed.

Lemma binary_round_aux_not_negative (mx ex : Z) (lx : location) :
  not_negative (binary_round_aux float_prec float_emax false mx ex lx).
Proof.
  unfold binary_round_aux.
  destruct (shr_fexp float_prec float_emax mx ex lx) as [mrs' e'].
  destruct (shr_fexp float_prec float_emax _ e' loc_Exact) as [mrs'' e''].
  destruct (shr_m mrs''); [exact I | | exact I].
  destruct (e'' <=? float_emax - float_prec); exact I.
Qed.

Lemma mul_int_float_not_negative (w : Z) (x : spec_float) :
  0 <= w ->
  mul_int_float w float_1_3 = Ok x -> not_negative x.
Proof.
  intros Hw. unfold mul_int_float, float_of_int, binary_normalize.
  destruct w as [|p|p]; [| |lia].
  - intros [= <-]. exact I.
  - unfold binary_round.
    destruct (shl_align _ _ _) as [mz ez].
    pose proof (binary_round_aux_not_negative (Zpos mz) ez loc_Exact) as Hx.
    destruct (binary_round_aux float_prec float_emax false (Zpos mz) ez
                loc_Exact) as [s|s| |s m e]; simpl.
    + intros [= <-]. destruct s; exact I.
    + discriminate.
    + intros [= <-]. exact I.
    + destruct s; [contradiction|]. intros [= <-].
      apply binary_round_aux_not_negative.
Qed.

Lemma num_tokens_is_floor (w : Z) :
  0 <= w ->
  _num_tokens_from_words w
  = (let* x := mul_int_float w float_1_3 in floor_of_float x).
Proof.
  intros Hw. unfold _num_tokens_from_words.
  destruct (mul_int_float w float_1_3) as [x|e] eqn:Hx; [|reflexivity].
  simpl. apply int_floor_agree. eapply mul_int_float_not_negative; eassumption.
Qed.

(** *** Binary digits and shifts *)

Lemma digits2_pos_size (p : positive) : digits2_pos p = Pos.size p.
Proof. induction p as [p IH|p IH|]; simpl; congruence. Qed.

Lemma digits2_pos_bounds (p : positive) :
  2 ^ (Zpos (digits2_pos p) - 1) <= Zpos p < 2 ^ Zpos (digits2_pos p).
Proof.
  rewrite digits2_pos_size.
  pose proof (Pos.size_gt p) as Hgt. pose proof (Pos.size_le p) as Hle.
  apply Pos2Z.pos_lt_pos in Hgt. apply Pos2Z.pos_le_pos in Hle.
  rewrite Pos2Z.inj_pow in Hgt, Hle.
  replace (Zpos (Pos.size p)) with (Z.succ (Zpos (Pos.size p) - 1)) in Hle at 1
    by lia.
  rewrite Z.pow_succ_r in Hle by lia.
  change (Zpos p~0) with (2 * Zpos p) in Hle. lia.
Qed.

Lemma digits2_pos_unique (p : positive) (D : Z) :
  2 ^ (D - 1) <= Zpos p < 2 ^ D -> Zpos (digits2_pos p) = D.
Proof.
  intros [Hlo Hhi]. destruct (digits2_pos_bounds p) as [Hlo' Hhi'].
  destruct (Z.lt_trichotomy (Zpos (digits2_pos p)) D) as [Hlt | [Heq | Hgt]];
    [exfalso | assumption | exfalso].
  - assert (2 ^ Zpos (digits2_pos p) <= 2 ^ (D - 1))
      by (apply Z.pow_le_mono_r; lia).
    lia.
  - assert (D < 0 \/ 0 <= D) as [Hneg | Hpos] by lia.
    + rewrite (Z.pow_neg_r 2 D) in Hhi by assumption. lia.
    + assert (2 ^ D <= 2 ^ (Zpos (digits2_pos p) - 1))
        by (apply Z.pow_le_mono_r; lia).
      lia.
Qed.

Lemma pos_iter_xO (p n : positive) :
  Zpos (Pos.iter xO p n) = Zpos p * 2 ^ Zpos n.
Proof.
  induction n as [|n IH] using Pos.peano_ind.
  - simpl. lia.
  - rewrite Pos.iter_succ, Pos2Z.inj_succ, Z.pow_succ_r by lia.
    change (Zpos (Pos.iter xO p n)~0) with (2 * Zpos (Pos.iter xO p n)).
    rewrite IH. lia.
Qed.

(** *** Shifting right with a round bit *)

Lemma shr_1_nonneg (m : Z) (r s : bool) :
  0 <= m ->
  shr_1 {| shr_m := m; shr_r := r; shr_s := s |}
  = {| shr_m := m / 2; shr_r := Z.odd m; shr_s := r || s |}.
Proof.
  intros Hm. rewrite <- Z.div2_div.
  destruct m as [|[p|p|]|p]; try reflexivity. lia.
Qed.

(** After [j >= 1] one-bit shifts of [M]: the quotient by [2^j], and as
    round bit the last bit shifted out. *)
Lemma iter_shr_1 (M : Z) (n : positive) :
  0 <= M ->
  forall mrs j,
    0 <= j ->
    shr_m mrs = M / 2 ^ j ->
    exists s,
      iter_pos shr_1 n mrs
      = {| shr_m := M / 2 ^ (j + Zpos n);
           shr_r := Z.odd (M / 2 ^ (j + Zpos n - 1));
           shr_s := s |}.
Proof.
  intros HM.
  assert (Hstep : forall mrs j, 0 <= j -> shr_m mrs = M / 2 ^ j ->
            exists s, shr_1 mrs
                      = {| shr_m := M / 2 ^ (j + 1);
                           shr_r := Z.odd (M / 2 ^ (j + 1 - 1));
                           shr_s := s |}).
  { intros [m r s] j Hj Hm. simpl in Hm. subst m.
    rewrite shr_1_nonneg by (apply Z.div_pos; [lia | apply Z.pow_pos_nonneg; lia]).
    exists (r || s). f_equal.
    - rewrite Z.pow_add_r, Z.pow_1_r by lia.
      rewrite Z.div_div by (try apply Z.pow_pos_nonneg; lia). reflexivity.
    - now replace (j + 1 - 1) with j by lia. }
  induction n as [n IH|n IH|]; intros mrs j Hj Hm; simpl.
  - destruct (Hstep mrs j Hj Hm) as [s1 H1].
    destruct (IH (shr_1 mrs) (j + 1)) as [s2 H2];
      [lia | now rewrite H1 |].
    destruct (IH (iter_pos shr_1 n (shr_1 mrs)) (j + 1 + Zpos n))
      as [s3 H3]; [lia | now rewrite H2 |].
    exists s3. rewrite H3.
    now replace (j + 1 + Zpos n + Zpos n) with (j + Zpos n~1) by lia.
  - destruct (IH mrs j Hj Hm) as [s2 H2].
    destruct (IH (iter_pos shr_1 n mrs) (j + Zpos n))
      as [s3 H3]; [lia | now rewrite H2 |].
    exists s3. rewrite H3.
    now replace (j + Zpos n + Zpos n) with (j + Zpos n~0) by lia.
  - destruct (Hstep mrs j Hj Hm) as [s1 H1]. exists s1. exact H1.
Qed.

Lemma round_nearest_even_bounds (m : Z) (r s : bool) :
  let m' := round_nearest_even m
              (loc_of_shr_record {| shr_m := m; shr_r := r; shr_s := s |}) in
  m' = m \/ (m' = m + 1 /\ r = true).
Proof.
  destruct r, s; simpl; auto. destruct (Z.even m); auto.
Qed.

(** Rounding [M / 2^k] to nearest: at least the quotient, at most the
    quotient of [M] plus half a unit. *)
Lemma rounded_quotient_bounds (M k m' : Z) :
  0 <= M -> 1 <= k ->
  m' = M / 2 ^ k \/ (m' = M / 2 ^ k + 1 /\ Z.odd (M / 2 ^ (k - 1)) = true) ->
  M / 2 ^ k <= m' <= (M + 2 ^ (k - 1)) / 2 ^ k.
Proof.
  intros HM Hk Hm'.
  assert (Hp : 0 < 2 ^ (k - 1)) by (apply Z.pow_pos_nonneg; lia).
  assert (H2k : 2 ^ k = 2 * 2 ^ (k - 1)).
  { replace k with (Z.succ (k - 1)) at 1 by lia.
    now rewrite Z.pow_succ_r by lia. }
  assert (Hmono : M / 2 ^ k <= (M + 2 ^ (k - 1)) / 2 ^ k)
    by (apply Z.div_le_mono; lia).
  destruct Hm' as [-> | [-> Hodd]]; [lia|].
  split; [lia|].
  apply Z.div_le_lower_bound; [lia|].
  set (h := M / 2 ^ (k - 1)) in *.
  assert (Hq : M / 2 ^ k = h / 2).
  { unfold h. rewrite H2k, Z.mul_comm, <- Z.div_div by lia. reflexivity. }
  rewrite Hq.
  assert (Hh : h = 2 * (h / 2) + 1).
  { rewrite (Z.div_mod h 2) at 1 by lia.
    rewrite Zmod_odd, Hodd. reflexivity. }
  assert (HhM : 2 ^ (k - 1) * h <= M)
    by (unfold h; apply Z.mul_div_le; lia).
  rewrite H2k. nia.
Qed.

(** *** Rounding to binary64 *)

Lemma shr_fexp_exact (m : positive) (e : Z) :
  Zpos (digits2_pos m) = 53 -> -1074 <= e ->
  shr_fexp float_prec float_emax (Zpos m) e loc_Exact
  = ({| shr_m := Zpos m; shr_r := false; shr_s := false |}, e).
Proof.
  intros Hd He. unfold shr_fexp, fexp, emin, float_prec, float_emax.
  cbn [Zdigits2]. rewrite Hd.
  replace (Z.max (53 + e - 53) (3 - 1024 - 53) - e) with 0 by lia.
  reflexivity.
Qed.

(** A 53-bit mantissa with an exponent in range is already a float. *)
Lemma binary_round_aux_exact (s : bool) (m : positive) (e : Z) :
  Zpos (digits2_pos m) = 53 -> -1074 <= e <= 971 ->
  binary_round_aux float_prec float_emax s (Zpos m) e loc_Exact
  = S754_finite s m e.
Proof.
  intros Hd He. unfold binary_round_aux.
  rewrite shr_fexp_exact by (assumption || lia).
  cbn [shr_m loc_of_shr_record round_nearest_even].
  rewrite shr_fexp_exact by (assumption || lia).
  cbn [shr_m]. unfold float_prec, float_emax.
  destruct (e <=? 1024 - 53) eqn:E; [reflexivity|].
  apply Z.leb_gt in E. lia.
Qed.

(** A mantissa of [53 + k] bits is shifted right by [k] and rounded to
    nearest; when the rounding carries to [2^53], one more shift keeps 53
    bits. *)
Lemma binary_round_aux_shift (M : positive) (e k : Z) :
  Zpos (digits2_pos M) = 53 + k -> 1 <= k ->
  -1074 <= e + k -> e + k + 1 <= 971 ->
  exists (m' : Z) (m'' : positive) (e'' : Z),
    binary_round_aux float_prec float_emax false (Zpos M) e loc_Exact
    = S754_finite false m'' e''
    /\ Zpos M / 2 ^ k <= m' <= (Zpos M + 2 ^ (k - 1)) / 2 ^ k
    /\ ((Zpos m'' = m' /\ e'' = e + k)
        \/ (2 * Zpos m'' = m' /\ e'' = e + k + 1)).
Proof.
  intros Hd Hk Hlo Hhi.
  destruct (digits2_pos_bounds M) as [HMlo HMhi]. rewrite Hd in HMlo, HMhi.
  assert (Hpk : 0 < 2 ^ k) by (apply Z.pow_pos_nonneg; lia).
  assert (Hpk1 : 0 < 2 ^ (k - 1)) by (apply Z.pow_pos_nonneg; lia).
  assert (H2k : 2 ^ k = 2 * 2 ^ (k - 1)).
  { replace k with (Z.succ (k - 1)) at 1 by lia.
    now rewrite Z.pow_succ_r by lia. }
  replace (53 + k - 1) with (52 + k) in HMlo by lia.
  rewrite Z.pow_add_r in HMlo, HMhi by lia.
  (* the first shift *)
  unfold binary_round_aux.
  assert (Hshr : exists s,
             shr_fexp float_prec float_emax (Zpos M) e loc_Exact
             = ({| shr_m := Zpos M / 2 ^ k;
                   shr_r := Z.odd (Zpos M / 2 ^ (k - 1));
                   shr_s := s |}, e + k)).
  { unfold shr_fexp, fexp, emin, float_prec, float_emax.
    cbn [Zdigits2]. rewrite Hd.
    replace (Z.max (53 + k + e - 53) (3 - 1024 - 53) - e) with k by lia.
    destruct k as [|n|n]; try lia. cbn [shr shr_record_of_loc].
    destruct (iter_shr_1 (Zpos M) n (Pos2Z.is_nonneg M)
                {| shr_m := Zpos M; shr_r := false; shr_s := false |} 0)
      as [s Hs]; [lia | now rewrite Z.pow_0_r, Z.div_1_r |].
    exists s. rewrite Hs. reflexivity. }
  destruct Hshr as [s ->].
  set (m' := round_nearest_even _ _).
  assert (Hm' : Zpos M / 2 ^ k <= m' <= (Zpos M + 2 ^ (k - 1)) / 2 ^ k).
  { apply rounded_quotient_bounds; [lia | lia |].
    apply (round_nearest_even_bounds (Zpos M / 2 ^ k)
             (Z.odd (Zpos M / 2 ^ (k - 1))) s). }
  assert (Hrange : 2 ^ 52 <= m' <= 2 ^ 53).
  { split.
    - apply Z.le_trans with (Zpos M / 2 ^ k); [|lia].
      apply Z.div_le_lower_bound; lia.
    - apply Z.le_trans with ((Zpos M + 2 ^ (k - 1)) / 2 ^ k); [lia|].
      apply Z.lt_succ_r. apply Z.div_lt_upper_bound; lia. }
  exists m'.
  destruct m' as [|pm'|pm'] eqn:Epm; try lia.
  destruct (Z.eq_dec (Zpos pm') (2 ^ 53)) as [Hcarry | Hnocarry].
  - (* the rounding carried *)
    injection Hcarry as ->.
    exists 4503599627370496%positive, (e + k + 1).
    split; [|split; [exact Hm' | right; split; reflexivity]].
    unfold shr_fexp, fexp, emin, float_prec, float_emax.
    cbn [Zdigits2 digits2_pos Pos.succ].
    replace (Z.max (54 + (e + k) - 53) (3 - 1024 - 53) - (e + k)) with 1
      by lia.
    cbn [shr shr_record_of_loc iter_pos shr_1 shr_m orb].
    destruct (e + k + 1 <=? 1024 - 53) eqn:E; [reflexivity|].
    apply Z.leb_gt in E. lia.
  - exists pm', (e + k).
    split; [|split; [exact Hm' | left; split; reflexivity]].
    rewrite shr_fexp_exact; [| apply digits2_pos_unique; lia | lia].
    cbn [shr_m]. unfold float_prec, float_emax.
    destruct (e + k <=? 1024 - 53) eqn:E; [reflexivity|].
    apply Z.leb_gt in E. lia.
Qed.

(** *** The product by 1.3 *)

(** An [int] below [2^52] converts exactly, to a 53-bit mantissa. *)
Lemma float_of_int_exact (p : positive) :
  Zpos p < 2 ^ 52 ->
  exists mz : positive,
    float_of_int (Zpos p)
    = Ok (S754_finite false mz (Zpos (digits2_pos p) - 53))
    /\ Zpos mz = Zpos p * 2 ^ (53 - Zpos (digits2_pos p))
    /\ Zpos (digits2_pos mz) = 53.
Proof.
  intros Hp. destruct (digits2_pos_bounds p) as [Hlo Hhi].
  unfold float_of_int, binary_normalize, binary_round, shl_align.
  unfold fexp, emin, float_prec, float_emax.
  change (binary_round_aux 53 1024)
    with (binary_round_aux float_prec float_emax).
  set (d := Zpos (digits2_pos p)) in *.
  assert (Hd1 : 1 <= d) by (unfold d; lia). clearbody d.
  assert (Hd : 1 <= d <= 52).
  { split; [assumption|].
    destruct (Z_le_gt_dec d 52) as [|Hgt]; [assumption | exfalso].
    assert (2 ^ 52 <= 2 ^ (d - 1)) by (apply Z.pow_le_mono_r; lia). lia. }
  replace (Z.max (d + 0 - 53) (3 - 1024 - 53)) with (d - 53) by lia.
  replace (d - 53 - 0) with (d - 53) by lia.
  destruct (d - 53) as [|n|n] eqn:En; try lia.
  assert (Hn : Zpos n = 53 - d) by (clear - En; lia).
  set (mz := Pos.iter xO p n).
  assert (Hmz : Zpos mz = Zpos p * 2 ^ (53 - d))
    by (unfold mz; rewrite pos_iter_xO, Hn; reflexivity).
  clearbody mz.
  assert (Hpow : 2 ^ (d - 1) * 2 ^ (53 - d) = 2 ^ 52).
  { rewrite <- Z.pow_add_r by lia. f_equal. lia. }
  assert (Hpow' : 2 ^ d * 2 ^ (53 - d) = 2 ^ 53).
  { rewrite <- Z.pow_add_r by lia. f_equal. lia. }
  assert (HA : 0 < 2 ^ (53 - d)) by (apply Z.pow_pos_nonneg; lia).
  assert (Hdig : Zpos (digits2_pos mz) = 53).
  { apply digits2_pos_unique. rewrite Hmz. change (53 - 1) with 52. nia. }
  exists mz. split; [|split; assumption].
  rewrite <- En.
  rewrite binary_round_aux_exact by (assumption || lia). reflexivity.
Qed.

(** Below [2^49] words, the float product truncates to the exact
    [floor (13 * w / 10)]. *)
Lemma num_tokens_exact (w : Z) :
  0 <= w < 2 ^ 49 -> _num_tokens_from_words w = Ok (13 * w / 10).
Proof.
  intros [Hw0 Hw]. destruct w as [|p|p]; [reflexivity | | lia].
  destruct (float_of_int_exact p) as (mz & Hconv & Hmz & Hdig); [lia|].
  destruct (digits2_pos_bounds p) as [Hdlo Hdhi].
  destruct (digits2_pos_bounds mz) as [Hmzlo Hmzhi].
  rewrite Hdig in Hmzlo, Hmzhi. change (53 - 1) with 52 in Hmzlo.
  set (d := Zpos (digits2_pos p)) in *.
  assert (Hd : 1 <= d <= 49).
  { split; [unfold d; lia|].
    destruct (Z_le_gt_dec d 49) as [|Hgt]; [assumption | exfalso].
    assert (2 ^ 49 <= 2 ^ (d - 1)) by (apply Z.pow_le_mono_r; lia). lia. }
  set (A := 2 ^ (53 - d)) in *.
  assert (HA : 16 <= A).
  { change 16 with (2 ^ 4). apply Z.pow_le_mono_r; lia. }
  unfold _num_tokens_from_words, mul_int_float. rewrite Hconv.
  cbn [bind SFmul float_1_3 xorb].
  set (M := (mz * 5854679515581645)%positive).
  assert (HM : Zpos M = Zpos p * A * 5854679515581645)
    by (unfold M; rewrite Pos2Z.inj_mul, Hmz; reflexivity).
  (* the product has 105 or 106 bits *)
  destruct (digits2_pos_bounds M) as [HMlo HMhi].
  set (D := Zpos (digits2_pos M)) in *.
  assert (HD : D = 105 \/ D = 106).
  { assert (HM104 : 2 ^ 104 <= Zpos M) by (rewrite HM, <- Hmz; nia).
    assert (HM106 : Zpos M < 2 ^ 106) by (rewrite HM, <- Hmz; nia).
    destruct (Z_le_gt_dec D 104) as [Hle|Hgt].
    - assert (2 ^ D <= 2 ^ 104) by (apply Z.pow_le_mono_r; lia). lia.
    - destruct (Z_le_gt_dec D 106) as [Hle'|Hgt']; [lia|].
      assert (2 ^ 106 <= 2 ^ (D - 1)) by (apply Z.pow_le_mono_r; lia). lia. }
  destruct (binary_round_aux_shift M (d - 53 + -52) (D - 53))
    as (m' & m'' & e'' & -> & Hm' & Hfinal);
    [unfold D; lia | lia | lia | lia |].
  cbn [int_of_float cond_Zopp]. f_equal.
  (* the integer part of the rounded product *)
  set (k := D - 53) in *. set (e0 := d - 53 + -52) in *.
  set (N := 2 ^ (- (e0 + k))).
  assert (HN : 0 < N) by (apply Z.pow_pos_nonneg; lia).
  assert (HkN : 2 ^ k * N = 2 ^ 52 * A).
  { unfold N, A, e0. rewrite <- !Z.pow_add_r by lia. f_equal. lia. }
  assert (Hpk : 0 < 2 ^ k) by (apply Z.pow_pos_nonneg; lia).
  assert (Hres : Z.shiftl (Zpos m'') e'' = m' / N).
  { assert (He'' : e'' < 0) by (destruct Hfinal as [[_ ->] | [_ ->]]; lia).
    replace e'' with (- - e'') by lia.
    change (Z.shiftl (Zpos m'') (- - e'')) with (Z.shiftr (Zpos m'') (- e'')).
    rewrite Z.shiftr_div_pow2 by lia.
    destruct Hfinal as [[-> ->] | [<- ->]]; [reflexivity|].
    unfold N.
    replace (- (e0 + k)) with (Z.succ (- (e0 + k + 1))) by lia.
    rewrite Z.pow_succ_r by lia.
    rewrite Z.div_mul_cancel_l; [reflexivity | | lia].
    apply Z.pow_nonzero; lia. }
  rewrite Hres.
  set (n := 13 * Zpos p / 10).
  assert (Hn : 10 * n <= 13 * Zpos p <= 10 * n + 9).
  { unfold n. pose proof (Z.div_mod (13 * Zpos p) 10).
    pose proof (Z.mod_pos_bound (13 * Zpos p) 10). lia. }
  assert (Hhalf : 2 ^ (k - 1) <= 2 ^ 52)
    by (apply Z.pow_le_mono_r; lia).
  change (2 ^ 52) with 4503599627370496 in *.
  change (2 ^ 53) with 9007199254740992 in *.
  apply Z.le_antisymm.
  - (* at most [n] *)
    apply Z.lt_succ_r.
    apply Z.le_lt_trans with ((Zpos M + 2 ^ (k - 1)) / 2 ^ k / N).
    + apply Z.div_le_mono; lia.
    + rewrite Z.div_div, HkN by lia.
      apply Z.div_lt_upper_bound; [lia|]. rewrite HM. nia.
  - (* at least [n] *)
    apply Z.le_trans with (Zpos M / 2 ^ k / N).
    + rewrite Z.div_div, HkN by lia.
      apply Z.div_le_lower_bound; [lia|]. rewrite HM. nia.
    + apply Z.div_le_mono; lia.
Qed.

Lemma Qfloor_times_13_10 (w : Z) :
  Qfloor (inject_Z w * (13 # 10)) = 13 * w / 10.
Proof.
  unfold Qfloor, inject_Z, Qmult. simpl Qnum. simpl Qden. f_equal. lia.
Qed.

Lemma Qfloor_times_4 (t : Z) : Qfloor (inject_Z t * inject_Z 4) = t * 4.
Proof. unfold Qfloor, inject_Z, Qmult. simpl. apply Z.div_1_r. Qed.

(** The literal 1.3 is the float nearest to 13/10. *)
Example float_1_3_nearest :
  SFdiv float_prec float_emax
    (binary_normalize float_prec float_emax 13 0 false)
    (binary_normalize float_prec float_emax 10 0 false)
  = float_1_3.
Proof. reflexivity. Qed.

(** C10. For every word count [w >= 0], [_num_tokens_from_words w] is
    the floor of the float product [w * 1.3]; below [2^49] words that is
    also the floor of the exact product of [w] by 13/10. For every token
    count [t >= 0], [_num_chars_from_tokens t] is the floor of [t * 4]. *)
Theorem token_estimates_are_floors (w t : Z) :
  0 <= w -> 0 <= t ->
  _num_tokens_from_words w
  = (let* x := mul_int_float w float_1_3 in floor_of_float x)
  /\ (w < 2 ^ 49 ->
      _num_tokens_from_words w = Ok (Qfloor (inject_Z w * (13 # 10))))
  /\ _num_chars_from_tokens t = Qfloor (inject_Z t * inject_Z 4).
Proof.
  intros Hw Ht. split; [|split].
  - now apply num_tokens_is_floor.
  - intros Hlt. rewrite Qfloor_times_13_10. apply num_tokens_exact. lia.
  - now rewrite Qfloor_times_4.
Qed.

Lemma token_estimates_are_floors_witness :
  0 <= 1024 /\ 0 <= 1331 /\ 1024 < 2 ^ 49
  /\ _num_tokens_from_words 1024 = Ok 1331
  /\ _num_chars_from_tokens 1331 = 5324.
Proof.
  assert (Hw : 0 <= 1024) by discriminate.
  assert (Ht : 0 <= 1331) by discriminate.
  assert (Hlt : 1024 < 2 ^ 49) by reflexivity.
  split; [exact Hw | split; [exact Ht | split; [exact Hlt|]]].
  destruct (token_estimates_are_floors 1024 1331 Hw Ht)
    as (_ & Hexact & Hchars).
  split; [exact (Hexact Hlt) | exact Hchars].
Defined.

(** From [2^49] words on, the float product can round up past the exact
    one: the bound above cannot be dropped. *)
Example float_product_rounds_up :
  2 ^ 49 <= 863139978908363
  /\ _num_tokens_from_words 863139978908363 = Ok 1122081972580872
  /\ 13 * 863139978908363 / 10 = 1122081972580871.
Proof. repeat split. discriminate. Qed.

(** * Further properties *)

(** ** The dictionary of [split_docs_by_filetype] *)

Lemma dict_append_get (d : list (string * list Path)) (k k' : string)
    (p : Path) :
  dict_get (dict_append d k p) k'
  = if String.eqb k k'
    then Some (match dict_get d k with Some v => v ++ [p] | None => [p] end)
    else dict_get d k'.
Proof.
  induction d as [|[k0 v] d IH]; simpl.
  - destruct (String.eqb k k'); reflexivity.
  - destruct (String.eqb k0 k) eqn:E0; simpl.
    + apply String.eqb_eq in E0. subst k0.
      destruct (String.eqb k k'); reflexivity.
    + rewrite IH. destruct (String.eqb k k') eqn:E.
      * apply String.eqb_eq in E. subst k'. now rewrite E0.
      * reflexivity.
Qed.

Lemma dict_get_in (d : list (string * list Path)) (k : string)
    (v : list Path) :
  NoDup (map fst d) -> (In (k, v) d <-> dict_get d k = Some v).
Proof.
  induction d as [|[k0 v0] d IH]; simpl; intros Hnd.
  - split; [tauto | discriminate].
  - inversion Hnd as [|? ? Hnotin Hnd']; subst.
    destruct (String.eqb k0 k) eqn:E.
    + apply String.eqb_eq in E. subst k0. split.
      * intros [[= ->] | Hin]; [reflexivity|].
        exfalso. apply Hnotin. now apply (in_map fst) in Hin.
      * intros [= ->]. now left.
    + apply String.eqb_neq in E. rewrite <- IH by assumption. split.
      * intros [[= -> _] | Hin]; [congruence | assumption].
      * now right.
Qed.

Lemma with_suffix_cons (k : string) (p : Path) (paths : list Path) :
  with_suffix k (p :: paths)
  = if String.eqb (suffix p) k then p :: with_suffix k paths
    else with_suffix k paths.
Proof. reflexivity. Qed.

(** The loop files every path under its extension, after what the
    dictionary already holds. *)
Lemma split_docs_loop_values (paths : list Path) :
  forall d d',
    split_docs_loop paths d = Ok d' ->
    forall k,
      dict_get d' k
      = match dict_get d k, with_suffix k paths with
        | Some v, new => Some (v ++ new)
        | None, [] => None
        | None, new => Some new
        end.
Proof.
  induction paths as [|p paths IH]; intros d d' Hloop k.
  - injection Hloop as <-. simpl. destruct (dict_get d k); [|reflexivity].
    now rewrite app_nil_r.
  - rewrite split_docs_loop_cons in Hloop.
    destruct (negb (existsb (String.eqb (suffix p)) SUPPORTED_FILETYPES));
      [discriminate|].
    rewrite (IH _ _ Hloop k), dict_append_get, with_suffix_cons.
    destruct (String.eqb (suffix p) k) eqn:E.
    + apply String.eqb_eq in E. subst k.
      destruct (dict_get d (suffix p)); [now rewrite <- app_assoc|reflexivity].
    + destruct (dict_get d k); reflexivity.
Qed.

Lemma split_docs_by_filetype_filed (paths : list Path) :
  Forall supported paths ->
  exists d,
    split_docs_by_filetype paths = Ok d
    /\ NoDup (map fst d)
    /\ forall k v, In (k, v) d <-> (v = with_suffix k paths /\ v <> []).
Proof.
  intros Hsup.
  destruct (split_docs_loop_supported paths Hsup [] (NoDup_nil _))
    as (d & Hloop & Hnd & _).
  exists d. split; [exact Hloop | split; [exact Hnd|]].
  intros k v. rewrite (dict_get_in d k v Hnd).
  rewrite (split_docs_loop_values paths [] d Hloop k). simpl.
  destruct (with_suffix k paths) as [|p ps]; split.
  - discriminate.
  - intros [-> Hne]. congruence.
  - intros [= <-]. split; [reflexivity | discriminate].
  - intros [-> _]. reflexivity.
Qed.

(** X1. On supported paths [split_docs_by_filetype] returns a dictionary
    with distinct keys in which every path is filed under its own
    extension: the value under a key is the list of the paths with that
    extension, in input order, and no key has an empty value. *)
Theorem split_docs_by_filetype_partition (paths : list Path) :
  Forall supported paths ->
  exists d,
    split_docs_by_filetype paths = Ok d
    /\ NoDup (map fst d)
    /\ forall k v, In (k, v) d <-> (v = with_suffix k paths /\ v <> []).
Proof. exact (split_docs_by_filetype_filed paths). Qed.

Lemma split_docs_by_filetype_partition_witness :
  let paths := [toy_path "a" ".pdf"; toy_path "b" ".md";
                toy_path "c" ".pdf"] in
  Forall supported paths
  /\ exists d,
       split_docs_by_filetype paths = Ok d
       /\ NoDup (map fst d)
       /\ forall k v, In (k, v) d <-> (v = with_suffix k paths /\ v <> []).
Proof.
  intros paths.
  assert (Hsup : Forall supported paths).
  { constructor; [left; reflexivity|].
    constructor; [right; left; reflexivity|].
    constructor; [left; reflexivity | constructor]. }
  split; [exact Hsup|].
  exact (split_docs_by_filetype_partition paths Hsup).
Defined.

Example split_docs_by_filetype_mixed :
  split_docs_by_filetype
    [toy_path "a" ".pdf"; toy_path "b" ".md"; toy_path "c" ".pdf"]
  = Ok [(".pdf", [toy_path "a" ".pdf"; toy_path "c" ".pdf"]);
        (".md", [toy_path "b" ".md"])].
Proof. reflexivity. Qed.

Lemma first_unsupported (paths : list Path) :
  Forall supported paths
  \/ exists pre p post,
       paths = pre ++ p :: post /\ Forall supported pre /\ ~ supported p.
Proof.
  induction paths as [|q paths IH]; [left; constructor|].
  destruct (in_dec string_dec (suffix q) SUPPORTED_FILETYPES) as [Hq|Hq].
  - destruct IH as [Hall | (pre & p & post & -> & Hpre & Hp)].
    + left. now constructor.
    + right. exists (q :: pre), p, post.
      split; [reflexivity | split; [now constructor | assumption]].
  - right. exists [], q, paths.
    split; [reflexivity | split; [constructor | assumption]].
Qed.

(** X2. [split_docs_by_filetype] either returns a dictionary, and then
    every path is supported, or raises the unsupported-filetype error
    for the first path whose extension is not supported; it has no other
    outcome. *)
Theorem split_docs_by_filetype_outcome (paths : list Path) :
  (Forall supported paths /\ exists d, split_docs_by_filetype paths = Ok d)
  \/ (exists pre p post,
        paths = pre ++ p :: post
        /\ Forall supported pre /\ ~ supported p
        /\ split_docs_by_filetype paths
           = Raise (UnsupportedFileType (suffix p))).
Proof.
  destruct (first_unsupported paths)
    as [Hall | (pre & p & post & -> & Hpre & Hp)].
  - left. split; [assumption|].
    destruct (split_docs_by_filetype_filed paths Hall) as (d & Hd & _).
    now exists d.
  - right. exists pre, p, post. repeat split; try assumption.
    now apply split_docs_loop_unsupported.
Qed.

(** ** Successful construction *)

Lemma with_suffix_all (k : string) (paths : list Path) :
  (forall p, In p paths -> suffix p = k) -> with_suffix k paths = paths.
Proof.
  induction paths as [|p paths IH]; intros Hall; [reflexivity|].
  rewrite with_suffix_cons, (Hall p (or_introl eq_refl)), String.eqb_refl.
  f_equal. apply IH. intros q Hq. apply Hall. now right.
Qed.

Lemma with_suffix_in (k : string) (p : Path) (paths : list Path) :
  In p (with_suffix k paths) -> In p paths /\ suffix p = k.
Proof.
  unfold with_suffix. rewrite filter_In. intros [Hin Heq].
  now apply String.eqb_eq in Heq.
Qed.

(** Paths of one supported extension make a dictionary with one entry. *)
Lemma split_docs_by_filetype_single (p0 : Path) (rest : list Path) :
  Forall supported (p0 :: rest) ->
  (forall p, In p rest -> suffix p = suffix p0) ->
  split_docs_by_filetype (p0 :: rest) = Ok [(suffix p0, p0 :: rest)].
Proof.
  intros Hsup Hsame.
  assert (Hall : forall p, In p (p0 :: rest) -> suffix p = suffix p0).
  { intros p [<- | Hp]; [reflexivity | now apply Hsame]. }
  destruct (split_docs_by_filetype_filed _ Hsup) as (d & -> & Hnd & Hd).
  f_equal.
  assert (Hkeys : forall k v, In (k, v) d -> k = suffix p0 /\ v = p0 :: rest).
  { intros k v Hin. apply Hd in Hin as [-> Hne].
    assert (Hk : k = suffix p0).
    { destruct (with_suffix k (p0 :: rest)) as [|q qs] eqn:E; [congruence|].
      assert (Hq : In q (with_suffix k (p0 :: rest)))
        by (rewrite E; now left).
      apply with_suffix_in in Hq as [Hq <-]. now apply Hall. }
    split; [assumption|]. subst k. now apply with_suffix_all. }
  assert (Hin0 : In (suffix p0, p0 :: rest) d).
  { apply Hd. rewrite with_suffix_all by assumption.
    split; [reflexivity | discriminate]. }
  destruct d as [|[k1 v1] [|[k2 v2] d]]; [contradiction | |].
  - destruct Hin0 as [<- | [ ] ]. reflexivity.
  - exfalso.
    destruct (Hkeys k1 v1 (or_introl eq_refl)) as [-> _].
    destruct (Hkeys k2 v2 (or_intror (or_introl eq_refl))) as [-> _].
    inversion Hnd as [|? ? Hnotin _]; subst. apply Hnotin. now left.
Qed.

(** X3. A non-empty list of paths that all carry the same supported
    extension, with a tokenizer that loads, constructs a chunker whose
    file type is that extension and whose document paths are exactly the
    given paths in their order; the converter is initialised before the
    tokenizer is loaded. *)
Theorem init_keeps_paths `{Backends} (p0 : Path) (rest : list Path)
    (tokenizer_model_name : string) (docling_model_path : option string)
    (ctx_size word_count : Z) (tok : Tokenizer) :
  Forall supported (p0 :: rest) ->
  (forall p, In p rest -> suffix p = suffix p0) ->
  load_tokenizer tokenizer_model_name = Ok tok ->
  exists self,
    __init__ (p0 :: rest) tokenizer_model_name docling_model_path
      ctx_size word_count
    = (Ok self,
       converter_events docling_model_path
       ++ [LoadTokenizer tokenizer_model_name])
    /\ document_filetype self = suffix p0
    /\ document_paths self = p0 :: rest
    /\ converter self = convert_all (resolved_model_path docling_model_path)
    /\ chunk_word_count self = word_count
    /\ tokenizer self = tok.
Proof.
  intros Hsup Hsame Htok. unfold __init__.
  rewrite (split_docs_by_filetype_single p0 rest Hsup Hsame).
  cbn [List.length Z.of_nat Z.ltb Z.compare]. rewrite Htok.
  destruct docling_model_path as [mp|]; eexists; split; try reflexivity;
    repeat split; reflexivity.
Qed.

Lemma init_keeps_paths_witness :
  let a := toy_path "a" ".pdf" in
  let b := toy_path "b" ".pdf" in
  Forall supported [a; b]
  /\ (forall p, In p [b] -> suffix p = suffix a)
  /\ @load_tokenizer toy_backends "model" = Ok char_tokenizer
  /\ exists self,
       @__init__ toy_backends [a; b] "model" None 4096 1024
       = (Ok self, converter_events None ++ [LoadTokenizer "model"])
       /\ document_filetype self = suffix a
       /\ document_paths self = [a; b]
       /\ converter self = convert_all (resolved_model_path None)
       /\ chunk_word_count self = 1024
       /\ tokenizer self = char_tokenizer.
Proof.
  intros a b.
  assert (Hsup : Forall supported [a; b]).
  { constructor; [left; reflexivity|].
    constructor; [left; reflexivity | constructor]. }
  assert (Hsame : forall p, In p [b] -> suffix p = suffix a).
  { intros p [<- | [ ] ]. reflexivity. }
  split; [exact Hsup | split; [exact Hsame | split; [reflexivity|]]].
  exact (@init_keeps_paths toy_backends a [b] "model" None 4096 1024
           char_tokenizer Hsup Hsame eq_refl).
Defined.

(** X4. When the tokenizer fails to load, construction raises that
    exception, and only after the converter was initialised: the docling
    models are fetched and the OCR backends probed before the tokenizer
    error is found. *)
Theorem init_tokenizer_failure `{Backends} (p0 : Path) (rest : list Path)
    (tokenizer_model_name : string) (docling_model_path : option string)
    (ctx_size word_count : Z) (e : exn) :
  Forall supported (p0 :: rest) ->
  (forall p, In p rest -> suffix p = suffix p0) ->
  load_tokenizer tokenizer_model_name = Raise e ->
  __init__ (p0 :: rest) tokenizer_model_name docling_model_path
    ctx_size word_count
  = (Raise e,
     converter_events docling_model_path
     ++ [LoadTokenizer tokenizer_model_name]).
Proof.
  intros Hsup Hsame Htok. unfold __init__.
  rewrite (split_docs_by_filetype_single p0 rest Hsup Hsame).
  cbn [List.length Z.of_nat Z.ltb Z.compare]. rewrite Htok.
  destruct docling_model_path; reflexivity.
Qed.

Lemma init_tokenizer_failure_witness :
  let a := toy_path "a" ".md" in
  Forall supported [a]
  /\ (forall p, In p [] -> suffix p = suffix a)
  /\ @load_tokenizer toy_backends_without_tokenizer "model"
     = Raise (ValueError "no valid model")
  /\ @__init__ toy_backends_without_tokenizer [a] "model" None 4096 1024
     = (Raise (ValueError "no valid model"),
        [DownloadDoclingModels; ProbeOcrBackends; LoadTokenizer "model"]).
Proof.
  intros a.
  assert (Hsup : Forall supported [a]).
  { constructor; [right; left; reflexivity | constructor]. }
  assert (Hsame : forall p, In p [] -> suffix p = suffix a)
    by (intros p [ ]).
  split; [exact Hsup | split; [exact Hsame | split; [reflexivity|]]].
  exact (@init_tokenizer_failure toy_backends_without_tokenizer a []
           "model" None 4096 1024 (ValueError "no valid model")
           Hsup Hsame eq_refl).
Defined.

(** ** More on fusion *)

Lemma fuse_groups_all_long `{Backends} (self : DocumentChunker) (thr : Z)
    (texts : list string) :
  Forall (fun t => thr < get_token_count t (tokenizer self)) texts ->
  forall groups,
    fuse_groups self thr texts groups
    = groups ++ map (fun t => [t]) texts.
Proof.
  induction 1 as [|text texts Hlong _ IH]; intros groups.
  - simpl. now rewrite app_nil_r.
  - unfold fuse_groups. cbn [fold_left map].
    fold (fuse_groups self thr texts (group_step self thr groups text)).
    rewrite group_step_open.
    + rewrite IH, <- app_assoc. reflexivity.
    + apply andb_false_iff. left. now apply Z.leb_gt.
Qed.

Lemma map_join_singletons (texts : list string) :
  map join (map (fun t => [t]) texts) = texts.
Proof.
  induction texts as [|t texts IH]; [reflexivity|].
  cbn [map]. rewrite IH. reflexivity.
Qed.

(** X5. When the token count of every chunk exceeds the threshold,
    [fuse_texts] returns the chunk list unchanged. *)
Theorem fuse_texts_all_long `{Backends} (self : DocumentChunker) (thr : Z)
    (L : list string) :
  Forall (fun t => thr < get_token_count t (tokenizer self)) L ->
  fuse_texts self L thr = Ok L.
Proof.
  intros Hlong. rewrite fuse_texts_groups.
  rewrite (fuse_groups_all_long self thr L Hlong []).
  cbn [app]. now rewrite map_join_singletons.
Qed.

Lemma fuse_texts_all_long_witness :
  Forall (fun t => 1 < get_token_count t (tokenizer (toy_chunker [])))
    ["ab"; "cde"]
  /\ fuse_texts (toy_chunker []) ["ab"; "cde"] 1 = Ok ["ab"; "cde"].
Proof.
  assert (Hlong : Forall (fun t =>
            1 < get_token_count t (tokenizer (toy_chunker [])))
            ["ab"; "cde"]).
  { constructor; [reflexivity|]. constructor; [reflexivity | constructor]. }
  split; [exact Hlong|].
  exact (fuse_texts_all_long (toy_chunker []) 1 ["ab"; "cde"] Hlong).
Defined.

Lemma length_groups (groups : list (list string)) :
  Forall (fun g => g <> []) groups ->
  (List.length groups <= List.length (List.concat groups))%nat.
Proof.
  induction 1 as [|g groups Hg _ IH]; [reflexivity|].
  cbn [List.concat List.length]. rewrite length_app.
  destruct g; [congruence | simpl; lia].
Qed.

(** X6. [fuse_texts] never returns more entries than it was given
    chunks, and returns no entry only for the empty chunk list. *)
Theorem fuse_texts_length `{Backends} (self : DocumentChunker) (thr : Z)
    (L : list string) :
  exists out,
    fuse_texts self L thr = Ok out
    /\ (List.length out <= List.length L)%nat
    /\ (out = [] <-> L = []).
Proof.
  destruct (fuse_texts_partition self L thr)
    as (groups & Hout & Hcat & Hne & _).
  exists (map join groups). split; [exact Hout | split].
  - rewrite length_map, <- Hcat. now apply length_groups.
  - split.
    + intros Hnil. apply map_eq_nil in Hnil. subst groups. now rewrite <- Hcat.
    + intros ->. destruct groups as [|g groups]; [reflexivity|].
      inversion Hne as [|? ? Hg _]; subst.
      destruct g; [congruence | discriminate].
Qed.

(** X7. Later chunks never change the entries already closed: the
    output for a prefix of the chunk list reappears at the start of the
    output for the whole list, except that its last entry may have grown
    at its end. *)
Theorem fuse_texts_prefix `{Backends} (self : DocumentChunker) (thr : Z)
    (pre post : list string) :
  pre <> [] ->
  exists fused last tail more,
    fuse_texts self pre thr = Ok (fused ++ [last])
    /\ fuse_texts self (pre ++ post) thr
       = Ok (fused ++ (last ++ tail)%string :: more).
Proof.
  intros Hpre.
  assert (Hne : Forall (fun g : list string => g <> [])
                  (fuse_groups self thr pre []))
    by (apply fuse_groups_nonempty; constructor).
  pose proof (fuse_groups_concat self thr pre) as Hcat.
  rewrite !fuse_texts_groups, fuse_groups_app.
  revert Hne Hcat. generalize (fuse_groups self thr pre []).
  intros groups. destruct groups as [|g G _] using rev_ind; intros Hne Hcat.
  { simpl in Hcat. congruence. }
  apply Forall_app in Hne as [_ Hg]. apply Forall_inv in Hg.
  destruct (fuse_groups_grow self thr post G g Hg) as (g2 & G2 & -> & _).
  destruct g as [|t g]; [congruence|].
  assert (Htail : exists tail,
             join ((t :: g) ++ g2) = (join (t :: g) ++ tail)%string).
  { destruct g2 as [|t2 g2].
    - exists "". now rewrite app_nil_r, string_app_empty_r.
    - exists (blank_line ++ join (t2 :: g2))%string.
      unfold join. now rewrite concat_sep_app by discriminate. }
  destruct Htail as [tail Htail].
  exists (map join G), (join (t :: g)), tail, (map join G2).
  rewrite !map_app. cbn [map app].
  change (t :: g ++ g2) with ((t :: g) ++ g2). now rewrite Htail.
Qed.

Lemma fuse_texts_prefix_witness :
  ["ab"; "c"] <> []
  /\ exists fused last tail more,
       fuse_texts (toy_chunker []) ["ab"; "c"] 1 = Ok (fused ++ [last])
       /\ fuse_texts (toy_chunker []) (["ab"; "c"] ++ ["d"; "ef"]) 1
          = Ok (fused ++ (last ++ tail)%string :: more).
Proof.
  assert (Hne : ["ab"; "c"] <> []) by discriminate.
  split; [exact Hne|].
  exact (fuse_texts_prefix (toy_chunker []) 1 ["ab"; "c"] ["d"; "ef"] Hne).
Defined.

Lemma snoc_decomp {A : Type} (G1 : list A) (a : A) (G2 l : list A) (z : A) :
  G1 ++ a :: G2 = l ++ [z] ->
  (G2 = [] /\ G1 = l /\ a = z)
  \/ (exists G2', G2 = G2' ++ [z] /\ G1 ++ a :: G2' = l).
Proof.
  destruct G2 as [|y G2' _] using rev_ind; intros Heq.
  - left. change (G1 ++ [a]) with (G1 ++ [a]) in Heq.
    apply app_inj_tail in Heq as [-> ->]. auto.
  - right. exists G2'.
    change (G1 ++ a :: G2' ++ [y]) with (G1 ++ (a :: G2') ++ [y]) in Heq.
    rewrite app_assoc in Heq. apply app_inj_tail in Heq as [-> ->]. auto.
Qed.

Lemma truthy_false (s : string) : truthy s = false <-> s = "".
Proof. destruct s; simpl; split; congruence. Qed.

Section FusedEntries.
Context `{Backends}.
Variable self : DocumentChunker.
Variable thr : Z.

Lemma group_step_entries (groups : list (list string)) (x : string) :
  Forall (fun g => g <> []) groups ->
  merged_ok self thr groups -> opened_ok self thr groups ->
  merged_ok self thr (group_step self thr groups x)
  /\ opened_ok self thr (group_step self thr groups x).
Proof.
  intros Hne Hm Ho.
  destruct ((get_token_count x (tokenizer self) <=? thr)
            && truthy (starter groups)) eqn:Hc.
  - (* [x] joins the last group *)
    pose proof Hc as Hc'. apply andb_true_iff in Hc' as [Hx Ht].
    apply Z.leb_le in Hx.
    destruct (truthy_starter _ Ht) as (G & g & -> & Hg).
    rewrite group_step_merge by assumption.
    destruct g as [|t0 ts0]; [congruence|].
    rewrite starter_snoc in Ht.
    split.
    + intros G1 t ts G2 Heq. symmetry in Heq.
      apply snoc_decomp in Heq as [(-> & -> & Heq) | (G2' & -> & <-)].
      * injection Heq as -> ->.
        destruct (Hm G t0 ts0 [] eq_refl) as [Hshort _].
        split.
        -- apply Forall_app. split; [assumption|]. now repeat constructor.
        -- intros _ ->. discriminate.
      * apply (Hm G1 t ts (G2' ++ [t0 :: ts0])).
        now rewrite <- app_assoc.
    + intros G1 g1 t ts G2 Heq. symmetry in Heq.
      change (G1 ++ g1 :: (t :: ts) :: G2)
        with (G1 ++ [g1] ++ (t :: ts) :: G2) in Heq.
      rewrite app_assoc in Heq.
      apply snoc_decomp in Heq as [(-> & <- & Heq) | (G2' & -> & <-)].
      * injection Heq as -> ->.
        apply (Ho G1 g1 t0 ts0 []). now rewrite <- app_assoc.
      * apply (Ho G1 g1 t ts (G2' ++ [t0 :: ts0])).
        rewrite <- !app_assoc. reflexivity.
  - (* [x] opens a group *)
    rewrite group_step_open by assumption.
    split.
    + intros G1 t ts G2 Heq. symmetry in Heq.
      apply snoc_decomp in Heq as [(-> & -> & Heq) | (G2' & -> & <-)].
      * injection Heq as -> ->. split; [constructor | congruence].
      * now apply (Hm G1 t ts G2').
    + intros G1 g1 t ts G2 Heq. symmetry in Heq.
      change (G1 ++ g1 :: (t :: ts) :: G2)
        with (G1 ++ [g1] ++ (t :: ts) :: G2) in Heq.
      rewrite app_assoc in Heq.
      apply snoc_decomp in Heq as [(-> & <- & Heq) | (G2' & -> & <-)].
      * injection Heq as -> ->.
        apply andb_false_iff in Hc as [Hx | Ht].
        -- left. now apply Z.leb_gt.
        -- right. rewrite starter_snoc in Ht. apply truthy_false in Ht.
           destruct g1; assumption.
      * apply (Ho G1 g1 t ts G2'). now rewrite <- app_assoc.
Qed.

Lemma fuse_groups_entries (L : list string) :
  merged_ok self thr (fuse_groups self thr L [])
  /\ opened_ok self thr (fuse_groups self thr L []).
Proof.
  induction L as [|x L IH] using rev_ind.
  - split.
    + intros G1 t ts G2 Heq. destruct G1; discriminate.
    + intros G1 g1 t ts G2 Heq. destruct G1; discriminate.
  - rewrite fuse_groups_app. unfold fuse_groups at 1 3. cbn [fold_left].
    destruct IH as [Hm Ho]. apply group_step_entries; try assumption.
    apply fuse_groups_nonempty. constructor.
Qed.

End FusedEntries.

(** X8. The entries of [fuse_texts] are the input cut into groups such
    that: every chunk merged into an entry has a token count at or below
    the threshold, and the chunk that opened that entry is not the empty
    string; and every entry after the first was opened by a chunk whose
    token count exceeds the threshold, unless the entry before it was
    opened by the empty string. *)
Theorem fuse_texts_entries `{Backends} (self : DocumentChunker) (thr : Z)
    (L : list string) :
  exists groups : list (list string),
    fuse_texts self L thr = Ok (map join groups)
    /\ List.concat groups = L
    /\ (forall G1 t ts G2,
           groups = G1 ++ (t :: ts) :: G2 ->
           Forall (fun x => get_token_count x (tokenizer self) <= thr) ts
           /\ (ts <> [] -> t <> ""))
    /\ (forall G1 g1 t ts G2,
           groups = G1 ++ g1 :: (t :: ts) :: G2 ->
           thr < get_token_count t (tokenizer self) \/ hd "" g1 = "").
Proof.
  exists (fuse_groups self thr L []).
  destruct (fuse_groups_entries self thr L) as [Hm Ho].
  split; [apply fuse_texts_groups | split; [apply fuse_groups_concat|]].
  split; assumption.
Qed.

Lemma group_step_length_starter `{Backends} (self : DocumentChunker)
    (thr : Z) (groups : list (list string)) (x : string) :
  Forall (fun g => g <> []) groups ->
  if (get_token_count x (tokenizer self) <=? thr) && truthy (starter groups)
  then List.length (group_step self thr groups x) = List.length groups
       /\ starter (group_step self thr groups x) = starter groups
  else List.length (group_step self thr groups x) = S (List.length groups)
       /\ starter (group_step self thr groups x) = x.
Proof.
  intros Hne.
  destruct ((get_token_count x (tokenizer self) <=? thr)
            && truthy (starter groups)) eqn:Hc.
  - pose proof Hc as Hc'. apply andb_true_iff in Hc' as [_ Ht].
    destruct (truthy_starter _ Ht) as (G & g & -> & Hg).
    rewrite group_step_merge by assumption.
    rewrite !length_app, !starter_snoc. split; [reflexivity|].
    destruct g; [congruence | reflexivity].
  - rewrite group_step_open by assumption.
    rewrite length_app, starter_snoc. split; [simpl; lia | reflexivity].
Qed.

(** Two runs of the loop on the same texts, the second with the larger
    threshold: the second never has more groups. *)
Lemma fuse_groups_threshold `{Backends} (self : DocumentChunker)
    (thr1 thr2 : Z) (texts : list string) :
  thr1 <= thr2 ->
  forall G1 G2,
    Forall (fun g => g <> []) G1 ->
    Forall (fun g => g <> []) G2 ->
    (starter G2 = "" -> starter G1 = "") ->
    (List.length G2 <= List.length G1)%nat ->
    (List.length (fuse_groups self thr2 texts G2)
     <= List.length (fuse_groups self thr1 texts G1))%nat.
Proof.
  intros Hthr. induction texts as [|x texts IH];
    intros G1 G2 Hne1 Hne2 Hst Hlen; [exact Hlen|].
  unfold fuse_groups. cbn [fold_left].
  fold (fuse_groups self thr1 texts (group_step self thr1 G1 x)).
  fold (fuse_groups self thr2 texts (group_step self thr2 G2 x)).
  pose proof (group_step_length_starter self thr1 G1 x Hne1) as H1.
  pose proof (group_step_length_starter self thr2 G2 x Hne2) as H2.
  apply IH; try (now apply group_step_nonempty).
  - destruct ((get_token_count x (tokenizer self) <=? thr2)
              && truthy (starter G2)) eqn:Hc2.
    + destruct H2 as [_ ->]. apply andb_true_iff in Hc2 as [_ Ht].
      intros E. rewrite E in Ht. discriminate.
    + destruct H2 as [_ ->].
      assert (Hc1 : (get_token_count x (tokenizer self) <=? thr1)
                    && truthy (starter G1) = false).
      { apply andb_false_iff in Hc2 as [Hx | Ht].
        - apply andb_false_iff. left. apply Z.leb_gt in Hx.
          apply Z.leb_gt. lia.
        - apply andb_false_iff. right. apply truthy_false in Ht.
          now rewrite (Hst Ht). }
      rewrite Hc1 in H1. destruct H1 as [_ ->]. trivial.
  - destruct ((get_token_count x (tokenizer self) <=? thr2)
              && truthy (starter G2)) eqn:Hc2.
    + destruct H2 as [-> _].
      destruct ((get_token_count x (tokenizer self) <=? thr1)
                && truthy (starter G1)); destruct H1 as [-> _]; lia.
    + destruct H2 as [-> _].
      assert (Hc1 : (get_token_count x (tokenizer self) <=? thr1)
                    && truthy (starter G1) = false).
      { apply andb_false_iff in Hc2 as [Hx | Ht].
        - apply andb_false_iff. left. apply Z.leb_gt in Hx.
          apply Z.leb_gt. lia.
        - apply andb_false_iff. right. apply truthy_false in Ht.
          now rewrite (Hst Ht). }
      rewrite Hc1 in H1. destruct H1 as [-> _]. lia.
Qed.

(** X9. Raising the threshold never yields more entries: for thresholds
    [thr1 <= thr2], [fuse_texts] under [thr2] returns at most as many
    entries as under [thr1]; in particular the 200 of [chunk_documents]
    yields at most as many as the default 130. *)
Theorem fuse_texts_threshold_monotone `{Backends} (self : DocumentChunker)
    (thr1 thr2 : Z) (L : list string) :
  thr1 <= thr2 ->
  exists out1 out2,
    fuse_texts self L thr1 = Ok out1
    /\ fuse_texts self L thr2 = Ok out2
    /\ (List.length out2 <= List.length out1)%nat.
Proof.
  intros Hthr. rewrite !fuse_texts_groups. eexists _, _.
  split; [reflexivity | split; [reflexivity|]].
  rewrite !length_map.
  apply fuse_groups_threshold; trivial; constructor.
Qed.

Lemma fuse_texts_threshold_monotone_witness :
  fuse_texts_default_threshold <= 200
  /\ exists out1 out2,
       fuse_texts (toy_chunker []) ["ab"; "c"; "def"]
         fuse_texts_default_threshold = Ok out1
       /\ fuse_texts (toy_chunker []) ["ab"; "c"; "def"] 200 = Ok out2
       /\ (List.length out2 <= List.length out1)%nat.
Proof.
  assert (Hthr : fuse_texts_default_threshold <= 200) by discriminate.
  split; [exact Hthr|].
  exact (fuse_texts_threshold_monotone (toy_chunker [])
           fuse_texts_default_threshold 200 ["ab"; "c"; "def"] Hthr).
Defined.

(** ** More on the markdown clean-up *)

Lemma has_run_pipe_occurs (d : ascii) (s : string) :
  has_run_pipe d s = true
  <-> exists a b, s = (a ++ String d (String d (String pipe b)))%string.
Proof.
  split.
  - induction s as [|x s IH]; [discriminate|].
    cbn [has_run_pipe]. intros Hor. apply orb_true_iff in Hor as [Hst | Hs].
    + apply starts_run_pipe_inv in Hst as [-> [t ->]]. now exists "", t.
    + destruct (IH Hs) as (a & b & ->). now exists (String x a), b.
  - intros (a & b & ->). induction a as [|x a IH].
    + simpl. now rewrite !Ascii.eqb_refl.
    + simpl append. cbn [has_run_pipe]. rewrite IH. apply orb_true_r.
Qed.

Lemma clean_markdown_no_runs (s : string) :
  has_run_pipe dash (clean_markdown s) = false
  /\ has_run_pipe space (clean_markdown s) = false.
Proof.
  unfold clean_markdown. split.
  - apply (re_sub_run_clears space space_not_pipe dash
             (String.length (re_sub_run dash s)) dash_not_pipe);
      [lia | right].
    apply (re_sub_run_clears dash dash_not_pipe dash (String.length s)
             dash_not_pipe); [lia | now left].
  - apply (re_sub_run_clears space space_not_pipe space
             (String.length (re_sub_run dash s)) space_not_pipe);
      [lia | now left].
Qed.

Lemma no_run_pipe_no_occurrence (s a b : string) :
  (has_run_pipe dash s = false -> s <> (a ++ "--|" ++ b)%string)
  /\ (has_run_pipe space s = false -> s <> (a ++ "  |" ++ b)%string).
Proof.
  split; intros Hno Heq.
  - assert (Hocc : has_run_pipe dash s = true)
      by (apply has_run_pipe_occurs; now exists a, b).
    congruence.
  - assert (Hocc : has_run_pipe space s = true)
      by (apply has_run_pipe_occurs; now exists a, b).
    congruence.
Qed.

(** X10. After the clean-up no pipe is directly preceded by two dashes
    or by two spaces: neither ["--|"] nor ["  |"] occurs in the result. *)
Theorem clean_markdown_clears (s a b : string) :
  clean_markdown s <> (a ++ "--|" ++ b)%string
  /\ clean_markdown s <> (a ++ "  |" ++ b)%string.
Proof.
  destruct (clean_markdown_no_runs s) as [Hdash Hspace].
  destruct (no_run_pipe_no_occurrence (clean_markdown s) a b) as [Hd Hs].
  split; [now apply Hd | now apply Hs].
Qed.

(** X11. The clean-up leaves a text unchanged exactly when neither
    ["--|"] nor ["  |"] occurs in it. *)
Theorem clean_markdown_fixed_iff (s : string) :
  clean_markdown s = s
  <-> forall a b, s <> (a ++ "--|" ++ b)%string
                  /\ s <> (a ++ "  |" ++ b)%string.
Proof.
  split.
  - intros Hfix a b. rewrite <- Hfix.
    destruct (clean_markdown_no_runs s) as [Hdash Hspace].
    destruct (no_run_pipe_no_occurrence (clean_markdown s) a b) as [Hd Hs].
    split; [now apply Hd | now apply Hs].
  - intros Hno.
    assert (Hdash : has_run_pipe dash s = false).
    { destruct (has_run_pipe dash s) eqn:E; [|reflexivity].
      apply has_run_pipe_occurs in E as (a & b & E).
      now destruct (Hno a b) as [Hd _]. }
    assert (Hspace : has_run_pipe space s = false).
    { destruct (has_run_pipe space s) eqn:E; [|reflexivity].
      apply has_run_pipe_occurs in E as (a & b & E).
      now destruct (Hno a b) as [_ Hs]. }
    unfold clean_markdown.
    rewrite (re_sub_run_fixed dash s Hdash).
    apply (re_sub_run_fixed space s Hspace).
Qed.

Lemma span_run_keep (keep : ascii -> bool) (c : ascii) (s : string) :
  keep c = false ->
  keep_chars keep s = keep_chars keep (snd (span_run c s)).
Proof.
  intros Hc. induction s as [|a s IH]; [reflexivity|].
  cbn [span_run]. destruct (Ascii.eqb a c) eqn:E.
  - apply Ascii.eqb_eq in E. subst a. cbn [keep_chars]. rewrite Hc, IH.
    destruct (span_run c s) as [k rest]. reflexivity.
  - reflexivity.
Qed.

Lemma match_run_keep (keep : ascii -> bool) (c : ascii) (s rest : string) :
  keep c = false ->
  match_run c s = Some rest ->
  keep_chars keep s = keep_chars keep (String pipe rest)
  /\ (String.length rest + 3 <= String.length s)%nat.
Proof.
  intros Hc. unfold match_run.
  rewrite (span_run_keep keep c s Hc).
  assert (Hlen : forall t, (String.length (snd (span_run c t))
                            + fst (span_run c t) = String.length t)%nat).
  { induction t as [|a t IH]; [reflexivity|]. cbn [span_run].
    destruct (Ascii.eqb a c); [|simpl; lia].
    destruct (span_run c t) as [k r]. simpl in *. lia. }
  specialize (Hlen s).
  destruct (span_run c s) as [k r]. cbn [fst snd] in Hlen |- *.
  destruct (2 <=? k)%nat eqn:Hk; [|discriminate].
  apply Nat.leb_le in Hk.
  destruct r as [|p r]; [discriminate|].
  destruct (Ascii.eqb p pipe) eqn:Hp; [|discriminate].
  apply Ascii.eqb_eq in Hp. subst p. intros [= <-].
  split; [reflexivity | simpl in Hlen; lia].
Qed.

(** One substitution only deletes copies of its character. *)
Lemma re_sub_run_keep (keep : ascii -> bool) (c : ascii) (n : nat) :
  keep c = false ->
  forall s,
    (String.length s <= n)%nat ->
    keep_chars keep (re_sub_run c s) = keep_chars keep s
    /\ (String.length (re_sub_run c s) <= String.length s)%nat.
Proof.
  intros Hc. induction n as [|n IH]; intros s Hlen.
  - destruct s; [split; reflexivity | simpl in Hlen; lia].
  - destruct s as [|a s]; [split; reflexivity|].
    rewrite re_sub_run_cons.
    destruct (match_run c (String a s)) as [rest|] eqn:Hm.
    + destruct (match_run_keep keep c _ _ Hc Hm) as [Hkeep Hshort].
      destruct (IH rest) as [IHk IHl]; [simpl in *; lia|].
      split.
      * rewrite Hkeep. cbn [keep_chars]. now rewrite Hc, IHk.
      * simpl in *. lia.
    + destruct (IH s) as [IHk IHl]; [simpl in Hlen; lia|].
      split.
      * cbn [keep_chars]. now rewrite IHk.
      * simpl. lia.
Qed.

(** X12. The clean-up only deletes dashes and spaces: read through any
    character filter that drops dashes and spaces, the text is the same
    before and after, so every other character, pipes included, is kept
    in place and order; and the result is never longer than the input. *)
Theorem clean_markdown_only_deletes (keep : ascii -> bool) (s : string) :
  keep dash = false -> keep space = false ->
  keep_chars keep (clean_markdown s) = keep_chars keep s
  /\ (String.length (clean_markdown s) <= String.length s)%nat.
Proof.
  intros Hdash Hspace. unfold clean_markdown.
  destruct (re_sub_run_keep keep dash (String.length s) Hdash s (le_n _))
    as [Hk1 Hl1].
  destruct (re_sub_run_keep keep space
              (String.length (re_sub_run dash s)) Hspace
              (re_sub_run dash s) (le_n _)) as [Hk2 Hl2].
  split; [congruence | lia].
Qed.

Lemma clean_markdown_only_deletes_witness :
  not_dash_or_space dash = false
  /\ not_dash_or_space space = false
  /\ keep_chars not_dash_or_space (clean_markdown "| a   |---|")
     = keep_chars not_dash_or_space "| a   |---|"
  /\ (String.length (clean_markdown "| a   |---|")
      <= String.length "| a   |---|")%nat.
Proof.
  split; [reflexivity | split; [reflexivity|]].
  exact (clean_markdown_only_deletes not_dash_or_space "| a   |---|"
           eq_refl eq_refl).
Defined.

(** X13. Cleaning the documents beforehand changes nothing:
    [chunk_markdowns] returns the same chunks for already cleaned
    documents as for the raw ones. *)
Theorem chunk_markdowns_precleaned `{Backends} (documents : list string)
    (chunk_size : Z) :
  chunk_markdowns (map clean_markdown documents) chunk_size
  = chunk_markdowns documents chunk_size.
Proof.
  rewrite !chunk_markdowns_flat.
  induction documents as [|docs documents IH]; [reflexivity|].
  cbn [map flat_map]. now rewrite clean_markdown_idempotent, IH.
Qed.

(** ** More on the run *)

(** X14. A run is sequential: processing a batch [pre ++ post] is
    processing [pre] and then, from the chunks and log reached, [post];
    when a document of [pre] raises, the run stops there and nothing of
    [post] is chunked or logged. *)
Theorem chunk_documents_loop_app `{Backends} (self : DocumentChunker)
    (pre post : list (ConversionResult DoclingDocument))
    (all_chunks : list string) (log : list log_record) :
  chunk_documents_loop self (pre ++ post) all_chunks log
  = match chunk_documents_loop self pre all_chunks log with
    | (Ok chunks, log') => chunk_documents_loop self post chunks log'
    | (Raise e, log') => (Raise e, log')
    end.
Proof.
  revert all_chunks log.
  induction pre as [|cr pre IH]; intros all_chunks log; [reflexivity|].
  cbn [app]. rewrite !chunk_documents_loop_cons.
  destruct (final_chunks self (raw_chunks self cr)); [apply IH | reflexivity].
Qed.

(** X15. A word count whose token estimate raises (it is too large for
    a float) makes every run over a non-empty batch raise that exception
    at the first document, after at most that document's chunking error
    was logged; the run over an empty batch still returns no chunk. *)
Theorem chunk_documents_budget_error `{Backends} (self : DocumentChunker)
    (cr : ConversionResult DoclingDocument)
    (rest : list (ConversionResult DoclingDocument)) (e : exn) :
  _num_tokens_from_words (chunk_word_count self) = Raise e ->
  chunk_documents_loop self (cr :: rest) [] []
  = (Raise e, chunking_errors self cr)
  /\ chunk_documents_loop self [] [] [] = (Ok [], []).
Proof.
  intros He. split; [|reflexivity].
  rewrite chunk_documents_loop_cons. unfold final_chunks.
  rewrite fuse_texts_groups, He. reflexivity.
Qed.

Lemma chunk_documents_budget_error_witness :
  let d1 := toy_result "d1" SUCCESS (Ok ["a"]) in
  let self := toy_chunker_words (2 ^ 1024) [d1] in
  _num_tokens_from_words (chunk_word_count self) = Raise OverflowError
  /\ @chunk_documents_loop toy_backends self [d1] [] []
     = (Raise OverflowError, chunking_errors self d1)
  /\ @chunk_documents_loop toy_backends self [] [] [] = (Ok [], []).
Proof.
  intros d1 self.
  assert (He : _num_tokens_from_words (chunk_word_count self)
               = Raise OverflowError) by (vm_compute; reflexivity).
  split; [exact He|].
  exact (@chunk_documents_budget_error toy_backends self d1 [] OverflowError
           He).
Defined.

(** ** More on the export *)

Lemma export_documents_loop_files `{Backends}
    (docs : list (ConversionResult DoclingDocument)) :
  forall success_count failure_count files log,
    exists sc fc,
      export_documents_loop docs success_count failure_count files log
      = (sc, fc,
         files
         ++ flat_map exported_files
              (filter (fun d => is_success (status d)) docs),
         log
         ++ map (fun d => DocumentFailedToConvert (input_file d))
              (filter (fun d => negb (is_success (status d))) docs)).
Proof.
  induction docs as [|doc docs IH]; intros sc fc files log.
  - exists sc, fc. simpl. now rewrite !app_nil_r.
  - cbn [export_documents_loop filter].
    destruct (is_success (status doc)); cbn [negb flat_map map].
    + destruct (IH (sc + 1) fc (files ++ exported_files doc) log)
        as (sc' & fc' & Heq).
      exists sc', fc'. unfold exported_files in Heq at 1. rewrite Heq.
      now rewrite <- app_assoc.
    + destruct (IH sc (fc + 1) files
                  (log ++ [DocumentFailedToConvert (input_file doc)]))
        as (sc' & fc' & Heq).
      exists sc', fc'. rewrite Heq. now rewrite <- app_assoc.
Qed.

Lemma count_status_total {D : Type} (docs : list (ConversionResult D)) :
  count_status is_success docs
  + count_status (fun st => negb (is_success st)) docs
  = Z.of_nat (List.length docs).
Proof.
  unfold count_status. induction docs as [|doc docs IH]; [reflexivity|].
  cbn [filter List.length]. destruct (is_success (status doc));
    cbn [negb List.length]; lia.
Qed.

Lemma export_documents_written `{Backends}
    (docs : list (ConversionResult DoclingDocument)) :
  exists log,
    export_documents docs
    = (docling_artifacts_path,
       flat_map exported_files (filter (fun d => is_success (status d)) docs),
       log).
Proof.
  unfold export_documents.
  destruct (export_documents_loop_files docs 0 0 [] []) as (sc & fc & ->).
  eexists. reflexivity.
Qed.

(** X16. [export_documents] writes, for every conversion result with
    [SUCCESS] status and in batch order, its JSON and its markdown file
    named after the stem of its input file, and nothing for any other
    result; for each of those it logs that the document failed to
    convert, and it ends the log with the size of the batch and the
    number of results without [SUCCESS] status. *)
Theorem export_documents_files `{Backends}
    (docs : list (ConversionResult DoclingDocument)) :
  let failed := filter (fun d => negb (is_success (status d))) docs in
  export_documents docs
  = (docling_artifacts_path,
     flat_map exported_files (filter (fun d => is_success (status d)) docs),
     map (fun d => DocumentFailedToConvert (input_file d)) failed
     ++ [ProcessedDocs (Z.of_nat (List.length docs))
           (Z.of_nat (List.length failed))]).
Proof.
  cbn zeta. unfold export_documents.
  destruct (export_documents_loop_files docs 0 0 [] []) as (sc & fc & Hfiles).
  destruct (export_documents_loop_counts docs 0 0 [] [])
    as (files' & log' & Hcounts).
  rewrite Hfiles in Hcounts. injection Hcounts as -> -> _ _.
  rewrite Hfiles. cbn [app]. rewrite <- count_status_total.
  reflexivity.
Qed.

Lemma string_length_app (s t : string) :
  String.length (s ++ t) = (String.length s + String.length t)%nat.
Proof. induction s as [|a s IH]; simpl; [reflexivity | now rewrite IH]. Qed.

Lemma string_app_inv_tail (s s' t : string) :
  (s ++ t)%string = (s' ++ t)%string -> s = s'.
Proof.
  revert s'. induction s as [|a s IH]; intros [|b s'] Heq.
  - reflexivity.
  - exfalso. apply (f_equal String.length) in Heq.
    simpl in Heq. rewrite string_length_app in Heq. lia.
  - exfalso. apply (f_equal String.length) in Heq.
    simpl in Heq. rewrite string_length_app in Heq. lia.
  - simpl in Heq. injection Heq as -> Heq. f_equal. now apply IH.
Qed.

Lemma string_app_inv_head (p s s' : string) :
  (p ++ s)%string = (p ++ s')%string -> s = s'.
Proof.
  induction p as [|a p IH]; simpl; [trivial|]. intros [= Heq]. now apply IH.
Qed.

Lemma string_app_last_char (s s' : string) (a b : ascii) :
  (s ++ String a "")%string = (s' ++ String b "")%string -> a = b.
Proof.
  revert s'. induction s as [|x s IH]; intros [|y s'] Heq; simpl in Heq.
  - now injection Heq.
  - injection Heq as _ Heq. destruct s'; discriminate.
  - injection Heq as _ Heq. destruct s; discriminate.
  - injection Heq as _ Heq. now apply (IH s').
Qed.

Lemma json_name_not_md_name (x y : string) :
  (x ++ ".json")%string <> (y ++ ".md")%string.
Proof.
  intros Heq.
  change ".json" with (".jso" ++ "n")%string in Heq.
  change ".md" with (".m" ++ "d")%string in Heq.
  rewrite <- !string_app_assoc in Heq.
  apply string_app_last_char in Heq. discriminate.
Qed.

Lemma file_content_app (A B : list fs_write) (name : string) :
  file_content (A ++ B) name
  = match file_content B name with
    | Some later => Some later
    | None => file_content A name
    end.
Proof.
  induction A as [|[n content] A IH]; simpl.
  - now destruct (file_content B name).
  - rewrite IH. destruct (file_content B name); reflexivity.
Qed.

Section ExportNames.
Context `{Backends}.

Lemma artifact_name_stem (s1 s2 ext : string) :
  ((docling_artifacts_path ++ "/" ++ s1) ++ ext)%string
  = ((docling_artifacts_path ++ "/" ++ s2) ++ ext)%string ->
  s1 = s2.
Proof.
  intros Heq. apply string_app_inv_tail in Heq.
  apply string_app_inv_head in Heq. now apply string_app_inv_head in Heq.
Qed.

Lemma exported_files_md (doc : ConversionResult DoclingDocument) :
  file_content (exported_files doc)
    ((docling_artifacts_path ++ "/" ++ stem (input_file doc)) ++ ".md")
  = Some (export_to_markdown (document doc)).
Proof.
  cbn [exported_files file_content]. now rewrite String.eqb_refl.
Qed.

Lemma exported_files_json (doc : ConversionResult DoclingDocument) :
  file_content (exported_files doc)
    ((docling_artifacts_path ++ "/" ++ stem (input_file doc)) ++ ".json")
  = Some (export_to_json (document doc)).
Proof.
  cbn [exported_files file_content].
  destruct (String.eqb
              ((docling_artifacts_path ++ "/" ++ stem (input_file doc))
               ++ ".md")
              ((docling_artifacts_path ++ "/" ++ stem (input_file doc))
               ++ ".json")) eqn:E.
  - apply String.eqb_eq in E. symmetry in E.
    now apply json_name_not_md_name in E.
  - now rewrite String.eqb_refl.
Qed.

Lemma exported_files_other (doc : ConversionResult DoclingDocument)
    (s ext : string) :
  ext = ".md" \/ ext = ".json" ->
  stem (input_file doc) <> s ->
  file_content (exported_files doc)
    ((docling_artifacts_path ++ "/" ++ s) ++ ext) = None.
Proof.
  intros Hext Hstem. cbn [exported_files file_content].
  destruct (String.eqb
              ((docling_artifacts_path ++ "/" ++ stem (input_file doc))
               ++ ".md")
              ((docling_artifacts_path ++ "/" ++ s) ++ ext)) eqn:Emd.
  { exfalso. apply String.eqb_eq in Emd. destruct Hext as [-> | ->].
    - now apply artifact_name_stem in Emd.
    - symmetry in Emd. now apply json_name_not_md_name in Emd. }
  destruct (String.eqb
              ((docling_artifacts_path ++ "/" ++ stem (input_file doc))
               ++ ".json")
              ((docling_artifacts_path ++ "/" ++ s) ++ ext)) eqn:Ejson.
  { exfalso. apply String.eqb_eq in Ejson. destruct Hext as [-> | ->].
    - now apply json_name_not_md_name in Ejson.
    - now apply artifact_name_stem in Ejson. }
  reflexivity.
Qed.

Lemma exported_files_others
    (docs : list (ConversionResult DoclingDocument)) (s ext : string) :
  ext = ".md" \/ ext = ".json" ->
  Forall (fun d => stem (input_file d) <> s) docs ->
  file_content (flat_map exported_files docs)
    ((docling_artifacts_path ++ "/" ++ s) ++ ext) = None.
Proof.
  intros Hext. induction 1 as [|d docs Hd _ IH]; [reflexivity|].
  cbn [flat_map]. rewrite file_content_app, IH.
  now apply exported_files_other.
Qed.

End ExportNames.

(** X17. The export names its files after the stem alone, and each write
    replaces the file: after [export_documents], the markdown and JSON
    files of a stem hold the export of the last successfully converted
    document with that stem; an earlier document with the same stem, for
    instance from another directory, is overwritten. *)
Theorem export_documents_last_stem_wins `{Backends}
    (pre : list (ConversionResult DoclingDocument))
    (d : ConversionResult DoclingDocument)
    (post : list (ConversionResult DoclingDocument))
    (files : list fs_write) (log : list log_record) :
  is_success (status d) = true ->
  (forall d', In d' post -> is_success (status d') = true ->
              stem (input_file d') <> stem (input_file d)) ->
  export_documents (pre ++ d :: post) = (docling_artifacts_path, files, log) ->
  file_content files
    ((docling_artifacts_path ++ "/" ++ stem (input_file d)) ++ ".md")
  = Some (export_to_markdown (document d))
  /\ file_content files
       ((docling_artifacts_path ++ "/" ++ stem (input_file d)) ++ ".json")
     = Some (export_to_json (document d)).
Proof.
  intros Hd Hpost Hexp.
  destruct (export_documents_written (pre ++ d :: post)) as [log0 Hfiles].
  rewrite Hfiles in Hexp. injection Hexp as <- _.
  rewrite filter_app. cbn [filter]. rewrite Hd.
  rewrite flat_map_app. cbn [flat_map].
  assert (Hothers : Forall (fun d' => stem (input_file d')
                                      <> stem (input_file d))
                      (filter (fun d' => is_success (status d')) post)).
  { apply Forall_forall. intros d' Hin. apply filter_In in Hin as [Hin Hs].
    now apply Hpost. }
  rewrite !file_content_app.
  rewrite (exported_files_others _ _ ".md" (or_introl eq_refl) Hothers).
  rewrite (exported_files_others _ _ ".json" (or_intror eq_refl) Hothers).
  now rewrite exported_files_md, exported_files_json.
Qed.

Lemma export_documents_last_stem_wins_witness :
  let d1 := toy_result "report" SUCCESS (Ok ["first"]) in
  let d2 := toy_result "report" SUCCESS (Ok ["second"]) in
  is_success (status d2) = true
  /\ (forall d' : ConversionResult (@DoclingDocument toy_backends),
         In d' [] -> is_success (status d') = true ->
         stem (input_file d') <> stem (input_file d2))
  /\ file_content (snd (fst (@export_documents toy_backends [d1; d2])))
       "docling-artifacts/report.md"
     = Some "second".
Proof.
  intros d1 d2.
  assert (Hnone : forall d' : ConversionResult (@DoclingDocument toy_backends),
             In d' [] -> is_success (status d') = true ->
             stem (input_file d') <> stem (input_file d2))
    by (intros d' [ ]).
  split; [reflexivity | split; [exact Hnone|]].
  exact (proj1 (@export_documents_last_stem_wins toy_backends [d1] d2 []
                  _ _ eq_refl Hnone eq_refl)).
Defined.

(** ** More on the token estimator *)

Lemma binary_round_aux_opp (s : bool) (mx ex : Z) (lx : location) :
  binary_round_aux float_prec float_emax (negb s) mx ex lx
  = SFopp (binary_round_aux float_prec float_emax s mx ex lx).
Proof.
  unfold binary_round_aux.
  destruct (shr_fexp float_prec float_emax mx ex lx) as [mrs' e'].
  destruct (shr_fexp float_prec float_emax _ e' loc_Exact) as [mrs'' e''].
  destruct (shr_m mrs''); [reflexivity | | reflexivity].
  destruct (e'' <=? float_emax - float_prec); reflexivity.
Qed.

Lemma SFmul_opp_finite (x : spec_float) (m : positive) (e : Z) :
  SFmul float_prec float_emax (SFopp x) (S754_finite false m e)
  = SFopp (SFmul float_prec float_emax x (S754_finite false m e)).
Proof.
  destruct x as [s|s| |s mx ex]; cbn [SFopp SFmul]; try reflexivity.
  - now destruct s.
  - now destruct s.
  - rewrite <- binary_round_aux_opp. now destruct s.
Qed.

Lemma int_of_float_opp (x : spec_float) :
  int_of_float (SFopp x) = let* n := int_of_float x in Ok (- n).
Proof.
  destruct x as [s|s| |s m e]; cbn [SFopp int_of_float bind];
    try reflexivity.
  destruct s; cbn [negb cond_Zopp]; f_equal; lia.
Qed.

Lemma float_of_int_neg (p : positive) :
  float_of_int (Zneg p) = let* x := float_of_int (Zpos p) in Ok (SFopp x).
Proof.
  unfold float_of_int, binary_normalize, binary_round.
  destruct (shl_align p 0 _) as [mz ez].
  change true with (negb false).
  rewrite binary_round_aux_opp.
  destruct (binary_round_aux float_prec float_emax false (Zpos mz) ez
              loc_Exact); reflexivity.
Qed.

Lemma num_tokens_neg (p : positive) :
  _num_tokens_from_words (Zneg p)
  = let* n := _num_tokens_from_words (Zpos p) in Ok (- n).
Proof.
  unfold _num_tokens_from_words, mul_int_float.
  rewrite float_of_int_neg.
  destruct (float_of_int (Zpos p)) as [x|e]; [|reflexivity].
  cbn [bind]. unfold float_1_3. rewrite SFmul_opp_finite.
  apply int_of_float_opp.
Qed.

(** X18. The token estimate is an odd function: [int] truncates towards
    zero, so the estimate for [- w] is the opposite of the estimate for
    [w], and raises exactly when that one does. *)
Theorem num_tokens_odd (w : Z) :
  _num_tokens_from_words (- w)
  = let* n := _num_tokens_from_words w in Ok (- n).
Proof.
  destruct w as [|p|p]; [reflexivity | apply num_tokens_neg |].
  cbn [Z.opp]. rewrite num_tokens_neg.
  destruct (_num_tokens_from_words (Zpos p)) as [n|e]; [|reflexivity].
  cbn [bind]. f_equal. lia.
Qed.

(** X19. For word counts of either sign below [2^49] in absolute value,
    the token estimate is the exact product [13 * w / 10] rounded towards
    zero; so for a negative count that is not a multiple of 10 it is one
    more than the floor. *)
Theorem num_tokens_truncates (w : Z) :
  - 2 ^ 49 < w < 2 ^ 49 ->
  _num_tokens_from_words w = Ok (Z.quot (13 * w) 10).
Proof.
  intros [Hlo Hhi]. destruct (Z_le_gt_dec 0 w) as [Hw | Hw].
  - rewrite Z.quot_div_nonneg by lia. apply num_tokens_exact. lia.
  - destruct w as [|p|p]; try lia. rewrite num_tokens_neg.
    rewrite num_tokens_exact by lia. cbn [bind]. f_equal.
    replace (13 * Zneg p) with (- (13 * Zpos p)) by lia.
    rewrite Z.quot_opp_l by lia.
    rewrite Z.quot_div_nonneg by lia. reflexivity.
Qed.

Lemma num_tokens_truncates_witness :
  - 2 ^ 49 < -1 < 2 ^ 49
  /\ _num_tokens_from_words (-1) = Ok (-1)
  /\ 13 * -1 / 10 = -2.
Proof.
  assert (Hrange : - 2 ^ 49 < -1 < 2 ^ 49) by (split; reflexivity).
  split; [exact Hrange | split; [|reflexivity]].
  exact (num_tokens_truncates (-1) Hrange).
Defined.

(** X20. For word counts from 0 to below [2^49] the character budget is
    [4 * floor (13 * w / 10)]: a multiple of 4, at most [5.2 * w] and
    less than 4 below it, and it does not decrease when the word count
    grows. *)
Theorem char_budget_bounds (w1 w2 : Z) :
  0 <= w1 <= w2 -> w2 < 2 ^ 49 ->
  exists b1 b2,
    char_budget w1 = Ok b1
    /\ char_budget w2 = Ok b2
    /\ b2 = 4 * (13 * w2 / 10)
    /\ b1 <= b2
    /\ 26 * w2 - 18 <= 5 * b2 <= 26 * w2.
Proof.
  intros [Hw1 Hle] Hw2. unfold char_budget, _num_chars_from_tokens.
  rewrite !num_tokens_exact by lia. cbn [bind].
  exists (13 * w1 / 10 * 4), (13 * w2 / 10 * 4).
  split; [reflexivity | split; [reflexivity|]].
  pose proof (Z.div_mod (13 * w2) 10 ltac:(lia)) as Hdm.
  pose proof (Z.mod_pos_bound (13 * w2) 10 ltac:(lia)) as Hmod.
  assert (Hmono : 13 * w1 / 10 <= 13 * w2 / 10)
    by (apply Z.div_le_mono; lia).
  repeat split; lia.
Qed.

Lemma char_budget_bounds_witness :
  0 <= 512 <= 1024 /\ 1024 < 2 ^ 49
  /\ exists b1 b2,
       char_budget 512 = Ok b1
       /\ char_budget 1024 = Ok b2
       /\ b2 = 4 * (13 * 1024 / 10)
       /\ b1 <= b2
       /\ 26 * 1024 - 18 <= 5 * b2 <= 26 * 1024.
Proof.
  assert (Hle : 0 <= 512 <= 1024) by (split; discriminate).
  assert (Hlt : 1024 < 2 ^ 49) by reflexivity.
  split; [exact Hle | split; [exact Hlt|]].
  exact (char_budget_bounds 512 1024 Hle Hlt).
Defined.

(** *** Rounding over the whole range *)

(** As [binary_round_aux_shift], without a bound on the exponent: the
    result is finite when the final exponent is at most 971 and infinite
    otherwise, and a carry leaves the mantissa [2^52]. *)
Lemma binary_round_aux_round (M : positive) (e k : Z) :
  Zpos (digits2_pos M) = 53 + k -> 1 <= k -> -1074 <= e + k ->
  exists (m' : Z) (m'' : positive) (e'' : Z),
    binary_round_aux float_prec float_emax false (Zpos M) e loc_Exact
    = (if e'' <=? 971 then S754_finite false m'' e''
       else S754_infinity false)
    /\ Zpos M / 2 ^ k <= m' <= (Zpos M + 2 ^ (k - 1)) / 2 ^ k
    /\ Zpos (digits2_pos m'') = 53
    /\ ((Zpos m'' = m' /\ e'' = e + k)
        \/ (Zpos m'' = 2 ^ 52 /\ m' = 2 ^ 53 /\ e'' = e + k + 1)).
Proof.
  intros Hd Hk Hlo.
  destruct (digits2_pos_bounds M) as [HMlo HMhi]. rewrite Hd in HMlo, HMhi.
  assert (Hpk : 0 < 2 ^ k) by (apply Z.pow_pos_nonneg; lia).
  assert (Hpk1 : 0 < 2 ^ (k - 1)) by (apply Z.pow_pos_nonneg; lia).
  assert (H2k : 2 ^ k = 2 * 2 ^ (k - 1)).
  { replace k with (Z.succ (k - 1)) at 1 by lia.
    now rewrite Z.pow_succ_r by lia. }
  replace (53 + k - 1) with (52 + k) in HMlo by lia.
  rewrite Z.pow_add_r in HMlo, HMhi by lia.
  unfold binary_round_aux.
  assert (Hshr : exists s,
             shr_fexp float_prec float_emax (Zpos M) e loc_Exact
             = ({| shr_m := Zpos M / 2 ^ k;
                   shr_r := Z.odd (Zpos M / 2 ^ (k - 1));
                   shr_s := s |}, e + k)).
  { unfold shr_fexp, fexp, emin, float_prec, float_emax.
    cbn [Zdigits2]. rewrite Hd.
    replace (Z.max (53 + k + e - 53) (3 - 1024 - 53) - e) with k by lia.
    destruct k as [|n|n]; try lia. cbn [shr shr_record_of_loc].
    destruct (iter_shr_1 (Zpos M) n (Pos2Z.is_nonneg M)
                {| shr_m := Zpos M; shr_r := false; shr_s := false |} 0)
      as [s Hs]; [lia | now rewrite Z.pow_0_r, Z.div_1_r |].
    exists s. rewrite Hs. reflexivity. }
  destruct Hshr as [s ->].
  set (m' := round_nearest_even _ _).
  assert (Hm' : Zpos M / 2 ^ k <= m' <= (Zpos M + 2 ^ (k - 1)) / 2 ^ k).
  { apply rounded_quotient_bounds; [lia | lia |].
    apply (round_nearest_even_bounds (Zpos M / 2 ^ k)
             (Z.odd (Zpos M / 2 ^ (k - 1))) s). }
  assert (Hrange : 2 ^ 52 <= m' <= 2 ^ 53).
  { split.
    - apply Z.le_trans with (Zpos M / 2 ^ k); [|lia].
      apply Z.div_le_lower_bound; lia.
    - apply Z.le_trans with ((Zpos M + 2 ^ (k - 1)) / 2 ^ k); [lia|].
      apply Z.lt_succ_r. apply Z.div_lt_upper_bound; lia. }
  exists m'.
  destruct m' as [|pm'|pm'] eqn:Epm; try lia.
  destruct (Z.eq_dec (Zpos pm') (2 ^ 53)) as [Hcarry | Hnocarry].
  - injection Hcarry as ->.
    exists 4503599627370496%positive, (e + k + 1).
    split; [|split; [exact Hm' | split; [reflexivity|]]].
    + unfold shr_fexp, fexp, emin, float_prec, float_emax.
      cbn [Zdigits2 digits2_pos Pos.succ].
      replace (Z.max (54 + (e + k) - 53) (3 - 1024 - 53) - (e + k)) with 1
        by lia.
      cbn [shr shr_record_of_loc iter_pos shr_1 shr_m orb].
      reflexivity.
    + right. repeat split; reflexivity.
  - assert (Hdig : Zpos (digits2_pos pm') = 53)
      by (apply digits2_pos_unique; lia).
    exists pm', (e + k).
    split; [|split; [exact Hm' | split; [exact Hdig|]]].
    + rewrite shr_fexp_exact; [| exact Hdig | lia].
      cbn [shr_m]. reflexivity.
    + left. split; reflexivity.
Qed.

(** From 53 bits on, [float(n)] rounds the integer itself. *)
Lemma float_of_int_round (p : positive) :
  53 <= Zpos (digits2_pos p) ->
  float_of_int (Zpos p)
  = match binary_round_aux float_prec float_emax false (Zpos p) 0 loc_Exact
    with
    | S754_infinity _ => Raise OverflowError
    | x => Ok x
    end.
Proof.
  intros Hd.
  unfold float_of_int, binary_normalize, binary_round, shl_align.
  unfold fexp, emin, float_prec, float_emax.
  set (d := Zpos (digits2_pos p)) in *. clearbody d.
  replace (Z.max (d + 0 - 53) (3 - 1024 - 53) - 0) with (d - 53) by lia.
  destruct (d - 53) as [|n|n] eqn:En; [reflexivity | reflexivity | lia].
Qed.

Lemma digits2_pos_below (p : positive) (D : Z) :
  0 <= D -> Zpos p < 2 ^ D -> Zpos (digits2_pos p) <= D.
Proof.
  intros HD Hp. destruct (digits2_pos_bounds p) as [Hlo _].
  destruct (Z_le_gt_dec (Zpos (digits2_pos p)) D) as [|Hgt];
    [assumption | exfalso].
  assert (2 ^ D <= 2 ^ (Zpos (digits2_pos p) - 1))
    by (apply Z.pow_le_mono_r; lia).
  lia.
Qed.

Lemma digits2_pos_above (p : positive) (D : Z) :
  2 ^ D <= Zpos p -> D < Zpos (digits2_pos p).
Proof.
  intros Hp. destruct (digits2_pos_bounds p) as [_ Hhi].
  destruct (Z_lt_le_dec D (Zpos (digits2_pos p))) as [|Hle];
    [assumption | exfalso].
  assert (2 ^ Zpos (digits2_pos p) <= 2 ^ D)
    by (apply Z.pow_le_mono_r; lia).
  lia.
Qed.

(** Below [2^1023], [float(n)] is a finite float of at most [2^1023]. *)
Lemma float_of_int_finite (p : positive) :
  Zpos p < 2 ^ 1023 ->
  exists (mz : positive) (ez : Z),
    float_of_int (Zpos p) = Ok (S754_finite false mz ez)
    /\ Zpos (digits2_pos mz) = 53
    /\ -52 <= ez
    /\ (ez <= 970 \/ (ez = 971 /\ Zpos mz = 2 ^ 52)).
Proof.
  intros Hp.
  assert (HD : Zpos (digits2_pos p) <= 1023)
    by (apply digits2_pos_below; [lia | exact Hp]).
  destruct (Z_le_gt_dec (Zpos (digits2_pos p)) 52) as [H52 | H52].
  - destruct (float_of_int_exact p) as (mz & Hconv & _ & Hdig).
    { apply Z.lt_le_trans with (2 ^ Zpos (digits2_pos p));
        [apply digits2_pos_bounds | apply Z.pow_le_mono_r; lia]. }
    exists mz, (Zpos (digits2_pos p) - 53).
    repeat split; [exact Hconv | exact Hdig | lia | left; lia].
  - rewrite float_of_int_round by lia.
    destruct (Z.eq_dec (Zpos (digits2_pos p)) 53) as [H53 | H53].
    + rewrite binary_round_aux_exact by (assumption || lia).
      exists p, 0. repeat split; [exact H53 | lia | left; lia].
    + destruct (binary_round_aux_round p 0 (Zpos (digits2_pos p) - 53))
        as (m' & m'' & e'' & -> & _ & Hdig & Hfinal); [lia | lia | lia |].
      assert (He'' : e'' <= 971)
        by (destruct Hfinal as [[_ ->] | (_ & _ & ->)]; lia).
      apply Z.leb_le in He''. rewrite He''. apply Z.leb_le in He''.
      exists m'', e''. repeat split; [exact Hdig | |].
      * destruct Hfinal as [[_ ->] | (_ & _ & ->)]; lia.
      * destruct Hfinal as [[_ ->] | (Hm & _ & ->)]; [left; lia|].
        destruct (Z_le_gt_dec (0 + (Zpos (digits2_pos p) - 53) + 1) 970);
          [left; assumption | right; split; [lia | exact Hm]].
Qed.

(** The product of a float of at most [2^1023] by 1.3 is finite. *)
Lemma SFmul_1_3_finite (mz : positive) (ez : Z) :
  Zpos (digits2_pos mz) = 53 ->
  -52 <= ez ->
  ez <= 970 \/ (ez = 971 /\ Zpos mz = 2 ^ 52) ->
  exists (m : positive) (e : Z),
    SFmul float_prec float_emax (S754_finite false mz ez) float_1_3
    = S754_finite false m e.
Proof.
  intros Hdig Hlo Hhi.
  destruct (digits2_pos_bounds mz) as [Hmzlo Hmzhi].
  rewrite Hdig in Hmzlo, Hmzhi. change (53 - 1) with 52 in Hmzlo.
  cbn [SFmul float_1_3 xorb].
  set (M := (mz * 5854679515581645)%positive).
  assert (HM : Zpos M = Zpos mz * 5854679515581645)
    by (unfold M; rewrite Pos2Z.inj_mul; reflexivity).
  clearbody M.
  assert (HD : Zpos (digits2_pos M) = 105 \/ Zpos (digits2_pos M) = 106).
  { assert (H104 : 104 < Zpos (digits2_pos M))
      by (apply digits2_pos_above; rewrite HM; lia).
    assert (H106 : Zpos (digits2_pos M) <= 106)
      by (apply digits2_pos_below; [lia | rewrite HM; lia]).
    lia. }
  destruct (binary_round_aux_round M (ez + -52) (Zpos (digits2_pos M) - 53))
    as (m' & m'' & e'' & -> & Hm' & _ & Hfinal); [lia | lia | lia |].
  assert (He'' : e'' <= 971).
  { destruct (digits2_pos_bounds M) as [HMlo HMhi].
    destruct HD as [HD | HD]; rewrite HD in *.
    - change (105 - 53) with 52 in *. change (52 - 1) with 51 in *.
      change (105 - 1) with 104 in *.
      destruct Hfinal as [[_ ->] | (_ & -> & ->)]; [lia|].
      destruct Hhi as [Hhi | [-> Hmz]]; [lia | exfalso].
      destruct Hm' as [_ Hm'].
      pose proof (Z.mul_div_le (Zpos M + 2 ^ 51) (2 ^ 52) ltac:(lia)) as Hdiv.
      rewrite HM, Hmz in *. lia.
    - change (106 - 53) with 53 in *. change (53 - 1) with 52 in *.
      change (106 - 1) with 105 in *.
      destruct Hfinal as [[_ ->] | (_ & -> & ->)].
      + destruct Hhi as [Hhi | [-> Hmz]]; [lia | exfalso].
        rewrite HM, Hmz in HMlo. lia.
      + exfalso. destruct Hm' as [_ Hm'].
        pose proof (Z.mul_div_le (Zpos M + 2 ^ 52) (2 ^ 53) ltac:(lia))
          as Hdiv.
        rewrite HM in *. lia. }
  apply Z.leb_le in He''. rewrite He''. exists m'', e''. reflexivity.
Qed.

Lemma int_of_float_not_negative (x : spec_float) (n : Z) :
  not_negative x -> int_of_float x = Ok n -> 0 <= n.
Proof.
  destruct x as [s|s| |[|] m e]; cbn [int_of_float not_negative cond_Zopp];
    intros Hx [= <-]; try lia; try contradiction.
  apply Z.shiftl_nonneg. lia.
Qed.

(** X21. For every word count below [2^1023] in absolute value the token
    estimate is computed without an exception, and it has the sign of the
    word count. *)
Theorem num_tokens_returns (w : Z) :
  - 2 ^ 1023 < w < 2 ^ 1023 ->
  exists n : Z,
    _num_tokens_from_words w = Ok n
    /\ (0 <= w -> 0 <= n) /\ (w <= 0 -> n <= 0).
Proof.
  assert (Hpos : forall p, Zpos p < 2 ^ 1023 ->
             exists n, _num_tokens_from_words (Zpos p) = Ok n /\ 0 <= n).
  { intros p Hp.
    destruct (float_of_int_finite p Hp) as (mz & ez & Hconv & Hdig & Hlo & Hhi).
    destruct (SFmul_1_3_finite mz ez Hdig Hlo Hhi) as (m & e & Hmul).
    exists (Z.shiftl (Zpos m) e). split.
    - unfold _num_tokens_from_words, mul_int_float.
      rewrite Hconv. cbn [bind]. rewrite Hmul. reflexivity.
    - apply Z.shiftl_nonneg. lia. }
  intros [Hlo Hhi]. destruct w as [|p|p].
  - exists 0. repeat split; lia.
  - destruct (Hpos p Hhi) as (n & Hn & Hn0).
    exists n. repeat split; [exact Hn | lia | lia].
  - destruct (Hpos p) as (n & Hn & Hn0); [lia|].
    exists (- n). repeat split; [| lia | lia].
    rewrite num_tokens_neg, Hn.
    reflexivity.
Qed.

Lemma num_tokens_returns_witness :
  - 2 ^ 1023 < 2 ^ 1022 < 2 ^ 1023
  /\ exists n : Z,
       _num_tokens_from_words (2 ^ 1022) = Ok n
       /\ (0 <= 2 ^ 1022 -> 0 <= n) /\ (2 ^ 1022 <= 0 -> n <= 0).
Proof.
  assert (Hrange : - 2 ^ 1023 < 2 ^ 1022 < 2 ^ 1023)
    by (split; reflexivity).
  split; [exact Hrange|].
  exact (num_tokens_returns (2 ^ 1022) Hrange).
Defined.

(** X22. From [2^1024] on in absolute value, a word count is too large
    for a float, and the token estimate raises [OverflowError]. *)
Theorem num_tokens_overflow (w : Z) :
  2 ^ 1024 <= Z.abs w ->
  _num_tokens_from_words w = Raise OverflowError.
Proof.
  assert (Hpos : forall p, 2 ^ 1024 <= Zpos p ->
             _num_tokens_from_words (Zpos p) = Raise OverflowError).
  { intros p Hp.
    assert (HD : 1024 < Zpos (digits2_pos p))
      by (apply digits2_pos_above; exact Hp).
    unfold _num_tokens_from_words, mul_int_float.
    rewrite float_of_int_round by lia.
    destruct (binary_round_aux_round p 0 (Zpos (digits2_pos p) - 53))
      as (m' & m'' & e'' & -> & _ & _ & Hfinal); [lia | lia | lia |].
    assert (He'' : 971 < e'')
      by (destruct Hfinal as [[_ ->] | (_ & _ & ->)]; lia).
    apply Z.leb_gt in He''. rewrite He''. reflexivity. }
  intros Hw. destruct w as [|p|p].
  - cbn [Z.abs] in Hw. lia.
  - apply Hpos. exact Hw.
  - rewrite num_tokens_neg, Hpos.
    + reflexivity.
    + exact Hw.
Qed.

Lemma num_tokens_overflow_witness :
  2 ^ 1024 <= Z.abs (- 2 ^ 1024)
  /\ _num_tokens_from_words (- 2 ^ 1024) = Raise OverflowError.
Proof.
  assert (Hw : 2 ^ 1024 <= Z.abs (- 2 ^ 1024)) by discriminate.
  split; [exact Hw|].
  exact (num_tokens_overflow (- 2 ^ 1024) Hw).
Defined.

(** * The samples of a knowledge leaf node *)

Section KnowledgeSamples.
Import taxonomy.

(** ** Keys of a record *)

Lemma str_of_nat_inj (n m : nat) : str_of_nat n = str_of_nat m -> n = m.
Proof.
  unfold str_of_nat. intros H.
  pose proof (DecimalString.NilEmpty.usu (Nat.to_uint n)) as Hn.
  pose proof (DecimalString.NilEmpty.usu (Nat.to_uint m)) as Hm.
  rewrite H, Hm in Hn. injection Hn as Hu.
  rewrite <- (DecimalNat.Unsigned.of_to n), <- (DecimalNat.Unsigned.of_to m).
  now rewrite Hu.
Qed.

Lemma query_key_inj (n m : nat) :
  ("icl_query_" ++ str_of_nat n)%string = ("icl_query_" ++ str_of_nat m)%string
  -> n = m.
Proof. simpl. intros [= H]. now apply str_of_nat_inj. Qed.

Lemma response_key_inj (n m : nat) :
  ("icl_response_" ++ str_of_nat n)%string
  = ("icl_response_" ++ str_of_nat m)%string
  -> n = m.
Proof. simpl. intros [= H]. now apply str_of_nat_inj. Qed.

Lemma query_key_not_response (a b : string) :
  ("icl_query_" ++ a)%string <> ("icl_response_" ++ b)%string.
Proof. simpl. discriminate. Qed.

(** The six keys of the dictionary literal. *)
Lemma query_key_not_literal (a : string) :
  ~ In ("icl_query_" ++ a)%string
      ["document"; "icl_document"; "document_outline"; "domain";
       "leaf_node_type"; "leaf_node_path"].
Proof. simpl. intros [H|[H|[H|[H|[H|[H|[]]]]]]]; discriminate H. Qed.

Lemma response_key_not_literal (a : string) :
  ~ In ("icl_response_" ++ a)%string
      ["document"; "icl_document"; "document_outline"; "domain";
       "leaf_node_type"; "leaf_node_path"].
Proof. simpl. intros [H|[H|[H|[H|[H|[H|[]]]]]]]; discriminate H. Qed.

(** ** Dictionaries *)

Lemma store_fresh (r : list (string * pyobj)) (k : string) (v : pyobj) :
  ~ In k (map fst r) -> store r k v = r ++ [(k, v)].
Proof.
  induction r as [|[k' v'] r IH]; intros Hk; [reflexivity|].
  cbn [store app]. cbn [map fst In] in Hk.
  destruct (String.eqb k' k) eqn:E.
  - apply String.eqb_eq in E. tauto.
  - rewrite IH by tauto. reflexivity.
Qed.

Lemma lookup_absent (r : list (string * pyobj)) (k : string) :
  ~ In k (map fst r) -> lookup r k = None.
Proof.
  induction r as [|[k' v'] r IH]; intros Hk; [reflexivity|].
  cbn [lookup]. cbn [map fst In] in Hk.
  destruct (String.eqb k' k) eqn:E.
  - apply String.eqb_eq in E. tauto.
  - apply IH. tauto.
Qed.

Lemma lookup_present (r : list (string * pyobj)) (k : string) (v : pyobj) :
  NoDup (map fst r) -> In (k, v) r -> lookup r k = Some v.
Proof.
  induction r as [|[k' v'] r IH]; intros Hnd Hin; [contradiction|].
  cbn [map fst] in Hnd. inversion Hnd as [|? ? Hk' Hnd']; subst.
  cbn [lookup]. destruct Hin as [[= -> ->] | Hin].
  - now rewrite String.eqb_refl.
  - destruct (String.eqb k' k) eqn:E; [|now apply IH].
    apply String.eqb_eq in E. subst k'. exfalso. apply Hk'.
    apply in_map_iff. now exists (k, v).
Qed.

(** ** The numbered entries *)

Lemma qna_entries_length (pairs : list (pyobj * pyobj)) :
  forall i, List.length (qna_entries i pairs) = (2 * List.length pairs)%nat.
Proof.
  induction pairs as [|[q a] pairs IH]; intros i; [reflexivity|].
  cbn [qna_entries List.length]. rewrite IH. lia.
Qed.

Lemma qna_entries_keys (pairs : list (pyobj * pyobj)) :
  forall i k,
    In k (map fst (qna_entries i pairs)) ->
    exists j, (i < j)%nat
              /\ (k = ("icl_query_" ++ str_of_nat j)%string
                  \/ k = ("icl_response_" ++ str_of_nat j)%string).
Proof.
  induction pairs as [|[q a] pairs IH]; intros i k Hin; [contradiction|].
  cbn [qna_entries map fst In] in Hin.
  destruct Hin as [<- | [<- | Hin]].
  - exists (i + 1)%nat. split; [lia | now left].
  - exists (i + 1)%nat. split; [lia | now right].
  - destruct (IH (S i) k Hin) as (j & Hj & Hk). exists j. split; [lia | exact Hk].
Qed.

Lemma qna_entries_nodup (pairs : list (pyobj * pyobj)) :
  forall i, NoDup (map fst (qna_entries i pairs)).
Proof.
  induction pairs as [|[q a] pairs IH]; intros i; [constructor|].
  cbn [qna_entries map fst].
  constructor; [|constructor; [|apply IH]].
  - intros [H | H].
    + symmetry in H. now apply query_key_not_response in H.
    + apply qna_entries_keys in H as (j & Hj & [H | H]).
      * apply query_key_inj in H. lia.
      * now apply query_key_not_response in H.
  - intros H. apply qna_entries_keys in H as (j & Hj & [H | H]).
    + symmetry in H. now apply query_key_not_response in H.
    + apply response_key_inj in H. lia.
Qed.

Lemma qna_entries_nth (pairs : list (pyobj * pyobj)) :
  forall i n question answer,
    nth_error pairs n = Some (question, answer) ->
    In (("icl_query_" ++ str_of_nat (i + n + 1))%string, question)
       (qna_entries i pairs)
    /\ In (("icl_response_" ++ str_of_nat (i + n + 1))%string, answer)
          (qna_entries i pairs).
Proof.
  induction pairs as [|[q a] pairs IH]; intros i n question answer Hn.
  - destruct n; discriminate Hn.
  - destruct n as [|n]; cbn [nth_error] in Hn; cbn [qna_entries].
    + injection Hn as -> ->. rewrite Nat.add_0_r.
      split; [now left | right; now left].
    + destruct (IH (S i) n question answer Hn) as [Hq Ha].
      replace (i + S n + 1)%nat with (S i + n + 1)%nat by lia.
      split; right; right; assumption.
Qed.

(** ** Validation *)

Lemma for_each_spec {A : Type} (body : A -> outcome unit) (ok : A -> bool)
    (l : list A) :
  (forall x, In x l ->
             (ok x = true -> body x = Return tt)
             /\ (ok x = false -> exists e, body x = Throw e)) ->
  (forallb ok l = true -> for_each body l = Return tt)
  /\ (forallb ok l = false -> exists e, for_each body l = Throw e).
Proof.
  induction l as [|x l IH]; intros Hbody.
  - split; [reflexivity | discriminate].
  - destruct (Hbody x (or_introl eq_refl)) as [Hok Hko].
    destruct IH as [IHok IHko]; [intros y Hy; apply Hbody; now right|].
    cbn [forallb for_each]. destruct (ok x).
    + rewrite Hok by reflexivity. cbn [obind andb]. split; assumption.
    + destruct Hko as [e ->]; [reflexivity|]. cbn [obind andb].
      split; [discriminate | intros _; now exists e].
Qed.

Lemma validate_qna_spec (qna : pyobj) :
  (qna_ok qna = true ->
   for_each (validate_key qna) ["question"; "answer"] = Return tt)
  /\ (qna_ok qna = false ->
      exists e, for_each (validate_key qna) ["question"; "answer"] = Throw e).
Proof.
  destruct qna as [| b | z | s | items | entries];
    try (split; [discriminate | intros _; eexists; reflexivity]).
  unfold qna_ok. cbn [for_each]. unfold validate_key, getitem.
  destruct (lookup entries "question") as [question|];
    [|split; [discriminate | intros _; eexists; reflexivity]].
  destruct (lookup entries "answer") as [answer|].
  - destruct question as [| b | z | [|c s] | [|x items] | [|x es]];
      try destruct b; try destruct z;
      cbn [nonempty_str truthy truth is_str assert obind andb negb Z.eqb];
      try (split; [discriminate | intros _; eexists; reflexivity]).
    destruct answer as [| b | z | [|c' s'] | [|x items] | [|x es]];
      try destruct b; try destruct z;
      cbn [nonempty_str truthy truth is_str assert obind andb negb Z.eqb];
      try (split; [discriminate | intros _; eexists; reflexivity]).
    split; [reflexivity | discriminate].
  - split; [now destruct question|]. intros _.
    destruct question as [| b | z | [|c s] | [|x items] | [|x es]];
      try destruct b; try destruct z;
      cbn [truth truthy is_str assert obind negb Z.eqb];
      eexists; reflexivity.
Qed.

Lemma validate_icl_spec (icl : pyobj) :
  (icl_ok icl = true -> validate_icl icl = Return tt)
  /\ (icl_ok icl = false -> exists e, validate_icl icl = Throw e).
Proof.
  destruct icl as [| b | z | s | items | entries];
    try (split; [discriminate | intros _; eexists; reflexivity]).
  unfold icl_ok, validate_icl, getitem.
  destruct (lookup entries "context") as [context|];
    [|split; [discriminate | intros _; eexists; reflexivity]].
  destruct context as [| b | z | s | items | es];
    cbn [is_str assert obind];
    try (split; [discriminate | intros _; eexists; reflexivity]).
  destruct (lookup entries "questions_and_answers") as [q|];
    [|split; [discriminate | intros _; eexists; reflexivity]].
  cbn [obind].
  destruct (iterate q) as [qnas|e];
    [|split; [discriminate | intros _; eexists; reflexivity]].
  cbn [obind]. apply for_each_spec. intros qna _. apply validate_qna_spec.
Qed.

Lemma validate_seed_data_spec (seed_data : pyobj) :
  (seed_data_ok seed_data = true ->
   _validate_seed_data seed_data = Return seed_data)
  /\ (seed_data_ok seed_data = false ->
      exists e, _validate_seed_data seed_data = Throw e).
Proof.
  unfold seed_data_ok, _validate_seed_data.
  destruct (iterate seed_data) as [icls|e];
    [|split; [discriminate | intros _; eexists; reflexivity]].
  cbn [obind].
  destruct (for_each_spec validate_icl icl_ok icls) as [Hok Hko];
    [intros icl _; apply validate_icl_spec|].
  split.
  - intros H. rewrite (Hok H). reflexivity.
  - intros H. destruct (Hko H) as [e ->]. now exists e.
Qed.

(** ** The record of a chunk and a seed example *)

Lemma read_pairs_exist (qnas : list pyobj) :
  forallb qna_ok qnas = true -> exists pairs, read_pairs qnas pairs.
Proof.
  unfold read_pairs. induction qnas as [|qna qnas IH]; intros Hok.
  - exists []. constructor.
  - cbn [forallb] in Hok. apply andb_prop in Hok as [Hqna Hok].
    destruct (IH Hok) as [pairs Hpairs].
    destruct qna as [| b | z | s | items | entries]; try discriminate Hqna.
    unfold qna_ok in Hqna.
    destruct (lookup entries "question") as [question|] eqn:Eq;
      [|discriminate Hqna].
    destruct (lookup entries "answer") as [answer|] eqn:Ea;
      [|discriminate Hqna].
    apply andb_prop in Hqna as [Hq Ha].
    exists ((question, answer) :: pairs). constructor; [|exact Hpairs].
    unfold getitem. rewrite Eq, Ea. auto.
Qed.

Lemma update_loop_explicit (qnas : list pyobj)
    (pairs : list (pyobj * pyobj)) :
  read_pairs qnas pairs ->
  forall record i,
    (forall k, In k (map fst record) ->
               forall j, (i < j)%nat ->
                         k <> ("icl_query_" ++ str_of_nat j)%string
                         /\ k <> ("icl_response_" ++ str_of_nat j)%string) ->
    update_loop record i qnas = Return (record ++ qna_entries i pairs).
Proof.
  unfold read_pairs.
  induction 1 as [|qna [question answer] qnas pairs (Hq & Ha & _) _ IH];
    intros record i Hfresh.
  - cbn [update_loop qna_entries]. now rewrite app_nil_r.
  - cbn [fst snd] in Hq, Ha. cbn [update_loop qna_entries].
    rewrite Hq, Ha. cbn [obind].
    rewrite (store_fresh record).
    2:{ intros Hin. destruct (Hfresh _ Hin (i + 1)%nat) as [H _]; [lia|].
        now apply H. }
    rewrite store_fresh.
    2:{ rewrite map_app, in_app_iff. cbn [map fst In].
        intros [Hin | [H | []]].
        - destruct (Hfresh _ Hin (i + 1)%nat) as [_ H]; [lia|]. now apply H.
        - now apply query_key_not_response in H. }
    rewrite IH.
    + rewrite <- !app_assoc. reflexivity.
    + intros k Hin j Hj. rewrite !map_app, !in_app_iff in Hin.
      cbn [map fst In] in Hin.
      destruct Hin as [[Hin | [<- | []]] | [<- | []]].
      * apply (Hfresh k Hin j). lia.
      * split; [|apply query_key_not_response].
        intros H. apply query_key_inj in H. lia.
      * split.
        -- intros H. symmetry in H. now apply query_key_not_response in H.
        -- intros H. apply response_key_inj in H. lia.
Qed.

Lemma make_record_explicit (self : KnowledgeLeafNode) (chunk icl : pyobj) :
  icl_ok icl = true ->
  exists context questions_and_answers qnas pairs,
    getitem icl "context" = Return context
    /\ is_str context = true
    /\ getitem icl "questions_and_answers" = Return questions_and_answers
    /\ iterate questions_and_answers = Return qnas
    /\ read_pairs qnas pairs
    /\ make_record self chunk icl
       = Return (literal_entries self chunk context ++ qna_entries 0 pairs).
Proof.
  intros Hok.
  destruct icl as [| b | z | s | items | entries]; try discriminate Hok.
  unfold icl_ok in Hok.
  destruct (lookup entries "context") as [context|] eqn:Ec;
    [|discriminate Hok].
  destruct context as [| b | z | s | items | es]; try discriminate Hok.
  destruct (lookup entries "questions_and_answers") as [q|] eqn:Eq;
    [|discriminate Hok].
  destruct (iterate q) as [qnas|e] eqn:Ei; [|discriminate Hok].
  destruct (read_pairs_exist qnas Hok) as [pairs Hpairs].
  exists (PStr s), q, qnas, pairs.
  unfold make_record, getitem. rewrite Ec, Eq. cbn [obind]. rewrite Ei.
  cbn [obind]. repeat split; try assumption.
  apply (update_loop_explicit qnas pairs Hpairs). 
  intros k Hin j _. cbn [map fst] in Hin. split; intros ->.
  - now apply query_key_not_literal in Hin.
  - now apply response_key_not_literal in Hin.
Qed.

Lemma record_keys_nodup (self : KnowledgeLeafNode) (chunk context : pyobj)
    (pairs : list (pyobj * pyobj)) :
  NoDup (map fst (literal_entries self chunk context ++ qna_entries 0 pairs)).
Proof.
  rewrite map_app. apply NoDup_app.
  - cbn [literal_entries map fst].
    repeat (constructor; [cbn [In]; intros H; repeat destruct H as [H|H];
                          discriminate H || contradiction|]).
    constructor.
  - apply qna_entries_nodup.
  - intros k Hlit Hin. apply qna_entries_keys in Hin as (j & _ & [-> | ->]).
    + now apply query_key_not_literal in Hlit.
    + now apply response_key_not_literal in Hlit.
Qed.

(** ** The loops of [to_samples] *)

Lemma icl_loop_ok (self : KnowledgeLeafNode) (chunk : pyobj)
    (icls : list pyobj) :
  forallb icl_ok icls = true ->
  forall chunked_dataset,
    exists records,
      icl_loop self chunk icls chunked_dataset
      = Return (chunked_dataset ++ records)
      /\ Forall2 (fun record ci =>
                    make_record self (fst ci) (snd ci) = Return record)
           records (map (pair chunk) icls).
Proof.
  induction icls as [|icl icls IH]; intros Hok acc.
  - exists []. cbn [icl_loop map]. rewrite app_nil_r. split; constructor.
  - cbn [forallb] in Hok. apply andb_prop in Hok as [Hicl Hok].
    destruct (make_record_explicit self chunk icl Hicl)
      as (c & q & qnas & pairs & _ & _ & _ & _ & _ & Hrec).
    destruct (IH Hok (acc ++ [literal_entries self chunk c
                              ++ qna_entries 0 pairs]))
      as (records & Hloop & Hall).
    exists ((literal_entries self chunk c ++ qna_entries 0 pairs) :: records).
    cbn [icl_loop map]. rewrite Hrec. cbn [obind]. rewrite Hloop.
    rewrite <- app_assoc. split; [reflexivity|].
    constructor; [exact Hrec | exact Hall].
Qed.

Lemma chunk_loop_ok (self : KnowledgeLeafNode) (icls : list pyobj) :
  iterate (seed_data self) = Return icls ->
  forallb icl_ok icls = true ->
  forall document_chunks chunked_dataset,
    exists samples,
      chunk_loop self document_chunks chunked_dataset
      = Return (chunked_dataset ++ samples)
      /\ Forall2 (fun record ci =>
                    make_record self (fst ci) (snd ci) = Return record)
           samples (list_prod document_chunks icls).
Proof.
  intros Hiter Hok chunks.
  induction chunks as [|chunk chunks IH]; intros acc.
  - exists []. cbn [chunk_loop list_prod]. rewrite app_nil_r.
    split; constructor.
  - destruct (icl_loop_ok self chunk icls Hok acc) as (records & Hloop & Hrec).
    destruct (IH (acc ++ records)) as (samples & Hrest & Hall).
    exists (records ++ samples).
    cbn [chunk_loop list_prod]. rewrite Hiter. cbn [obind].
    rewrite Hloop. cbn [obind]. rewrite Hrest, <- app_assoc.
    split; [reflexivity|]. now apply Forall2_app.
Qed.

(** X23. Constructing a knowledge leaf node succeeds exactly on
    well-formed seed data: an iterable of dictionaries, each with a
    string under ["context"] and under ["questions_and_answers"] an
    iterable of dictionaries with a non-empty string under ["question"]
    and under ["answer"]. The node then holds the seed data unchanged;
    on any other seed data the constructor raises. *)
Theorem init_validates_seed_data (path : Path) (documents : list Path)
    (document_outline domain seed_data : pyobj) :
  (seed_data_ok seed_data = true ->
   __init__ path documents document_outline domain seed_data
   = Return {| taxonomy.path := path;
               taxonomy.documents := documents;
               taxonomy.document_outline := document_outline;
               taxonomy.domain := domain;
               taxonomy.seed_data := seed_data |})
  /\ (seed_data_ok seed_data = false ->
      exists e,
        __init__ path documents document_outline domain seed_data = Throw e).
Proof.
  unfold __init__.
  destruct (validate_seed_data_spec seed_data) as [Hok Hko]. split.
  - intros H. rewrite (Hok H). reflexivity.
  - intros H. destruct (Hko H) as [e ->]. now exists e.
Qed.

(** X24. On a node that was constructed, [to_samples] never raises: for
    any list of chunks it returns one record per chunk and seed example,
    chunk by chunk and within a chunk in the order of the seed
    examples. *)
Theorem to_samples_of_validated (path : Path) (documents : list Path)
    (document_outline domain seed_data : pyobj) (self : KnowledgeLeafNode)
    (document_chunks : list pyobj) :
  __init__ path documents document_outline domain seed_data = Return self ->
  exists icls samples,
    iterate seed_data = Return icls
    /\ to_samples self document_chunks = Return samples
    /\ List.length samples
       = (List.length document_chunks * List.length icls)%nat
    /\ Forall2 (fun record ci =>
                  make_record self (fst ci) (snd ci) = Return record)
         samples (list_prod document_chunks icls).
Proof.
  intros Hinit.
  destruct (validate_seed_data_spec seed_data) as [Hok Hko].
  destruct (seed_data_ok seed_data) eqn:Esd.
  - unfold __init__ in Hinit. rewrite (Hok eq_refl) in Hinit.
    cbn [obind] in Hinit. injection Hinit as <-.
    unfold seed_data_ok in Esd.
    destruct (iterate seed_data) as [icls|e] eqn:Ei; [|discriminate Esd].
    destruct (chunk_loop_ok
                {| taxonomy.path := path;
                   taxonomy.documents := documents;
                   taxonomy.document_outline := document_outline;
                   taxonomy.domain := domain;
                   taxonomy.seed_data := seed_data |}
                icls Ei Esd document_chunks [])
      as (samples & Hloop & Hall).
    exists icls, samples. repeat split; [exact Hloop | | exact Hall].
    rewrite (Forall2_length Hall). apply length_prod.
  - destruct (Hko eq_refl) as [e He]. unfold __init__ in Hinit.
    rewrite He in Hinit. discriminate Hinit.
Qed.

Lemma to_samples_of_validated_witness :
  __init__ (path toy_node) [] (PStr "An outline") (PStr "A domain")
    toy_seed_data
  = Return toy_node
  /\ exists icls samples,
       iterate toy_seed_data = Return icls
       /\ to_samples toy_node [PStr "first chunk"; PStr "second chunk"]
          = Return samples
       /\ List.length samples
          = (List.length [PStr "first chunk"; PStr "second chunk"]
             * List.length icls)%nat
       /\ Forall2 (fun record ci =>
                     make_record toy_node (fst ci) (snd ci) = Return record)
            samples
            (list_prod [PStr "first chunk"; PStr "second chunk"] icls).
Proof.
  assert (Hinit : __init__ (path toy_node) [] (PStr "An outline")
                    (PStr "A domain") toy_seed_data
                  = Return toy_node) by reflexivity.
  split; [exact Hinit|].
  exact (to_samples_of_validated (path toy_node) [] (PStr "An outline")
           (PStr "A domain") toy_seed_data toy_node
           [PStr "first chunk"; PStr "second chunk"] Hinit).
Defined.

(** X25. The record of a chunk and a well-formed seed example has no
    key twice and holds: the chunk under ["document"], the context under
    ["icl_document"], the outline, the domain, the node type and the
    node path, and for the pair at position [n] (from 0) its question
    under ["icl_query_<n+1>"] and its answer under
    ["icl_response_<n+1>"], both non-empty strings; it has no other
    entry. *)
Theorem make_record_fields (self : KnowledgeLeafNode) (chunk icl : pyobj) :
  icl_ok icl = true ->
  exists record context questions_and_answers qnas,
    make_record self chunk icl = Return record
    /\ getitem icl "context" = Return context
    /\ getitem icl "questions_and_answers" = Return questions_and_answers
    /\ iterate questions_and_answers = Return qnas
    /\ NoDup (map fst record)
    /\ List.length record = (6 + 2 * List.length qnas)%nat
    /\ lookup record "document" = Some chunk
    /\ lookup record "icl_document" = Some context
    /\ lookup record "document_outline" = Some (document_outline self)
    /\ lookup record "domain" = Some (domain self)
    /\ lookup record "leaf_node_type" = Some (PStr "knowledge")
    /\ lookup record "leaf_node_path" = Some (PStr (path_str (path self)))
    /\ forall n qna,
         nth_error qnas n = Some qna ->
         exists question answer,
           getitem qna "question" = Return question
           /\ getitem qna "answer" = Return answer
           /\ nonempty_str question = true
           /\ nonempty_str answer = true
           /\ lookup record ("icl_query_" ++ str_of_nat (n + 1))%string
              = Some question
           /\ lookup record ("icl_response_" ++ str_of_nat (n + 1))%string
              = Some answer.
Proof.
  intros Hok.
  destruct (make_record_explicit self chunk icl Hok)
    as (context & q & qnas & pairs & Hc & _ & Hq & Hi & Hpairs & Hrec).
  pose proof (record_keys_nodup self chunk context pairs) as Hnd.
  exists (literal_entries self chunk context ++ qna_entries 0 pairs),
    context, q, qnas.
  assert (Hlit : forall k v,
             In (k, v) (literal_entries self chunk context) ->
             lookup (literal_entries self chunk context
                     ++ qna_entries 0 pairs) k = Some v).
  { intros k v Hin. apply lookup_present; [exact Hnd|].
    apply in_app_iff. now left. }
  split; [exact Hrec|]. split; [exact Hc|]. split; [exact Hq|].
  split; [exact Hi|]. split; [exact Hnd|].
  split.
  { rewrite length_app, qna_entries_length.
    unfold read_pairs in Hpairs. rewrite (Forall2_length Hpairs).
    reflexivity. }
  split; [apply Hlit; cbn; tauto|].
  split; [apply Hlit; cbn; tauto|].
  split; [apply Hlit; cbn; tauto|].
  split; [apply Hlit; cbn; tauto|].
  split; [apply Hlit; cbn; tauto|].
  split; [apply Hlit; cbn; tauto|].
  intros n qna Hn.
  unfold read_pairs in Hpairs.
  assert (Hpair : exists qa, nth_error pairs n = Some qa
                             /\ getitem qna "question" = Return (fst qa)
                             /\ getitem qna "answer" = Return (snd qa)
                             /\ nonempty_str (fst qa) = true
                             /\ nonempty_str (snd qa) = true).
  { clear - Hpairs Hn. revert n Hn.
    induction Hpairs as [|x qa l l' Hx _ IH]; intros n Hn.
    - destruct n; discriminate Hn.
    - destruct n as [|n]; cbn [nth_error] in Hn |- *.
      + injection Hn as <-. now exists qa.
      + now apply IH. }
  destruct Hpair as ([question answer] & Hnth & Hgq & Hga & Hnq & Hna).
  cbn [fst snd] in *.
  destruct (qna_entries_nth pairs 0 n question answer Hnth) as [Hinq Hina].
  cbn [Nat.add] in Hinq, Hina.
  exists question, answer.
  repeat split; try assumption.
  - apply lookup_present; [exact Hnd | apply in_app_iff; now right].
  - apply lookup_present; [exact Hnd | apply in_app_iff; now right].
Qed.

Lemma make_record_fields_witness :
  icl_ok toy_icl = true
  /\ exists record,
       make_record toy_node (PStr "a chunk") toy_icl = Return record
       /\ List.length record = 8%nat
       /\ lookup record "document" = Some (PStr "a chunk")
       /\ lookup record "icl_document" = Some (PStr "Some context.")
       /\ lookup record "icl_query_1" = Some (PStr "Who?")
       /\ lookup record "icl_response_1" = Some (PStr "They.").
Proof.
  assert (Hok : icl_ok toy_icl = true) by reflexivity.
  split; [exact Hok|].
  destruct (make_record_fields toy_node (PStr "a chunk") toy_icl Hok)
    as (record & context & q & qnas & Hrec & Hc & Hq & Hi & _ & Hlen
        & Hdoc & Hctx & _ & _ & _ & _ & Hpairs).
  injection Hc as <-. injection Hq as <-. injection Hi as <-.
  destruct (Hpairs 0%nat _ eq_refl)
    as (question & answer & Hgq & Hga & _ & _ & Hlq & Hla).
  injection Hgq as <-. injection Hga as <-.
  exists record. repeat split; assumption.
Defined.

(** ** From the parsed [qna.yaml] to the samples *)

Import data_ingest.

Lemma seed_loop_cons (seed_example : pyobj) (rest seed_data : list pyobj) :
  (forall item,
      seed_entry seed_example = Some item ->
      seed_loop (seed_example :: rest) seed_data
      = seed_loop rest (seed_data ++ [item]))
  /\ (seed_entry seed_example = None ->
      exists e, seed_loop (seed_example :: rest) seed_data = Throw e).
Proof.
  destruct seed_example as [| b | z | s | items | entries];
    cbn [seed_loop seed_entry contains obind];
    try (split; [discriminate | intros _; eexists; reflexivity]).
  - split; [discriminate | intros _].
    destruct (occurs "questions_and_answers" s); eexists; reflexivity.
  - split; [discriminate | intros _].
    destruct (existsb _ items); eexists; reflexivity.
  - unfold get, field.
    destruct (lookup entries "questions_and_answers") as [qa|].
    + split; [|discriminate]. intros item [= <-]. cbn [assert obind].
      destruct (lookup entries "context"); reflexivity.
    + split; [discriminate | intros _; eexists; reflexivity].
Qed.

Lemma seed_loop_spec (seed_examples : list pyobj) :
  forall seed_data out,
    seed_loop seed_examples seed_data = Return out
    <-> exists items,
          Forall2 (fun seed_example item => seed_entry seed_example = Some item)
            seed_examples items
          /\ out = seed_data ++ items.
Proof.
  induction seed_examples as [|ex rest IH]; intros acc out.
  - cbn [seed_loop]. split.
    + intros [= <-]. exists []. split; [constructor | now rewrite app_nil_r].
    + intros (items & Hall & ->). inversion Hall. now rewrite app_nil_r.
  - destruct (seed_loop_cons ex rest acc) as [Hsome Hnone].
    destruct (seed_entry ex) as [item|] eqn:E.
    + rewrite (Hsome item eq_refl), IH. split.
      * intros (items & Hall & ->). exists (item :: items).
        split; [now constructor | now rewrite <- app_assoc].
      * intros (items & Hall & ->).
        inversion Hall as [|? item' ? items' Hitem Hall']; subst.
        rewrite E in Hitem. injection Hitem as <-.
        exists items'. split; [exact Hall' | now rewrite <- app_assoc].
    + destruct (Hnone eq_refl) as [e ->]. split; [discriminate|].
      intros (items & Hall & _). inversion Hall as [|? ? ? ? Hitem]; subst.
      rewrite E in Hitem. discriminate Hitem.
Qed.

Lemma read_qna_file_spec (contents : pyobj)
    (r : pyobj * pyobj * pyobj * pyobj) :
  _read_qna_file contents = Return r
  <-> exists entries seed_examples items,
        contents = PDict entries
        /\ iterate (field entries "seed_examples" PNone) = Return seed_examples
        /\ Forall2 (fun seed_example item =>
                      seed_entry seed_example = Some item)
             seed_examples items
        /\ r = (field entries "task_description" PNone,
                field entries "document_outline" PNone,
                field entries "domain" PNone,
                PList items).
Proof.
  destruct contents as [| b | z | s | l | entries];
    try (split; [discriminate | intros (? & ? & ? & [=] & _)]).
  unfold _read_qna_file, get.
  assert (Hget : forall key,
             match lookup entries key with
             | Some v => Return v
             | None => Return PNone
             end = Return (field entries key PNone)).
  { intros key. unfold field. now destruct (lookup entries key). }
  rewrite !Hget. cbn [obind].
  destruct (iterate (field entries "seed_examples" PNone))
    as [seed_examples|e] eqn:Ei; cbn [obind].
  - destruct (seed_loop seed_examples []) as [out|e] eqn:El; cbn [obind].
    + apply seed_loop_spec in El as (items & Hall & ->). cbn [app]. split.
      * intros [= <-]. exists entries, seed_examples, items. auto.
      * intros (entries' & examples' & items' & [= <-] & Hi & Hall' & ->).
        rewrite Ei in Hi. injection Hi as <-.
        assert (Hsame : items = items').
        { clear - Hall Hall'. revert items' Hall'.
          induction Hall as [|x y l l' Hx _ IH]; intros items' Hall';
            inversion Hall' as [|? y' ? l'' Hy Hl]; subst; [reflexivity|].
          rewrite Hx in Hy. injection Hy as <-. f_equal. now apply IH. }
        now subst items'.
    + split; [discriminate|].
      intros (entries' & examples' & items' & [= <-] & Hi & Hall' & _).
      rewrite Ei in Hi. injection Hi as <-.
      assert (Hret : seed_loop seed_examples [] = Return ([] ++ items'))
        by (apply seed_loop_spec; now exists items').
      rewrite El in Hret. discriminate Hret.
  - split; [discriminate|].
    intros (entries' & examples' & items' & [= <-] & Hi & _).
    rewrite Ei in Hi. discriminate Hi.
Qed.

(** X26. [_read_qna_file] returns exactly when the parsed file is a
    dictionary whose ["seed_examples"] is iterable and every seed example
    is a dictionary with the key ["questions_and_answers"]. It then
    returns the description, outline and domain of the file ([None] when
    absent) and one entry per seed example, in order, that keeps only the
    questions and answers and the context; a missing context is the
    empty string. *)
Theorem read_qna_file_seed_data (contents : pyobj)
    (task_description document_outline domain seed_data : pyobj) :
  _read_qna_file contents
  = Return (task_description, document_outline, domain, seed_data)
  <-> exists entries seed_examples items,
        contents = PDict entries
        /\ task_description = field entries "task_description" PNone
        /\ document_outline = field entries "document_outline" PNone
        /\ domain = field entries "domain" PNone
        /\ iterate (field entries "seed_examples" PNone) = Return seed_examples
        /\ seed_data = PList items
        /\ Forall2 (fun seed_example item =>
                      exists example_entries questions_and_answers,
                        seed_example = PDict example_entries
                        /\ lookup example_entries "questions_and_answers"
                           = Some questions_and_answers
                        /\ item
                           = PDict [("questions_and_answers",
                                     questions_and_answers);
                                    ("context",
                                     field example_entries "context"
                                       (PStr ""))])
             seed_examples items.
Proof.
  rewrite read_qna_file_spec.
  assert (Hentry : forall seed_example item,
             seed_entry seed_example = Some item
             <-> exists example_entries questions_and_answers,
                   seed_example = PDict example_entries
                   /\ lookup example_entries "questions_and_answers"
                      = Some questions_and_answers
                   /\ item
                      = PDict [("questions_and_answers",
                                questions_and_answers);
                               ("context",
                                field example_entries "context" (PStr ""))]).
  { intros ex item. split.
    - destruct ex as [| b | z | s | l | es]; try discriminate.
      cbn [seed_entry].
      destruct (lookup es "questions_and_answers") as [qa|] eqn:E;
        [|discriminate].
      intros [= <-]. now exists es, qa.
    - intros (es & qa & -> & Hqa & ->). cbn [seed_entry]. now rewrite Hqa. }
  split.
  - intros (entries & examples & items & -> & Hi & Hall & [= -> -> -> ->]).
    exists entries, examples, items. repeat split; try assumption.
    clear - Hall Hentry. induction Hall; constructor; [|assumption].
    now apply Hentry.
  - intros (entries & examples & items & -> & -> & -> & -> & Hi & -> & Hall).
    exists entries, examples, items. repeat split; try assumption.
    clear - Hall Hentry. induction Hall; constructor; [|assumption].
    now apply Hentry.
Qed.

Lemma lookup_store_other (r : list (string * pyobj)) (k k' : string)
    (v : pyobj) :
  k <> k' -> lookup (store r k v) k' = lookup r k'.
Proof.
  intros Hk. induction r as [|[k0 v0] r IH]; cbn [store lookup].
  - apply String.eqb_neq in Hk. now rewrite Hk.
  - destruct (String.eqb k0 k) eqn:E; cbn [lookup].
    + apply String.eqb_eq in E. subst k0.
      apply String.eqb_neq in Hk. now rewrite Hk.
    + now rewrite IH.
Qed.

(** The updates of the numbered keys leave every other key alone,
    whatever the pairs are. *)
Lemma update_loop_keeps (qnas : list pyobj) :
  forall record i r,
    update_loop record i qnas = Return r ->
    forall k,
      (forall j, k <> ("icl_query_" ++ str_of_nat j)%string
                 /\ k <> ("icl_response_" ++ str_of_nat j)%string) ->
      lookup r k = lookup record k.
Proof.
  induction qnas as [|qna qnas IH]; intros record i r Hr k Hk.
  - cbn [update_loop] in Hr. now injection Hr as <-.
  - cbn [update_loop] in Hr.
    destruct (getitem qna "question") as [q|e]; [|discriminate Hr].
    destruct (getitem qna "answer") as [a|e]; [|discriminate Hr].
    cbn [obind] in Hr. rewrite (IH _ _ _ Hr k Hk).
    destruct (Hk (i + 1)%nat) as [Hq Ha].
    rewrite !lookup_store_other by (intros H; now symmetry in H).
    reflexivity.
Qed.

Lemma make_record_literal (self : KnowledgeLeafNode) (chunk icl : pyobj)
    (record : list (string * pyobj)) :
  make_record self chunk icl = Return record ->
  exists context,
    getitem icl "context" = Return context
    /\ forall k v,
         In (k, v) (literal_entries self chunk context) ->
         lookup record k = Some v.
Proof.
  unfold make_record. intros Hrec.
  destruct (getitem icl "context") as [context|e]; [|discriminate Hrec].
  cbn [obind] in Hrec.
  destruct (getitem icl "questions_and_answers") as [q|e];
    [|discriminate Hrec].
  cbn [obind] in Hrec.
  destruct (iterate q) as [qnas|e]; [|discriminate Hrec].
  cbn [obind] in Hrec.
  exists context. split; [reflexivity|]. intros k v Hin.
  rewrite (update_loop_keeps qnas _ _ _ Hrec k).
  - change (lookup (literal_entries self chunk context) k = Some v).
    apply lookup_present; [|exact Hin].
    pose proof (record_keys_nodup self chunk context []) as Hnd.
    cbn [qna_entries] in Hnd. now rewrite app_nil_r in Hnd.
  - intros j. apply (in_map fst) in Hin. cbn [fst] in Hin.
    split; intros ->.
    + now apply query_key_not_literal in Hin.
    + now apply response_key_not_literal in Hin.
Qed.

Lemma Forall2_list_prod {A B C : Type} (R : B -> C -> Prop)
    (chunks : list A) (l : list B) (l' : list C) :
  Forall2 R l l' ->
  Forall2 (fun x y => fst x = fst y /\ R (snd x) (snd y))
    (list_prod chunks l) (list_prod chunks l').
Proof.
  intros Hall. induction chunks as [|c chunks IH]; [constructor|].
  cbn [list_prod]. apply Forall2_app; [|exact IH].
  clear IH. induction Hall; cbn [map]; constructor; auto.
Qed.

Lemma Forall2_compose {A B C : Type} (P : A -> C -> Prop)
    (Q : B -> C -> Prop) (l : list A) (l2 : list C) :
  Forall2 P l l2 ->
  forall l1, Forall2 Q l1 l2 ->
             Forall2 (fun a b => exists c, P a c /\ Q b c) l l1.
Proof.
  induction 1 as [|a c l l2 Hac _ IH]; intros l1 Hq;
    inversion Hq; subst; constructor; eauto.
Qed.

(** X27. From the parsed [qna.yaml] to the samples: when the node of a
    knowledge directory is built, [to_samples] returns for any chunks
    one record per chunk and seed example of the file, chunk by chunk,
    and each record holds the chunk, the outline and the domain of the
    file, the path of the [qna.yaml], and as [icl_document] the context
    of its seed example, the empty string when the example has none. *)
Theorem knowledge_node_samples (qna_file : Path) (documents : list Path)
    (contents : pyobj) (self : KnowledgeLeafNode)
    (document_chunks : list pyobj) :
  knowledge_node qna_file documents contents = Return self ->
  exists entries seed_examples samples,
    contents = PDict entries
    /\ iterate (field entries "seed_examples" PNone) = Return seed_examples
    /\ to_samples self document_chunks = Return samples
    /\ Forall2 (fun record ce =>
                  exists example_entries,
                    snd ce = PDict example_entries
                    /\ lookup record "document" = Some (fst ce)
                    /\ lookup record "icl_document"
                       = Some (field example_entries "context" (PStr ""))
                    /\ lookup record "document_outline"
                       = Some (field entries "document_outline" PNone)
                    /\ lookup record "domain"
                       = Some (field entries "domain" PNone)
                    /\ lookup record "leaf_node_path"
                       = Some (PStr (path_str qna_file)))
         samples (list_prod document_chunks seed_examples).
Proof.
  unfold knowledge_node. intros Hnode.
  destruct (_read_qna_file contents) as [[[[td outline] dom] sd]|e] eqn:Er;
    [|discriminate Hnode].
  apply read_qna_file_spec in Er
    as (entries & examples & items & -> & Hi & Hitems & [= -> -> -> ->]).
  destruct (validate_seed_data_spec (PList items)) as [Hok Hko].
  destruct (seed_data_ok (PList items)) eqn:Esd.
  2:{ destruct (Hko eq_refl) as [e He]. unfold __init__ in Hnode.
      rewrite He in Hnode. discriminate Hnode. }
  unfold __init__ in Hnode. rewrite (Hok eq_refl) in Hnode.
  cbn [obind] in Hnode. injection Hnode as <-.
  unfold seed_data_ok in Esd. cbn [iterate] in Esd.
  set (self := {| taxonomy.path := qna_file;
                  taxonomy.documents := documents;
                  taxonomy.document_outline
                    := field entries "document_outline" PNone;
                  taxonomy.domain := field entries "domain" PNone;
                  taxonomy.seed_data := PList items |}).
  destruct (chunk_loop_ok self items eq_refl Esd document_chunks [])
    as (samples & Hloop & Hall).
  exists entries, examples, samples.
  split; [reflexivity|]. split; [exact Hi|]. split; [exact Hloop|].
  pose proof (Forall2_list_prod _ document_chunks _ _ Hitems) as Hprod.
  pose proof (Forall2_compose _ _ _ _ Hall _ Hprod) as Hcomp.
  eapply Forall2_impl; [|exact Hcomp].
  intros record [chunk ex] ([chunk' item] & Hrec & Hchunk & Hentry).
  cbn [fst snd] in *. subst chunk'.
  destruct ex as [| b | z | s | l | es]; try discriminate Hentry.
  cbn [seed_entry] in Hentry.
  destruct (lookup es "questions_and_answers") as [qa|];
    [|discriminate Hentry].
  injection Hentry as <-.
  destruct (make_record_literal self chunk _ record Hrec)
    as (context & Hc & Hlit).
  injection Hc as <-.
  exists es. split; [reflexivity|].
  repeat split; apply Hlit; cbn; tauto.
Qed.

Lemma knowledge_node_samples_witness :
  knowledge_node toy_qna_file [] toy_contents = Return toy_ingested
  /\ exists entries seed_examples samples,
       toy_contents = PDict entries
       /\ iterate (field entries "seed_examples" PNone) = Return seed_examples
       /\ to_samples toy_ingested [PStr "a chunk"] = Return samples
       /\ Forall2 (fun record ce =>
                     exists example_entries,
                       snd ce = PDict example_entries
                       /\ lookup record "document" = Some (fst ce)
                       /\ lookup record "icl_document"
                          = Some (field example_entries "context" (PStr ""))
                       /\ lookup record "document_outline"
                          = Some (field entries "document_outline" PNone)
                       /\ lookup record "domain"
                          = Some (field entries "domain" PNone)
                       /\ lookup record "leaf_node_path"
                          = Some (PStr (path_str toy_qna_file)))
            samples (list_prod [PStr "a chunk"] seed_examples).
Proof.
  assert (Hnode : knowledge_node toy_qna_file [] toy_contents
                  = Return toy_ingested) by reflexivity.
  split; [exact Hnode|].
  exact (knowledge_node_samples toy_qna_file [] toy_contents toy_ingested
           [PStr "a chunk"] Hnode).
Defined.

End KnowledgeSamples.
